(** * magic-eraser-pro: the frame-remediation pipeline, checked against its specification

    A shallow embedding of the three Python scripts of the repository

      - [scripts/inpaint_video.py]        (module [InpaintVideo])
      - [scripts/ai_watermark_remover.py] (module [AiWatermarkRemover])
      - [scripts/models/model_manager.py] (module [ModelManager])

    followed by the theorems that settle the claims C1..C10 of the
    specification and by further properties of the same code (X1, X2,
    ...).

    Conventions of the embedding.

    - Python [int] is [Z]; [//] and [%] with a positive divisor are
      [Z.div] and [Z.modulo] (both floor, as in Python).
    - numpy / torch floating point is IEEE-754 binary32 or binary16,
      evaluated bit-exactly with the executable operations of
      [Stdlib.Floats.SpecFloat] (round to nearest, ties to even).
    - Python's [round(current / total * 100)] on the progress path is
      modelled over exact rationals with ties to even.
    - The file system is a finite map from paths to the contents of
      files; paths are compared as strings and directories are not
      held in it.  [os.rename] replaces an existing destination on a
      POSIX host and raises [FileExistsError] on Windows.
    - External capabilities (the decoder, cv2.inpaint, cv2.GaussianBlur,
      the neural model, ffmpeg, the HTTP server) are arguments of the
      functions that use them.
    - An exception is a value of the result type; [sys.exit] is an
      outcome.  Wall-clock quantities ([fps_speed]) are left out of the
      events. *)

From Stdlib Require Import ZArith List Bool Lia Sorted Floats.SpecFloat.
From stdpp Require Import gmap strings list fin_maps.

Local Open Scope Z_scope.

(* ===================================================================== *)
(** * Part I: definitions                                                 *)
(* ===================================================================== *)

(** ** Floating point as numpy and torch use it *)

Module Float.

(** A binary interchange format: precision in bits and exponent bound. *)
Record format := { prec : Z; emax : Z }.

(** [np.float32] / [torch.float32]. *)
Definition binary32 : format := {| prec := 24; emax := 128 |}.
(** [np.float16] / [torch.float16], what [.half()] produces. *)
Definition binary16 : format := {| prec := 11; emax := 16 |}.

(** An integer converted to the format (exact for uint8 values). *)
Definition of_int (fmt : format) (z : Z) : spec_float :=
  binary_normalize (prec fmt) (emax fmt) z 0 false.

Definition mul (fmt : format) := SFmul (prec fmt) (emax fmt).
Definition add (fmt : format) := SFadd (prec fmt) (emax fmt).
Definition sub (fmt : format) := SFsub (prec fmt) (emax fmt).
Definition div (fmt : format) := SFdiv (prec fmt) (emax fmt).

(** [.half()], [.float()], [.astype(floatN)]: the value rounded into
    another format. *)
Definition cast (fmt : format) (x : spec_float) : spec_float :=
  match x with
  | S754_finite s m e =>
      binary_normalize (prec fmt) (emax fmt)
        (if s then Z.neg m else Z.pos m) e s
  | _ => x
  end.

(** The integer part of a float, rounding toward zero (a C cast). *)
Definition trunc (x : spec_float) : Z :=
  match x with
  | S754_finite s m e =>
      let a := if 0 <=? e then Z.pos m * 2 ^ e else Z.pos m / 2 ^ (- e) in
      if s then - a else a
  | _ => 0
  end.

(** [arr.astype(np.uint8)] on a float array: truncation toward zero,
    then the low eight bits. *)
Definition astype_uint8 (x : spec_float) : Z := trunc x mod 256.

(** [np.clip(x, lo, hi)] on one element. *)
Definition clip (lo hi x : spec_float) : spec_float :=
  if SFltb x lo then lo else if SFltb hi x then hi else x.

(** [lo <= x <= hi] as numpy would test it. *)
Definition between (lo hi x : spec_float) : bool :=
  SFleb lo x && SFleb x hi.

End Float.

(** ** Python values and control effects *)

Module Py.

(** The exceptions the scripts can meet.  [SystemExit] is what
    [sys.exit] raises; it is not an [Exception], so [except Exception]
    lets it through. *)
Inductive exn :=
| ZeroDivisionError
| IndexError
| FileNotFoundError (path : string)
| FileExistsError (path : string)
| OSError (msg : string)
| ValueError (msg : string)
| RuntimeError (msg : string)
| ExternalError (msg : string)
| SystemExit (code : Z).

Definition is_Exception (e : exn) : bool :=
  match e with SystemExit _ => false | _ => true end.

Inductive result (A : Type) :=
| Ok (a : A)
| Raise (e : exn).
Arguments Ok {A} a.
Arguments Raise {A} e.

(** Code that reads and writes a state [S] and may raise. *)
Definition M (S A : Type) : Type := S -> result A * S.

Definition ret {S A} (a : A) : M S A := fun s => (Ok a, s).
Definition raise {S A} (e : exn) : M S A := fun s => (Raise e, s).
Definition bind {S A B} (m : M S A) (k : A -> M S B) : M S B :=
  fun s => match m s with
           | (Ok a, s') => k a s'
           | (Raise e, s') => (Raise e, s')
           end.
Definition lift {S A} (r : result A) : M S A := fun s => (r, s).
Definition modify {S} (f : S -> S) : M S unit := fun s => (Ok tt, f s).

(** [try: body  except Exception as e: handler(e)]. *)
Definition try_except {S A} (body : M S A) (handler : exn -> M S A) : M S A :=
  fun s => match body s with
           | (Raise e, s') =>
               if is_Exception e then handler e s' else (Raise e, s')
           | r => r
           end.

(** [try: body  finally: fin].  The body's result (or exception)
    survives unless [fin] itself raises. *)
Definition try_finally {S A} (body : M S A) (fin : M S unit) : M S A :=
  fun s => match body s with
           | (r, s') =>
               match fin s' with
               | (Ok _, s'') => (r, s'')
               | (Raise e, s'') => (Raise e, s'')
               end
           end.

(** [a % b] on ints. *)
Definition mod_ (a b : Z) : result Z :=
  if b =? 0 then Raise ZeroDivisionError else Ok (a mod b).

(** [round(q)] for the rational [q = n / d] with [0 < d]: the nearest
    integer, ties to the even one. *)
Definition round_half_even (n d : Z) : Z :=
  let q := n / d in
  let r := n mod d in
  if 2 * r <? d then q
  else if d <? 2 * r then q + 1
  else if Z.even q then q else q + 1.

(** [round(a / b * 100)] on ints [a], [b]: true division, so a zero
    divisor raises. *)
Definition round_percent (a b : Z) : result Z :=
  if b =? 0 then Raise ZeroDivisionError
  else if 0 <? b then Ok (round_half_even (100 * a) b)
  else Ok (round_half_even (- (100 * a)) (- b)).

End Py.

Declare Scope py_scope.
Delimit Scope py_scope with py.
Notation "'do' x <- m ; k" := (Py.bind m (fun x => k))
  (at level 10, x name, m at level 100, k at level 200) : py_scope.
Notation "m ;; k" := (Py.bind m (fun _ => k))
  (at level 100, k at level 200, right associativity) : py_scope.

(** ** Images *)

Module Image.

(** A BGR pixel of an 8-bit video frame. *)
Definition pixel : Type := Z * Z * Z.
(** A decoded frame: rows of pixels ([H x W x 3], dtype uint8). *)
Definition frame : Type := list (list pixel).
(** A single-channel 8-bit raster ([H x W], dtype uint8). *)
Definition gray : Type := list (list Z).
(** A single-channel float raster. *)
Definition plane : Type := list (list spec_float).

(** [np.zeros((h, w), dtype=np.uint8)]. *)
Definition zeros (h w : Z) : gray :=
  replicate (Z.to_nat h) (replicate (Z.to_nat w) 0).

(** Python's normalisation of one slice bound for a dimension of
    length [n]: a negative bound counts from the end. *)
Definition slice_index (n i : Z) : Z :=
  if i <? 0 then Z.max 0 (i + n) else Z.min i n.

(** Is index [i] selected by the slice [a:b] of a dimension of length [n]? *)
Definition in_slice (n a b i : Z) : bool :=
  (slice_index n a <=? i) && (i <? slice_index n b).

(** [img[y1:y2, x1:x2] = v]. *)
Definition assign_block (img : gray) (y1 y2 x1 x2 v : Z) : gray :=
  imap (fun r row =>
          if in_slice (Z.of_nat (length img)) y1 y2 (Z.of_nat r)
          then imap (fun c old =>
                       if in_slice (Z.of_nat (length row)) x1 x2 (Z.of_nat c)
                       then v else old) row
          else row) img.

(** [cv2.rectangle(img, (xa, ya), (xb, yb), v, -1)]: the filled
    rectangle with the two given corners, both included, clipped to
    the image.  This is what the call does for corners that fit a C
    [int]; for others it raises, which is not modelled. *)
Definition rectangle (img : gray) (xa ya xb yb v : Z) : gray :=
  imap (fun r row =>
          imap (fun c old =>
                  if (Z.min xa xb <=? Z.of_nat c) && (Z.of_nat c <=? Z.max xa xb)
                     && (Z.min ya yb <=? Z.of_nat r) && (Z.of_nat r <=? Z.max ya yb)
                  then v else old) row) img.

(** [saturate_cast<uchar>]: how OpenCV stores a result in a uint8 image. *)
Definition saturate_uint8 (v : Z) : Z := Z.max 0 (Z.min 255 v).

(** [img[row][col]], when both indices are in range. *)
Definition pixel_at {A : Type} (img : list (list A)) (row col : nat) : option A :=
  match img !! row with
  | Some r => r !! col
  | None => None
  end.

(** Every channel of the pixel is a byte. *)
Definition is_uint8 (p : pixel) : Prop :=
  0 <= fst (fst p) <= 255 /\ 0 <= snd (fst p) <= 255 /\ 0 <= snd p <= 255.

(** Every channel of [q] is the same channel of [p], or one less. *)
Definition at_most_one_below (p q : pixel) : Prop :=
  fst (fst p) - 1 <= fst (fst q) <= fst (fst p) /\
  snd (fst p) - 1 <= snd (fst q) <= snd (fst p) /\
  snd p - 1 <= snd q <= snd p.

(** Every element of a raster satisfies [P]. *)
Definition all_values {A : Type} (P : A -> Prop) (img : list (list A)) : Prop :=
  Forall (Forall P) img.

End Image.

(** What [cv2.VideoCapture] reports about an opened input, and the frames
    that actually decode, in order.  The declared count comes from the
    container metadata and need not be the number of decodable frames. *)
Module Cv2.
Record capture := {
  declared_frames : Z;   (* CAP_PROP_FRAME_COUNT *)
  frame_width : Z;       (* CAP_PROP_FRAME_WIDTH *)
  frame_height : Z;      (* CAP_PROP_FRAME_HEIGHT *)
  decodable : list Image.frame
}.
End Cv2.

(** A watermark region as the command line gives it, after [int()]. *)
Module Region.
Record t := { x : Z; y : Z; width : Z; height : Z }.

(** The pixel in column [px], row [py] lies in the rectangle
    [[x, x + width) x [y, y + height)] of the region. *)
Definition covers (px py : Z) (g : t) : bool :=
  (x g <=? px) && (px <? x g + width g) && (y g <=? py) && (py <? y g + height g).

(** The pixel lies in the rectangle whose opposite corners are
    [(x, y)] and [(x + width, y + height)], both included. *)
Definition covers_closed (px py : Z) (g : t) : bool :=
  (Z.min (x g) (x g + width g) <=? px) && (px <=? Z.max (x g) (x g + width g))
  && (Z.min (y g) (y g + height g) <=? py) && (py <=? Z.max (y g) (y g + height g)).

(** A coordinate that a C [int] holds. *)
Definition is_int (v : Z) : Prop := - 2 ^ 31 <= v < 2 ^ 31.

(** The two corners [(x, y)] and [(x + width, y + height)] fit C
    [int]s, as [cv2.rectangle] needs them. *)
Definition corners_fit_int (g : t) : Prop :=
  is_int (x g) /\ is_int (y g) /\ is_int (x g + width g) /\ is_int (y g + height g).
End Region.

(** ** External processes and the file system *)

Module Os.
Import Py.

(** File contents. *)
Definition bytes : Type := list Byte.byte.

(** The operating system the script runs on, as far as [os.rename]
    tells them apart. *)
Inductive host := Posix | Windows.

(** How [subprocess.run] ends: the child exits with a return code, or
    the call itself raises (the program is missing, the timeout
    expires, ...). *)
Inductive proc_outcome :=
| Exited (returncode : Z)
| Failed (why : string).

(** An ffmpeg invocation seen from outside: from its arguments and the
    files it can read, how it ends and what it leaves at its output
    path (nothing for the null muxer). *)
Definition ffmpeg_t : Type :=
  list string -> gmap string bytes -> proc_outcome * option bytes.

(** The file operations, for any state [S] that holds a file system
    whose files have contents of type [V]. *)
Section FileOps.
Context {S V : Type}.
Variable get_fs : S -> gmap string V.
Variable set_fs : gmap string V -> S -> S.

(** [os.path.exists(path)]. *)
Definition path_exists (path : string) : M S bool :=
  fun s => (Ok (bool_decide (is_Some (get_fs s !! path))), s).

(** [os.rename(src, dst)] for files.  On a POSIX host an existing
    destination is replaced; on Windows the call raises
    [FileExistsError] when the destination exists. *)
Definition rename (h : host) (src dst : string) : M S unit :=
  fun s => match get_fs s !! src with
           | None => (Raise (FileNotFoundError src), s)
           | Some v =>
               match h, get_fs s !! dst with
               | Windows, Some _ => (Raise (FileExistsError dst), s)
               | _, _ => (Ok tt, set_fs (<[dst := v]> (delete src (get_fs s))) s)
               end
           end.

(** [shutil.move(src, dst)] for files: [os.rename], and where that
    raises [OSError] a copy followed by the removal of the source; an
    existing destination is replaced on every host. *)
Definition move (src dst : string) : M S unit :=
  fun s => match get_fs s !! src with
           | None => (Raise (FileNotFoundError src), s)
           | Some v => (Ok tt, set_fs (<[dst := v]> (delete src (get_fs s))) s)
           end.

(** [os.remove(path)]. *)
Definition remove (path : string) : M S unit :=
  fun s => match get_fs s !! path with
           | None => (Raise (FileNotFoundError path), s)
           | Some _ => (Ok tt, set_fs (delete path (get_fs s)) s)
           end.

End FileOps.

Section Subprocess.
Context {S : Type}.
Variable get_fs : S -> gmap string bytes.
Variable set_fs : gmap string bytes -> S -> S.

(** [subprocess.run(["ffmpeg"] + args, capture_output=True)] whose
    output file, if any, is [out]; the result is the return code. *)
Definition run_ffmpeg (ffmpeg : ffmpeg_t) (args : list string)
    (out : option string) : M S Z :=
  fun s =>
    let '(outcome, produced) := ffmpeg args (get_fs s) in
    let s' := match out, produced with
              | Some path, Some v => set_fs (<[path := v]> (get_fs s)) s
              | _, _ => s
              end in
    match outcome with
    | Exited rc => (Ok rc, s')
    | Failed why => (Raise (ExternalError why), s')
    end.
End Subprocess.

End Os.

(** ** scripts/inpaint_video.py *)

Module InpaintVideo.
Import Py Image Os Cv2.
Local Open Scope py_scope.

(** The JSON lines the script prints. *)
Inductive event :=
| Info (total_frames frame_width frame_height : Z) (algorithm : string)
| Progress (current_frame total_frames progress : Z)
| Error (error : string)
| Complete (output : string).

(** The capabilities the script calls but does not implement. *)
Record world := {
  (** [cv2.VideoCapture(path)]; [None] when [isOpened()] is false. *)
  video_capture : string -> option capture;
  (** Does [cv2.VideoWriter(path, ...)] open? *)
  video_writer_opens : string -> bool;
  (** The mp4v file holding the given frames. *)
  encode : list frame -> bytes;
  (** [cv2.inpaint(frame, mask, radius, method)]. *)
  cv2_inpaint : frame -> gray -> Z -> Z -> result frame;
  ffmpeg : ffmpeg_t;
  (** The operating system. *)
  host : Os.host
}.

Record state := {
  cap_open : bool;
  out_open : bool;
  written : list frame;
  events : list event;
  fs : gmap string bytes
}.

Definition set_cap_open (b : bool) (s : state) : state :=
  {| cap_open := b; out_open := out_open s; written := written s;
     events := events s; fs := fs s |}.
Definition set_out_open (b : bool) (s : state) : state :=
  {| cap_open := cap_open s; out_open := b; written := written s;
     events := events s; fs := fs s |}.
Definition set_written (w : list frame) (s : state) : state :=
  {| cap_open := cap_open s; out_open := out_open s; written := w;
     events := events s; fs := fs s |}.
Definition set_events (e : list event) (s : state) : state :=
  {| cap_open := cap_open s; out_open := out_open s; written := written s;
     events := e; fs := fs s |}.
Definition set_fs (f : gmap string bytes) (s : state) : state :=
  {| cap_open := cap_open s; out_open := out_open s; written := written s;
     events := events s; fs := f |}.

(** The state the script starts from: nothing open, nothing printed. *)
Definition initial (files : gmap string bytes) : state :=
  {| cap_open := false; out_open := false; written := [];
     events := []; fs := files |}.

(** [print(json.dumps(...), flush=True)]. *)
Definition print (ev : event) : M state unit :=
  modify (fun s => set_events (events s ++ [ev]) s).

Definition print_progress (current_frame total_frames : Z) : M state unit :=
  do progress <- lift (if 0 <? total_frames
                       then round_percent current_frame total_frames
                       else Ok 0);
  print (Progress current_frame total_frames progress).

(** The probe command of one encoder. *)
Definition probe_cmd (name : string) : list string :=
  ["-f"; "lavfi"; "-i"; "color=black:s=64x64:d=0.1";
   "-c:v"; name; "-f"; "null"; "-"]%string.

(** The hardware encoders, best first. *)
Definition encoders : list (string * list string) :=
  [("h264_videotoolbox", probe_cmd "h264_videotoolbox");
   ("h264_nvenc", probe_cmd "h264_nvenc");
   ("h264_amf", probe_cmd "h264_amf");
   ("h264_qsv", probe_cmd "h264_qsv")]%string.

(** The loop of [detect_hw_encoder] over a list of candidates. *)
Fixpoint probe_loop (ffmpeg : ffmpeg_t) (candidates : list (string * list string))
    : M state string :=
  match candidates with
  | [] => ret "libx264"%string
  | (name, cmd) :: rest =>
      do found <-
        try_except
          (do returncode <- run_ffmpeg fs set_fs ffmpeg
                              (["-hide_banner"; "-y"]%string ++ cmd) None;
           ret (returncode =? 0))
          (fun _ => ret false);            (* [except Exception: continue] *)
      if found then ret name else probe_loop ffmpeg rest
  end.

Definition detect_hw_encoder (ffmpeg : ffmpeg_t) : M state string :=
  probe_loop ffmpeg encoders.

(** The smoke-encode of a candidate exits with code 0, given the files
    present. *)
Definition probe_succeeds (ffmpeg : ffmpeg_t) (files : gmap string bytes)
    (candidate : string * list string) : bool :=
  match fst (ffmpeg (["-hide_banner"; "-y"]%string ++ snd candidate) files) with
  | Exited rc => rc =? 0
  | Failed _ => false
  end.

Definition build_encoder_args (encoder : string) : list string :=
  if String.eqb encoder "h264_videotoolbox" then
    ["-c:v"; "h264_videotoolbox"; "-b:v"; "8M"; "-allow_sw"; "1"; "-realtime"; "0"]%string
  else if String.eqb encoder "h264_nvenc" then
    ["-c:v"; "h264_nvenc"; "-preset"; "p4"; "-cq"; "18"]%string
  else if String.eqb encoder "h264_amf" then
    ["-c:v"; "h264_amf"; "-quality"; "quality"; "-rc"; "cqp"; "-qp_i"; "18"; "-qp_p"; "18"]%string
  else if String.eqb encoder "h264_qsv" then
    ["-c:v"; "h264_qsv"; "-preset"; "faster"; "-global_quality"; "18"]%string
  else
    ["-c:v"; "libx264"; "-preset"; "fast"; "-crf"; "18"]%string.

(** [frame_shape] is [(height, width)]. *)
Definition create_mask (frame_shape : Z * Z) (regions : list Region.t) : gray :=
  fold_left
    (fun mask region =>
       let x := Region.x region in
       let y := Region.y region in
       let w := Region.width region in
       let h := Region.height region in
       let x1 := Z.max 0 x in
       let y1 := Z.max 0 y in
       let x2 := Z.min (snd frame_shape) (x + w) in
       let y2 := Z.min (fst frame_shape) (y + h) in
       assign_block mask y1 y2 x1 x2 255)
    regions
    (zeros (fst frame_shape) (snd frame_shape)).

Definition INPAINT_NS : Z := 0.
Definition INPAINT_TELEA : Z := 1.

Definition inpaint_frame (w : world) (frame : frame) (mask : gray)
    (algorithm : string) (inpaint_radius : Z) : result Image.frame :=
  let method := if String.eqb algorithm "NS" then INPAINT_NS else INPAINT_TELEA in
  cv2_inpaint w frame mask inpaint_radius method.

(** [cap.release()]. *)
Definition release_cap : M state unit := modify (set_cap_open false).

(** [out.release()]: the writer is closed and the file at
    [output_path] holds the frames written so far. *)
Definition release_out (w : world) (output_path : string) : M state unit :=
  modify (fun s => set_fs (<[output_path := encode w (written s)]> (fs s))
                     (set_out_open false s)).

(** [report_interval = max(1, total_frames // 100)]. *)
Definition report_interval (total_frames : Z) : Z :=
  Z.max 1 (total_frames / 100).

(** The [while True] loop of [process_video]; [cap] holds the frames
    that [cap.read()] will still deliver. *)
Fixpoint frame_loop (w : world) (mask : gray) (algorithm : string)
    (inpaint_radius total_frames interval : Z)
    (cap : list frame) (current_frame : Z) : M state unit :=
  match cap with
  | [] => ret tt
  | frame :: cap' =>
      do repaired <- lift (inpaint_frame w frame mask algorithm inpaint_radius);
      modify (fun s => set_written (written s ++ [repaired]) s) ;;
      let current_frame := current_frame + 1 in
      do r <- lift (mod_ current_frame interval);
      (if (r =? 0) || (current_frame =? total_frames)
       then print_progress current_frame total_frames
       else ret tt) ;;
      frame_loop w mask algorithm inpaint_radius total_frames interval
        cap' current_frame
  end.

(** The arguments of the remux invocation: video from the temporary
    file, audio (if any) from the input. *)
Definition remux_command (encode_args : list string)
    (temp_output input_path output_path : string) : list string :=
  (["-y"; "-i"; temp_output; "-i"; input_path]%string
     ++ encode_args
     ++ ["-c:a"; "copy"; "-map"; "0:v:0"; "-map"; "1:a:0?";
         "-movflags"; "+faststart"; "-pix_fmt"; "yuv420p";
         output_path]%string).

(** Lines 164-199: rename to a temporary name, probe, remux with the
    source audio, fall back to the video-only file. *)
Definition remux (w : world) (input_path output_path : string) : M state unit :=
  let temp_output := String.append output_path ".temp.mp4" in
  rename fs set_fs (host w) output_path temp_output ;;
  do hw_encoder <- detect_hw_encoder (ffmpeg w);
  try_except
    (let encode_args := build_encoder_args hw_encoder in
     do returncode <-
       run_ffmpeg fs set_fs (ffmpeg w)
         (remux_command encode_args temp_output input_path output_path)
         (Some output_path);
     if negb (returncode =? 0)
     then rename fs set_fs (host w) temp_output output_path
     else remove fs set_fs temp_output)
    (fun _ =>
       do present <- path_exists fs temp_output;
       if present then rename fs set_fs (host w) temp_output output_path
       else ret tt) ;;
  print (Complete output_path).

(** Lines 107-199.  The regions are those of the command line after
    the [int()] conversions of [create_mask] have succeeded; the call
    of [detect_gpu] at line 133, whose result only goes into the [info]
    event, is left out together with the [gpu] and [fps] fields of
    that event. *)
Definition process_video (w : world) (input_path output_path : string)
    (regions : list Region.t) (algorithm : string) (inpaint_radius : Z)
    : M state unit :=
  match video_capture w input_path with
  | None =>
      print (Error (String.append "Cannot open video: " input_path)) ;;
      raise (SystemExit 1)
  | Some cap =>
      modify (set_cap_open true) ;;
      let total_frames := declared_frames cap in
      if negb (video_writer_opens w output_path) then
        print (Error (String.append "Cannot create output: " output_path)) ;;
        release_cap ;;
        raise (SystemExit 1)
      else
        modify (fun s => set_fs (<[output_path := encode w []]> (fs s))
                           (set_out_open true s)) ;;
        let frame_shape := (frame_height cap, frame_width cap) in
        let mask := create_mask frame_shape regions in
        print (Info total_frames (frame_width cap) (frame_height cap) algorithm) ;;
        let interval := report_interval total_frames in
        try_finally
          (frame_loop w mask algorithm inpaint_radius total_frames interval
             (decodable cap) 0)
          (release_cap ;; release_out w output_path) ;;
        remux w input_path output_path
  end.

(** The percentages carried by the progress events of a run, in the
    order of emission. *)
Definition progress_values (evs : list event) : list Z :=
  flat_map (fun ev => match ev with
                      | Progress _ _ p => [p]
                      | _ => []
                      end) evs.

(** The progress events of a run, in the order of emission. *)
Definition progress_events (evs : list event) : list event :=
  List.filter (fun ev => match ev with Progress _ _ _ => true | _ => false end) evs.

(** The frame counters carried by the progress events of a run. *)
Definition progress_frames (evs : list event) : list Z :=
  flat_map (fun ev => match ev with
                      | Progress c _ _ => [c]
                      | _ => []
                      end) evs.

(** Does the assignment [mask[y1:y2, x1:x2] = 255] that [create_mask]
    makes for [region] reach row [r], column [c] of a mask of shape
    [frame_shape]? *)
Definition marks (frame_shape : Z * Z) (r c : Z) (region : Region.t) : bool :=
  let x := Region.x region in
  let y := Region.y region in
  let w := Region.width region in
  let h := Region.height region in
  in_slice (Z.of_nat (Z.to_nat (fst frame_shape)))
    (Z.max 0 y) (Z.min (fst frame_shape) (y + h)) r
  && in_slice (Z.of_nat (Z.to_nat (snd frame_shape)))
       (Z.max 0 x) (Z.min (snd frame_shape) (x + w)) c.

(** Lines 202-235, after [parser.parse_args()].  [regions] is what
    [json.loads(args.regions)] gives; it is evaluated after the test on
    the input path.  [os.makedirs] only creates directories, which the
    file system of the model does not hold. *)
Definition main (w : world) (input output : string)
    (regions : result (list Region.t)) (algorithm : string)
    (inpaint_radius : Z) : M state unit :=
  do present <- path_exists fs input;
  if negb present then
    print (Error (String.append "Input file not found: " input)) ;;
    raise (SystemExit 1)
  else
    do regions <- lift regions;
    process_video w input output regions algorithm inpaint_radius.

End InpaintVideo.

(** ** scripts/ai_watermark_remover.py *)

Module AiWatermarkRemover.
Import Py Image Cv2 Float.
Local Open Scope py_scope.

Inductive device := cuda | mps | cpu.

(** ['cuda' if torch.cuda.is_available() else 'mps' if
    torch.backends.mps.is_available() else 'cpu']. *)
Definition select_device (cuda_available mps_available : bool) : device :=
  if cuda_available then cuda else if mps_available then mps else cpu.

(** [device in ('cuda', 'mps')]. *)
Definition accelerated (d : device) : bool :=
  match d with cuda | mps => true | cpu => false end.

(** The float format of the tensors handed to the model and of the
    mask: FP16 after [.half()], FP32 otherwise. *)
Definition device_format (d : device) : format :=
  if accelerated d then binary16 else binary32.

(** A [3 x H x W] float tensor: one plane per channel. *)
Definition tensor : Type := plane * plane * plane.

Definition tensor_map (g : spec_float -> spec_float) (t : tensor) : tensor :=
  let '(c0, c1, c2) := t in (map (map g) c0, map (map g) c1, map (map g) c2).

(** One uint8 channel value as [F.to_tensor] scales it: [v / 255] in
    float32. *)
Definition unit_scale (v : Z) : spec_float :=
  div binary32 (of_int binary32 v) (of_int binary32 255).

(** [F.to_tensor(frame)]: [H x W x 3] uint8 to [3 x H x W] float32 in
    [[0, 1]]. *)
Definition to_tensor (f : frame) : tensor :=
  (map (map (fun p : pixel => unit_scale (fst (fst p)))) f,
   map (map (fun p : pixel => unit_scale (snd (fst p)))) f,
   map (map (fun p : pixel => unit_scale (snd p))) f).

(** [t.half()]. *)
Definition half (t : tensor) : tensor := tensor_map (cast binary16) t.

(** Lines 114-115: a frame as the model receives it. *)
Definition prepare (dev : device) (f : frame) : tensor :=
  let t := to_tensor f in
  if accelerated dev then half t else t.

(** Lines 41-48.  [blur] is [cv2.GaussianBlur(mask, (15, 15), 0)],
    whose result is stored as uint8. *)
Definition create_mask (blur : gray -> gray) (width height : Z)
    (regions : list Region.t) : plane :=
  let mask :=
    fold_left
      (fun mask region =>
         let x := Region.x region in
         let y := Region.y region in
         let w := Region.width region in
         let h := Region.height region in
         rectangle mask x y (x + w) (y + h) 255)
      regions
      (zeros height width) in
  let mask := map (map saturate_uint8) (blur mask) in
  map (map unit_scale) mask.

(** Lines 82-84: the mask moved to the device, in FP16 there. *)
Definition mask_on_device (dev : device) (mask_tensor : plane) : plane :=
  if accelerated dev then map (map (cast binary16)) mask_tensor else mask_tensor.

(** Line 88. *)
Definition batch_size (custom_batch_size : Z) (dev : device) : Z :=
  if 0 <? custom_batch_size then custom_batch_size
  else match dev with cuda => 12 | _ => 4 end.

(** One value of the model's output brought back to a pixel value:
    [.float()], [* 255.0], [np.clip(_, 0, 255)], [.astype(np.uint8)]. *)
Definition restored_value (v : spec_float) : Z :=
  astype_uint8
    (clip (of_int binary32 0) (of_int binary32 255)
       (mul binary32 (cast binary32 v) (of_int binary32 255))).

(** [np.clip(np.transpose(out_batch[i], (1, 2, 0)), 0, 255).astype(np.uint8)]. *)
Definition out_frame (t : tensor) : frame :=
  let '(c0, c1, c2) := t in
  zip_with zip
    (zip_with zip (map (map restored_value) c0) (map (map restored_value) c1))
    (map (map restored_value) c2).

(** One channel of
    [(frames[i] * (1 - m) + out_frame * m).astype(np.uint8)], evaluated
    in the format of [m]. *)
Definition composite_value (fmt : format) (m : spec_float) (f o : Z) : Z :=
  astype_uint8
    (add fmt
       (mul fmt (of_int fmt f) (sub fmt (of_int fmt 1) m))
       (mul fmt (of_int fmt o) m)).

Definition composite_pixel (fmt : format) (m : spec_float) (p q : pixel) : pixel :=
  (composite_value fmt m (fst (fst p)) (fst (fst q)),
   composite_value fmt m (snd (fst p)) (snd (fst q)),
   composite_value fmt m (snd p) (snd q)).

(** The mask [m] has shape [H x W x 1] and is broadcast over the
    channels. *)
Definition composite_frame (fmt : format) (m : plane) (original restored : frame)
    : frame :=
  zip_with
    (fun mrow rows =>
       zip_with (fun mv pq => composite_pixel fmt mv (fst pq) (snd pq))
         mrow (zip (fst rows) (snd rows)))
    m (zip original restored).

Inductive event :=
| Info (dev : device) (batch : Z)
| Progress (progress current_frame total_frames : Z)
| Error (message : string)
| Complete (output : string).

Record world := {
  (** [os.path.exists(input_path)]. *)
  input_exists : string -> bool;
  (** [cv2.VideoCapture(path)]; [None] when [isOpened()] is false. *)
  video_capture : string -> option capture;
  (** [torch.cuda.is_available()]. *)
  cuda_available : bool;
  (** [torch.backends.mps.is_available()]. *)
  mps_available : bool;
  (** [cv2.GaussianBlur(mask, (15, 15), 0)]. *)
  gaussian_blur : gray -> gray;
  (** [model(input_batch, mask_tensor)]: the restoration oracle. *)
  model : list tensor -> plane -> result (list tensor)
}.

(** Line 65: the device of the run. *)
Definition torch_device (w : world) : device :=
  select_device (cuda_available w) (mps_available w).

Record state := {
  cap_open : bool;
  out_open : bool;
  cap : list frame;          (* what [cap.read()] will still deliver *)
  written : list frame;      (* what [out.write] has received *)
  events : list event
}.

Definition initial : state :=
  {| cap_open := false; out_open := false; cap := []; written := [];
     events := [] |}.

Definition print (ev : event) : M state unit :=
  modify (fun s => {| cap_open := cap_open s; out_open := out_open s;
                      cap := cap s; written := written s;
                      events := events s ++ [ev] |}).

(** [out.write(final_frame)]. *)
Definition out_write (fr : frame) : M state unit :=
  modify (fun s => {| cap_open := cap_open s; out_open := out_open s;
                      cap := cap s; written := written s ++ [fr];
                      events := events s |}).

(** [ret, fr = cam.read()]. *)
Definition cam_read : M state (option frame) :=
  fun s => match cap s with
           | [] => (Ok None, s)
           | fr :: rest =>
               (Ok (Some fr),
                {| cap_open := cap_open s; out_open := out_open s;
                   cap := rest; written := written s; events := events s |})
           end.

(** [cv2.VideoCapture(input_path)] and [cv2.VideoWriter(...)] opened
    (the script does not test the writer). *)
Definition open_handles (c : capture) : M state unit :=
  modify (fun s => {| cap_open := true; out_open := true;
                      cap := decodable c; written := written s;
                      events := events s |}).

(** [cap.release(); out.release()]. *)
Definition release_handles : M state unit :=
  modify (fun s => {| cap_open := false; out_open := false;
                      cap := cap s; written := written s;
                      events := events s |}).

Fixpoint read_frames (count : nat) : M state (list frame) :=
  match count with
  | O => ret []
  | S count' =>
      do r <- cam_read;
      match r with
      | None => ret []
      | Some fr => do buffer <- read_frames count'; ret (fr :: buffer)
      end
  end.

Definition report_progress (progress current_frame total_frames : Z)
    : M state unit :=
  print (Progress progress current_frame total_frames).

(** Lines 135-140: composite and write the frames of one batch. *)
Fixpoint write_frames (fmt : format) (m : plane) (frames : list frame)
    (out_batch : list tensor) : M state unit :=
  match frames with
  | [] => ret tt
  | fr :: frames' =>
      match out_batch with
      | [] => raise IndexError
      | t :: out_batch' =>
          out_write (composite_frame fmt m fr (out_frame t)) ;;
          write_frames fmt m frames' out_batch'
      end
  end.

(** One turn of the [while True] loop; [None] is [break], [Some n] the
    new [processed_count]. *)
Definition batch_step (w : world) (dev : device) (mask_tensor : plane)
    (batch_size total_frames processed_count : Z) : M state (option Z) :=
  do frames <- read_frames (Z.to_nat batch_size);
  match frames with
  | [] => ret None
  | _ :: _ =>
      let tensors := map (prepare dev) frames in
      do out_batch <- lift (model w tensors mask_tensor);
      write_frames (device_format dev) mask_tensor frames out_batch ;;
      let processed_count := processed_count + Z.of_nat (length frames) in
      do r <- lift (mod_ processed_count (batch_size * 2));
      (if (r =? 0) || (processed_count =? total_frames)
       then do prog <- lift (round_percent processed_count total_frames);
            report_progress prog processed_count total_frames
       else ret tt) ;;
      ret (Some processed_count)
  end.

(** The [while True] loop, at most [fuel] turns; [None] when the fuel
    runs out before the loop ends. *)
Fixpoint batch_loop (fuel : nat) (w : world) (dev : device) (mask_tensor : plane)
    (batch_size total_frames processed_count : Z) (s : state)
    : option (result unit * state) :=
  match fuel with
  | O => None
  | S fuel' =>
      match batch_step w dev mask_tensor batch_size total_frames processed_count s with
      | (Ok (Some processed_count'), s') =>
          batch_loop fuel' w dev mask_tensor batch_size total_frames
            processed_count' s'
      | (Ok None, s') => Some (Ok tt, s')
      | (Raise e, s') => Some (Raise e, s')
      end
  end.

Definition process_video_optimized (w : world) (input_path output_path : string)
    (regions : list Region.t) (custom_batch_size : Z) (s : state)
    : option (result unit * state) :=
  if negb (input_exists w input_path) then
    Some ((print (Error (String.append "Input not found: " input_path)) ;;
           raise (SystemExit 1)) s)
  else
    let dev := torch_device w in
    match video_capture w input_path with
    | None =>
        Some ((print (Error "Failed to open video") ;; raise (SystemExit 1)) s)
    | Some c =>
        let width := frame_width c in
        let height := frame_height c in
        let total_frames := declared_frames c in
        let mask_tensor :=
          mask_on_device dev
            (create_mask (gaussian_blur w) width height regions) in
        let batch_size := batch_size custom_batch_size dev in
        match (open_handles c ;; print (Info dev batch_size)) s with
        | (Raise e, s1) => Some (Raise e, s1)
        | (Ok _, s1) =>
            match batch_loop (S (length (decodable c))) w dev mask_tensor
                    batch_size total_frames 0 s1 with
            | None => None
            | Some (Raise e, s2) => Some (Raise e, s2)
            | Some (Ok _, s2) =>
                Some ((release_handles ;; print (Complete output_path)) s2)
            end
        end
    end.

(** Lines 167-171, the [try] of the [__main__] block: any [Exception]
    becomes an [error] event (its text, [str(e)], is not modelled) and
    exit code 1. *)
Definition main (w : world) (input_path output_path : string)
    (regions : list Region.t) (custom_batch_size : Z) (s : state)
    : option (result unit * state) :=
  match process_video_optimized w input_path output_path regions
          custom_batch_size s with
  | None => None
  | Some (Raise e, s') =>
      if is_Exception e
      then Some ((print (Error "exception") ;; raise (SystemExit 1)) s')
      else Some (Raise e, s')
  | Some r => Some r
  end.

(** Lines 155-171, the whole [__main__] block once [argparse] has
    accepted the command line.  [regions] is the outcome of
    [json.loads(args.regions)] at line 166, which is evaluated before
    the [try] and so outside it. *)
Definition script (w : world) (input_path output_path : string)
    (regions : result (list Region.t)) (custom_batch_size : Z) (s : state)
    : option (result unit * state) :=
  match regions with
  | Raise e => Some (Raise e, s)
  | Ok regions => main w input_path output_path regions custom_batch_size s
  end.

(** The frames in consecutive groups of [n], the last one possibly
    shorter: what a loop that reads [n] frames per turn takes from the
    decoder, turn by turn. *)
Fixpoint batches_from (fuel n : nat) (frames : list frame) : list (list frame) :=
  match fuel with
  | O => []
  | S fuel' =>
      match firstn n frames with
      | [] => []
      | batch => batch :: batches_from fuel' n (skipn n frames)
      end
  end.

Definition batches (n : nat) (frames : list frame) : list (list frame) :=
  batches_from (length frames) n frames.

(** The world [w] with another model in it. *)
Definition with_model (m : list tensor -> plane -> result (list tensor))
    (w : world) : world :=
  {| input_exists := input_exists w;
     video_capture := video_capture w;
     cuda_available := cuda_available w;
     mps_available := mps_available w;
     gaussian_blur := gaussian_blur w;
     model := m |}.

(** What the pipeline writes for one frame when the model turns the
    frame's tensor [t] into [restore t]. *)
Definition frame_result (dev : device) (mask_tensor : plane)
    (restore : tensor -> tensor) (f : frame) : frame :=
  composite_frame (device_format dev) mask_tensor f
    (out_frame (restore (prepare dev f))).

(** The percentages carried by the progress events of a run, in the
    order of emission. *)
Definition progress_values (evs : list event) : list Z :=
  flat_map (fun ev => match ev with
                      | Progress p _ _ => [p]
                      | _ => []
                      end) evs.

(** The progress events of a run, in the order of emission. *)
Definition progress_events (evs : list event) : list event :=
  List.filter (fun ev => match ev with Progress _ _ _ => true | _ => false end) evs.

(** The frame counters carried by the progress events of a run. *)
Definition progress_frames (evs : list event) : list Z :=
  flat_map (fun ev => match ev with
                      | Progress _ c _ => [c]
                      | _ => []
                      end) evs.

End AiWatermarkRemover.

(** ** scripts/models/model_manager.py *)

Module ModelManager.
Import Py.
Local Open Scope py_scope.

Record model_info := {
  filename : string;
  url : string;
  sha256 : option string;
  size_mb : Z;
  description : string
}.

Definition MODEL_REGISTRY : gmap string model_info :=
  list_to_map
    [("STTN"%string,
      {| filename := "sttn_inpaint.pth";
         url := "https://huggingface.co/hyzhou/STTN/resolve/main/sttn.pth";
         sha256 := None; size_mb := 85;
         description := "STTN - Spatial-Temporal Transformer for video inpainting" |});
     ("LAMA"%string,
      {| filename := "lama_big_lama.pth";
         url := "https://huggingface.co/smartywu/big-lama/resolve/main/big-lama.pt";
         sha256 := None; size_mb := 200;
         description := "LaMa - Large Mask Inpainting with Fourier Convolutions" |});
     ("PROPAINTER"%string,
      {| filename := "propainter.pth";
         url := "https://huggingface.co/camenduru/ProPainter/resolve/main/ProPainter.pth";
         sha256 := None; size_mb := 300;
         description := "ProPainter - Propagation-based video inpainting with dual-domain attention" |})].

(** The [info] and [download_progress] lines that [download_model]
    prints are left out: they cannot fail and nothing reads them. *)

(** A file of the cache, by the two things the script observes of it:
    [os.path.getsize] and the SHA-256 hex digest of its bytes. *)
Record file := { size : Z; hexdigest : string }.

(** What one HTTP request yields.  [chunks] are the lengths of the
    blocks that successive [response.read(block_size)] calls return;
    after them the stream ends ([complete]) or [read] raises.
    [body_digest] is the SHA-256 hex digest of the bytes delivered. *)
Inductive response :=
| Unreachable (why : string)
| Body (content_length : Z) (chunks : list Z) (complete : bool)
       (body_digest : string).

Record world := {
  (** [os.environ.get("WATERMARK_MODEL_DIR", DEFAULT_CACHE_DIR)]. *)
  cache_dir : string;
  (** [os.makedirs(cache_dir, exist_ok=True)] for a non-empty path with
      no file in the way: [None] when the directory is there or is
      made, otherwise the text of the [OSError] the call raises (no
      permission, a read-only medium, ...). *)
  makedirs_error : option string;
  (** What the [n]-th request of the run, to the given URL, yields. *)
  server : nat -> string -> response;
  (** The caller's [on_progress] callback, if any. *)
  on_progress : option (Z -> Z -> result unit);
  (** [None] when [shutil.rmtree] gets through; otherwise the text of
      the [OSError] it stops with and the files it has not removed by
      then. *)
  rmtree_failure : option (string * (string -> bool))
}.

Record state := {
  fs : gmap string file;
  requests : nat             (* HTTP requests issued so far *)
}.

Definition set_fs (f : gmap string file) (s : state) : state :=
  {| fs := f; requests := requests s |}.

(** Does the path end in the separator? *)
Definition ends_with_sep (path : string) : bool :=
  String.eqb (String.substring (String.length path - 1) 1 path) "/".

(** [os.path.join(dir, name)], in POSIX path syntax: an absolute [name]
    stands alone, and no separator is added to an empty [dir] or to one
    that ends in a separator. *)
Definition path_join (dir name : string) : string :=
  if String.prefix "/" name then name
  else if String.eqb dir "" || ends_with_sep dir then String.append dir name
  else String.append dir (String.append "/" name).

(** Lines 42-46.  [os.makedirs] raises [FileNotFoundError] for the
    empty path and [FileExistsError] when a file sits at the path;
    otherwise it makes the directory if it is missing, which the file
    system of the model does not show, or fails as [makedirs_error]
    says. *)
Definition get_cache_dir (w : world) : M state string :=
  fun s =>
    if String.eqb (cache_dir w) "" then (Raise (FileNotFoundError ""), s)
    else
      match fs s !! cache_dir w with
      | Some _ => (Raise (FileExistsError (cache_dir w)), s)
      | None =>
          match makedirs_error w with
          | None => (Ok (cache_dir w), s)
          | Some why => (Raise (OSError why), s)
          end
      end.

(** The text of the [ValueError] is shortened: the list of the
    available algorithms is left out. *)
Definition get_model_path (w : world) (algorithm : string) : M state string :=
  match MODEL_REGISTRY !! algorithm with
  | None => raise (ValueError (String.append "Unknown algorithm: " algorithm))
  | Some info =>
      do cache_dir <- get_cache_dir w;
      ret (path_join cache_dir (filename info))
  end.

(** One mebibyte, [1024 * 1024]. *)
Definition MiB : Z := 1024 * 1024.

Definition is_model_downloaded (w : world) (algorithm : string) : M state bool :=
  do model_path <- get_model_path w algorithm;
  fun s => match fs s !! model_path with
           | None => (Ok false, s)
           | Some f => (Ok (MiB <? size f), s)
           end.

(** [urllib.request.urlopen(req, timeout=300)]: one request goes out. *)
Definition urlopen (w : world) (u : string) : M state response :=
  fun s =>
    let s' := {| fs := fs s; requests := S (requests s) |} in
    match server w (requests s) u with
    | Unreachable why => (Raise (ExternalError why), s')
    | r => (Ok r, s')
    end.

(** [f.write(chunk)] on the file open at [path]. *)
Definition write_chunk (path : string) (n : Z) : M state unit :=
  modify (fun s => set_fs (alter (fun f => {| size := size f + n;
                                              hexdigest := hexdigest f |})
                             path (fs s)) s).

(** The [while True] loop reading the response into the temporary file. *)
Fixpoint read_loop (w : world) (temp_path : string) (total_size : Z)
    (chunks : list Z) (complete : bool) (downloaded : Z) : M state unit :=
  match chunks with
  | [] => if complete then ret tt
          else raise (ExternalError "read failed")
  | n :: rest =>
      if n <=? 0 then ret tt               (* [if not chunk: break] *)
      else
        write_chunk temp_path n ;;
        let downloaded := downloaded + n in
        match on_progress w with
        | Some callback => lift (callback downloaded total_size)
        | None => ret tt
        end ;;
        read_loop w temp_path total_size rest complete downloaded
  end.

Definition os_remove (path : string) : M state unit :=
  Os.remove fs set_fs path.

(** Lines 63-136.  The texts of the exceptions are shortened: what the
    f-strings put into them (the algorithm, the size, the text of the
    cause) is left out. *)
Definition download_model (w : world) (algorithm : string) : M state string :=
  match MODEL_REGISTRY !! algorithm with
  | None => raise (ValueError (String.append "Unknown algorithm: " algorithm))
  | Some info =>
      do model_path <- get_model_path w algorithm;
      let temp_path := String.append model_path ".tmp" in
      do cached <- is_model_downloaded w algorithm;
      if cached then ret model_path
      else
        try_except
          (do resp <- urlopen w (url info);
           match resp with
           | Unreachable why => raise (ExternalError why)
           | Body total_size chunks complete digest =>
               (* [open(temp_path, "wb")] *)
               modify (fun s => set_fs (<[temp_path := {| size := 0; hexdigest := digest |}]>
                                          (fs s)) s) ;;
               read_loop w temp_path total_size chunks complete 0 ;;
               do file_size <-
                 (fun s => match fs s !! temp_path with
                           | Some f => (Ok (size f), s)
                           | None => (Raise (FileNotFoundError temp_path), s)
                           end);
               if file_size <? MiB then
                 os_remove temp_path ;;
                 raise (RuntimeError "Downloaded file too small, likely corrupted")
               else
                 (match sha256 info with
                  | Some expected =>
                      do actual <-
                        (fun s => match fs s !! temp_path with
                                  | Some f => (Ok (hexdigest f), s)
                                  | None => (Raise (FileNotFoundError temp_path), s)
                                  end);
                      if negb (String.eqb actual expected) then
                        os_remove temp_path ;;
                        raise (RuntimeError "SHA256 mismatch")
                      else ret tt
                  | None => ret tt
                  end) ;;
                 (* [shutil.move(temp_path, model_path)] *)
                 Os.move fs set_fs temp_path model_path ;;
                 ret model_path
           end)
          (fun e =>
             do present <- Os.path_exists fs temp_path;
             (if present then os_remove temp_path else ret tt) ;;
             raise (RuntimeError "Failed to download model"))
  end.

(** [MODEL_REGISTRY.items()], in the order of the dictionary literal. *)
Definition MODEL_REGISTRY_items : list (string * model_info) :=
  [("STTN"%string,
    {| filename := "sttn_inpaint.pth";
       url := "https://huggingface.co/hyzhou/STTN/resolve/main/sttn.pth";
       sha256 := None; size_mb := 85;
       description := "STTN - Spatial-Temporal Transformer for video inpainting" |});
   ("LAMA"%string,
    {| filename := "lama_big_lama.pth";
       url := "https://huggingface.co/smartywu/big-lama/resolve/main/big-lama.pt";
       sha256 := None; size_mb := 200;
       description := "LaMa - Large Mask Inpainting with Fourier Convolutions" |});
   ("PROPAINTER"%string,
    {| filename := "propainter.pth";
       url := "https://huggingface.co/camenduru/ProPainter/resolve/main/ProPainter.pth";
       sha256 := None; size_mb := 300;
       description := "ProPainter - Propagation-based video inpainting with dual-domain attention" |})].

(** One entry of the dictionary [get_all_model_status] returns. *)
Module Status.
Record t := {
  downloaded : bool;
  size_mb : Z;
  description : string;
  path : option string
}.
End Status.

(** The [for algo, info in MODEL_REGISTRY.items()] loop of
    [get_all_model_status]. *)
Fixpoint status_loop (w : world) (items : list (string * model_info))
    (status : gmap string Status.t) : M state (gmap string Status.t) :=
  match items with
  | [] => ret status
  | (algo, info) :: rest =>
      do model_path <- get_model_path w algo;
      do downloaded <- is_model_downloaded w algo;
      status_loop w rest
        (<[algo := {| Status.downloaded := downloaded;
                      Status.size_mb := size_mb info;
                      Status.description := description info;
                      Status.path := if downloaded then Some model_path else None |}]>
           status)
  end.

Definition get_all_model_status (w : world) : M state (gmap string Status.t) :=
  status_loop w MODEL_REGISTRY_items ∅.

(** The file at [path] lies under the directory [dir]: [path] goes on
    from [dir] and a separator. *)
Definition under (dir path : string) : bool :=
  String.prefix (if ends_with_sep dir then dir else String.append dir "/") path.

(** [shutil.rmtree(dir)]: every file under the directory goes; when
    the call fails, those it had already removed are gone. *)
Definition rmtree (w : world) (dir : string) : M state unit :=
  fun s =>
    match rmtree_failure w with
    | None =>
        (Ok tt,
         set_fs (filter (fun entry => under dir (fst entry) = false) (fs s)) s)
    | Some (why, kept) =>
        (Raise (OSError why),
         set_fs (filter (fun entry =>
                           negb (under dir (fst entry)) || kept (fst entry) = true)
                   (fs s)) s)
    end.

(** Lines 154-159.  [get_cache_dir()] has just made sure that the
    directory exists, so the test [os.path.exists(cache_dir)] holds and
    [shutil.rmtree] runs.  The line it prints is left out. *)
Definition cleanup_models (w : world) : M state unit :=
  do cache_dir <- get_cache_dir w;
  rmtree w cache_dir.

End ModelManager.

(** ** The compositor as the specification words it *)

Module Spec.
Import Py.

(** [original * (1 - mask) + restored * mask] for the mask value
    [k / 255], computed exactly, clamped to the valid pixel range and
    rounded to the nearest integer. *)
Definition composite_value (k original restored : Z) : Z :=
  Z.max 0 (Z.min 255
    (round_half_even (original * (255 - k) + restored * k) 255)).

End Spec.

(** ** Small concrete inputs *)

Module Examples.
Import Py Image Cv2 Os.

(** A video of [n] decodable frames of one pixel each, all three
    channels [v], whose container declares [declared] frames. *)
Definition video (declared : Z) (n : nat) (v : Z) : capture :=
  {| declared_frames := declared; frame_width := 1; frame_height := 1;
     decodable := replicate n [[(v, v, v)]] |}.

(** The region that is exactly that pixel. *)
Definition whole_pixel : Region.t :=
  {| Region.x := 0; Region.y := 0; Region.width := 1; Region.height := 1 |}.

(** A world for [ai_watermark_remover.py]: the input exists and decodes
    to [c]; torch selects the device [dev]; the blur leaves the canvas
    as it is (as a Gaussian blur leaves a constant image); the model is
    [m]. *)
Definition ai_world (dev : AiWatermarkRemover.device) (c : capture)
    (m : list AiWatermarkRemover.tensor -> plane
         -> result (list AiWatermarkRemover.tensor))
    : AiWatermarkRemover.world :=
  {| AiWatermarkRemover.input_exists := fun _ => true;
     AiWatermarkRemover.video_capture := fun _ => Some c;
     AiWatermarkRemover.cuda_available :=
       match dev with AiWatermarkRemover.cuda => true | _ => false end;
     AiWatermarkRemover.mps_available :=
       match dev with AiWatermarkRemover.mps => true | _ => false end;
     AiWatermarkRemover.gaussian_blur := fun canvas => canvas;
     AiWatermarkRemover.model := m |}.

(** The model that returns its input batch unchanged. *)
Definition identity_model (batch : list AiWatermarkRemover.tensor) (_ : plane)
    : result (list AiWatermarkRemover.tensor) :=
  Ok batch.

(** A model that fails on every batch. *)
Definition failing_model (_ : list AiWatermarkRemover.tensor) (_ : plane)
    : result (list AiWatermarkRemover.tensor) :=
  Raise (ExternalError "out of memory").

(** A world for [inpaint_video.py] on a POSIX host: the input decodes to
    [c], the writer opens, inpainting returns the frame as it is, every
    ffmpeg invocation ends as [outcome] and produces [produced]. *)
Definition inpaint_world (c : capture) (outcome : proc_outcome)
    (produced : option bytes) : InpaintVideo.world :=
  {| InpaintVideo.video_capture := fun _ => Some c;
     InpaintVideo.video_writer_opens := fun _ => true;
     InpaintVideo.encode := fun frames => replicate (length frames) Byte.x2a;
     InpaintVideo.cv2_inpaint := fun fr _ _ _ => Ok fr;
     InpaintVideo.ffmpeg := fun _ _ => (outcome, produced);
     InpaintVideo.host := Posix |}.

(** The same on a Windows host. *)
Definition inpaint_world_on_windows (c : capture) (outcome : proc_outcome)
    (produced : option bytes) : InpaintVideo.world :=
  {| InpaintVideo.video_capture := fun _ => Some c;
     InpaintVideo.video_writer_opens := fun _ => true;
     InpaintVideo.encode := fun frames => replicate (length frames) Byte.x2a;
     InpaintVideo.cv2_inpaint := fun fr _ _ _ => Ok fr;
     InpaintVideo.ffmpeg := fun _ _ => (outcome, produced);
     InpaintVideo.host := Windows |}.

(** A world for [model_manager.py]: the cache directory is [/cache] and
    can be made, every request is answered by [r], the caller gave no
    callback, [shutil.rmtree] gets through. *)
Definition server_world (r : ModelManager.response) : ModelManager.world :=
  {| ModelManager.cache_dir := "/cache";
     ModelManager.makedirs_error := None;
     ModelManager.server := fun _ _ => r;
     ModelManager.on_progress := None;
     ModelManager.rmtree_failure := None |}.

(** An empty cache before any request. *)
Definition empty_cache : ModelManager.state :=
  {| ModelManager.fs := ∅; ModelManager.requests := 0 |}.

End Examples.

(* ===================================================================== *)
(** * Part II: theorems                                                   *)
(* ===================================================================== *)
(** ** The Python monad: how the combinators compute *)

Module PyFacts.
Import Py.

Lemma bind_ok {S A B} (m : M S A) (k : A -> M S B) s a s' :
  m s = (Ok a, s') -> bind m k s = k a s'.
Proof. intros H. unfold bind. now rewrite H. Qed.

Lemma bind_raise {S A B} (m : M S A) (k : A -> M S B) s e s' :
  m s = (Raise e, s') -> bind m k s = (Raise e, s').
Proof. intros H. unfold bind. now rewrite H. Qed.

(** How a relation between the state before and the state after
    propagates through the combinators. *)
Lemma bind_rel {S A B} (R1 R2 R3 : S -> S -> Prop) (m : M S A) (k : A -> M S B) :
  (forall s, R1 s (snd (m s))) ->
  (forall a s, R2 s (snd (k a s))) ->
  (forall s1 s2, R1 s1 s2 -> R3 s1 s2) ->
  (forall s1 s2 s3, R1 s1 s2 -> R2 s2 s3 -> R3 s1 s3) ->
  forall s, R3 s (snd (bind m k s)).
Proof.
  intros Hm Hk Hstop Hcomp s. unfold bind.
  specialize (Hm s). destruct (m s) as [[a | e] s']; cbn in *.
  - eapply Hcomp; [exact Hm | apply Hk].
  - now apply Hstop.
Qed.

Lemma bind_keeps {S A B} (R : S -> S -> Prop) (m : M S A) (k : A -> M S B) :
  (forall s1 s2 s3, R s1 s2 -> R s2 s3 -> R s1 s3) ->
  (forall s, R s (snd (m s))) ->
  (forall a s, R s (snd (k a s))) ->
  forall s, R s (snd (bind m k s)).
Proof. intros Ht Hm Hk. apply (bind_rel R R R); auto. Qed.

Lemma try_except_keeps {S A} (R : S -> S -> Prop) (body : M S A) (handler : exn -> M S A) :
  (forall s1 s2 s3, R s1 s2 -> R s2 s3 -> R s1 s3) ->
  (forall s, R s (snd (body s))) ->
  (forall e s, R s (snd (handler e s))) ->
  forall s, R s (snd (try_except body handler s)).
Proof.
  intros Ht Hb Hh s. unfold try_except.
  specialize (Hb s). destruct (body s) as [[a | e] s']; cbn in *; [assumption |].
  destruct (is_Exception e); cbn; [| assumption].
  eapply Ht; [exact Hb | apply Hh].
Qed.

Lemma bind_ok_inv {S A B} (m : M S A) (k : A -> M S B) s b s' :
  bind m k s = (Ok b, s') ->
  exists a s1, m s = (Ok a, s1) /\ k a s1 = (Ok b, s').
Proof.
  unfold bind. destruct (m s) as [[a | e] s1]; [eauto | discriminate].
Qed.

Lemma mod_positive a b : 0 < b -> mod_ a b = Ok (a mod b).
Proof. intros H. unfold mod_. destruct (Z.eqb_spec b 0); [lia | reflexivity]. Qed.

(** Rounding to the nearest integer does not decrease when the numerator
    grows. *)
Lemma round_half_even_mono n1 n2 d :
  0 < d -> n1 <= n2 -> round_half_even n1 d <= round_half_even n2 d.
Proof.
  intros Hd Hn.
  assert (Hq : n1 / d <= n2 / d) by (apply Z.div_le_mono; lia).
  pose proof (Z.mod_pos_bound n1 d Hd) as Hr1.
  pose proof (Z.mod_pos_bound n2 d Hd) as Hr2.
  pose proof (Z.div_mod n1 d ltac:(lia)) as E1.
  pose proof (Z.div_mod n2 d ltac:(lia)) as E2.
  unfold round_half_even.
  destruct (Z.eq_dec (n1 / d) (n2 / d)) as [Heq | Hne].
  - rewrite <- Heq in *.
    assert (n1 mod d <= n2 mod d) by lia.
    repeat match goal with
           | |- context [?a <? ?b] => destruct (Z.ltb_spec a b)
           | |- context [Z.even ?a] => destruct (Z.even a)
           end; lia.
  - assert (n1 / d + 1 <= n2 / d) by lia.
    repeat match goal with
           | |- context [?a <? ?b] => destruct (Z.ltb_spec a b)
           | |- context [Z.even ?a] => destruct (Z.even a)
           end; lia.
Qed.

Lemma round_half_even_exact q d : 0 < d -> round_half_even (q * d) d = q.
Proof.
  intros Hd. unfold round_half_even.
  rewrite Z.div_mul by lia. rewrite Z.mod_mul by lia.
  destruct (Z.ltb_spec (2 * 0) d); [reflexivity | lia].
Qed.

Lemma round_percent_positive a b :
  0 < b -> round_percent a b = Ok (round_half_even (100 * a) b).
Proof.
  intros H. unfold round_percent.
  destruct (Z.eqb_spec b 0); [lia |].
  destruct (Z.ltb_spec 0 b); [reflexivity | lia].
Qed.

Lemma round_percent_full b : 0 < b -> round_percent b b = Ok 100.
Proof.
  intros H. rewrite round_percent_positive by assumption.
  now rewrite round_half_even_exact.
Qed.

End PyFacts.

(** ** Paths *)

Module PathFacts.

Lemma length_append (a b : string) :
  String.length (String.append a b) = (String.length a + String.length b)%nat.
Proof. induction a as [| c a IH]; simpl; [reflexivity | now rewrite IH]. Qed.

(** A path with a non-empty suffix added is another path. *)
Lemma append_neq (a b : string) : b <> ""%string -> String.append a b <> a.
Proof.
  intros Hb Heq.
  assert (H : String.length (String.append a b) = String.length a) by now rewrite Heq.
  rewrite length_append in H.
  destruct b; [congruence | simpl in H; lia].
Qed.

End PathFacts.

(** ** inpaint_video.py: encoder probing (C4) *)

Module ProbeFacts.
Import Py Os InpaintVideo.

(** One probe never raises past its [except], leaves the state alone and
    reports exactly whether the smoke-encode exited with code 0. *)
Lemma probe_once (ffmpeg : ffmpeg_t) (name : string) (cmd : list string) (s : state) :
  try_except
    (bind (run_ffmpeg fs set_fs ffmpeg (["-hide_banner"; "-y"]%string ++ cmd) None)
          (fun returncode => ret (returncode =? 0)))
    (fun _ => ret false) s
  = (Ok (probe_succeeds ffmpeg (fs s) (name, cmd)), s).
Proof.
  unfold try_except, bind, run_ffmpeg, probe_succeeds, ret. simpl.
  destruct (ffmpeg _ (fs s)) as [[rc | why] produced]; reflexivity.
Qed.

(** What the probe loop returns on any candidate list: the first
    candidate whose probe succeeds, or the software encoder. *)
Lemma probe_loop_first_success (ffmpeg : ffmpeg_t)
    (candidates : list (string * list string)) (s : state) :
  exists chosen,
    probe_loop ffmpeg candidates s = (Ok chosen, s) /\
    ((exists before cmd after,
         candidates = before ++ (chosen, cmd) :: after /\
         probe_succeeds ffmpeg (fs s) (chosen, cmd) = true /\
         Forall (fun c => probe_succeeds ffmpeg (fs s) c = false) before)
     \/ (Forall (fun c => probe_succeeds ffmpeg (fs s) c = false) candidates /\
         chosen = "libx264"%string)).
Proof.
  induction candidates as [| [name cmd] rest IH].
  - exists "libx264"%string. split; [reflexivity |].
    right. split; [constructor | reflexivity].
  - cbn [probe_loop]. unfold bind at 1. rewrite (probe_once ffmpeg name cmd s).
    destruct (probe_succeeds ffmpeg (fs s) (name, cmd)) eqn:Hp.
    + exists name. split; [reflexivity |].
      left. exists [], cmd, rest. repeat split; [assumption | constructor].
    + destruct IH as (chosen & Hrun & IH).
      exists chosen. split; [exact Hrun |].
      destruct IH as [(before & cmd' & after & -> & Hok & Hall) | [Hall ->]].
      * left. exists ((name, cmd) :: before), cmd', after.
        repeat split; [assumption | now constructor].
      * right. split; [now constructor | reflexivity].
Qed.

(** C4.  Whatever the probes do (exit with any code, raise, time out),
    [detect_hw_encoder] returns without raising and without touching the
    state, and what it returns is the first encoder of the priority list
    whose smoke-encode exits with code 0, or "libx264" when no
    smoke-encode does. *)
Theorem detect_hw_encoder_total (ffmpeg : ffmpeg_t) (s : state) :
  exists chosen,
    detect_hw_encoder ffmpeg s = (Ok chosen, s) /\
    ((exists before cmd after,
         encoders = before ++ (chosen, cmd) :: after /\
         probe_succeeds ffmpeg (fs s) (chosen, cmd) = true /\
         Forall (fun c => probe_succeeds ffmpeg (fs s) c = false) before)
     \/ (Forall (fun c => probe_succeeds ffmpeg (fs s) c = false) encoders /\
         chosen = "libx264"%string)).
Proof. apply probe_loop_first_success. Qed.

End ProbeFacts.

(** ** inpaint_video.py: remux and fallback *)

Module RemuxFacts.
Import Py Os InpaintVideo.

Lemma temp_output_fresh (output_path : string) :
  String.append output_path ".temp.mp4" <> output_path.
Proof. apply PathFacts.append_neq. discriminate. Qed.

(** On a POSIX host, start the remux stage with the video-only file at
    [output_path].  The stage ends normally; afterwards the temporary
    file is gone; when the remux subprocess exits with code 0 the output
    path holds what it produced, and when it exits non-zero or raises,
    the output path holds the video-only file, byte for byte. *)
Lemma remux_finalizes (w : world) (input_path output_path : string)
    (s : state) (video_only : bytes) :
  host w = Posix ->
  fs s !! output_path = Some video_only ->
  let temp_output := String.append output_path ".temp.mp4" in
  let files := <[temp_output := video_only]> (delete output_path (fs s)) in
  exists hw_encoder s',
    detect_hw_encoder (ffmpeg w) (set_fs files s) = (Ok hw_encoder, set_fs files s) /\
    remux w input_path output_path s = (Ok tt, s') /\
    events s' = events s ++ [Complete output_path] /\
    fs s' !! temp_output = None /\
    match ffmpeg w (remux_command (build_encoder_args hw_encoder)
                      temp_output input_path output_path) files with
    | (Exited 0, merged) => fs s' !! output_path = merged
    | (_, _) => fs s' !! output_path = Some video_only
    end.
Proof.
  intros Hhost Hout temp_output files.
  pose proof (temp_output_fresh output_path) as Hfresh.
  fold temp_output in Hfresh.
  destruct (ProbeFacts.probe_loop_first_success (ffmpeg w) encoders (set_fs files s))
    as (hw_encoder & Hdetect & _).
  change (probe_loop (ffmpeg w) encoders) with (detect_hw_encoder (ffmpeg w)) in Hdetect.
  exists hw_encoder.
  unfold remux. fold temp_output.
  unfold bind at 1. unfold rename at 1. rewrite Hout, Hhost. fold files.
  unfold bind at 1. rewrite Hdetect.
  unfold bind at 1. unfold try_except.
  unfold bind at 1. unfold run_ffmpeg. cbn [fs set_fs].
  destruct (ffmpeg w _ files) as [[rc | why] merged] eqn:Hff.
  - (* the subprocess exited *)
    destruct (Z.eqb_spec rc 0) as [-> | Hrc]; cbn [negb].
    + (* success: the temporary file is removed *)
      unfold remove. cbn [fs set_fs].
      assert (Htmp : is_Some ((match merged with
                               | Some v => set_fs (<[output_path := v]> files) (set_fs files s)
                               | None => set_fs files s
                               end).(fs) !! temp_output)).
      { destruct merged; cbn [fs set_fs]; subst files;
          [rewrite lookup_insert_ne by congruence |]; rewrite lookup_insert_eq; eauto. }
      destruct Htmp as [v Hv]. rewrite Hv.
      eexists. split; [reflexivity |]. split; [reflexivity |].
      unfold print, modify. cbn [fs set_fs events set_events].
      split; [destruct merged; reflexivity |].
      split; [apply lookup_delete_eq |].
      rewrite lookup_delete_ne by assumption.
      destruct merged; cbn [fs set_fs]; subst files.
      * apply lookup_insert_eq.
      * rewrite lookup_insert_ne by assumption. apply lookup_delete_eq.
    + (* non-zero exit: the temporary file is renamed back *)
      unfold rename.
      assert (Htmp : (match merged with
                      | Some v => set_fs (<[output_path := v]> files) (set_fs files s)
                      | None => set_fs files s
                      end).(fs) !! temp_output = Some video_only).
      { destruct merged; cbn [fs set_fs]; subst files;
          [rewrite lookup_insert_ne by congruence |]; apply lookup_insert_eq. }
      rewrite Htmp.
      eexists. split; [reflexivity |]. split; [reflexivity |].
      unfold print, modify. cbn [fs set_fs events set_events].
      split; [destruct merged; reflexivity |].
      split.
      * rewrite lookup_insert_ne by congruence. apply lookup_delete_eq.
      * assert (Hcase : match rc with 0 => False | _ => True end)
          by (destruct rc; [contradiction | exact I | exact I]).
        destruct rc; [contradiction | |]; apply lookup_insert_eq.
  - (* the call raised: the handler finds the temporary file and renames it *)
    cbn [is_Exception]. unfold bind at 1. unfold path_exists.
    assert (Htmp : (match merged with
                    | Some v => set_fs (<[output_path := v]> files) (set_fs files s)
                    | None => set_fs files s
                    end).(fs) !! temp_output = Some video_only).
    { destruct merged; cbn [fs set_fs]; subst files;
        [rewrite lookup_insert_ne by congruence |]; apply lookup_insert_eq. }
    rewrite bool_decide_eq_true_2 by (rewrite Htmp; eauto).
    unfold rename. rewrite Htmp.
    eexists. split; [reflexivity |]. split; [reflexivity |].
    unfold print, modify. cbn [fs set_fs events set_events].
    split; [destruct merged; reflexivity |].
    split.
    + rewrite lookup_insert_ne by congruence. apply lookup_delete_eq.
    + apply lookup_insert_eq.
Qed.

(** The lemma applies: the remux exits with code 1 and the video-only
    file is promoted. *)
Lemma remux_finalizes_witness :
  let w := Examples.inpaint_world (Examples.video 1 1 7) (Exited 1) None in
  let s := initial (<["out.mp4"%string := [Byte.x2a]]> ∅) in
  fs s !! "out.mp4"%string = Some [Byte.x2a] /\
  exists s',
    remux w "in.mp4" "out.mp4" s = (Ok tt, s') /\
    fs s' !! "out.mp4"%string = Some [Byte.x2a] /\
    fs s' !! "out.mp4.temp.mp4"%string = None.
Proof.
  intros w s.
  assert (Hout : fs s !! "out.mp4"%string = Some [Byte.x2a])
    by apply lookup_insert_eq.
  split; [exact Hout |].
  destruct (remux_finalizes w "in.mp4" "out.mp4" s [Byte.x2a] eq_refl Hout)
    as (hw_encoder & s' & _ & Hrun & _ & Htemp & Hfinal).
  exists s'. split; [exact Hrun |]. split; [exact Hfinal | exact Htemp].
Defined.

(** C3 fails on a Windows host.  The input has one frame, so the
    video-only file is one byte ([encode] of one frame); every ffmpeg
    call exits with code 1, and the remux call has by then written a
    file of its own at the output path.  The fallback at line 192
    renames the temporary file onto the output path, which exists:
    [os.rename] raises [FileExistsError]; the handler at line 197 tries
    the same and raises again.  The run ends with that exception, the
    output path holds what ffmpeg left, not the video-only file, and
    the temporary file is still there. *)
Theorem remux_fallback_fails_on_windows :
  let w := Examples.inpaint_world_on_windows (Examples.video 1 1 7)
             (Exited 1) (Some [Byte.x00]) in
  exists s',
    process_video w "in.mp4" "out.mp4" [] "TELEA" 3 (initial ∅)
    = (Raise (FileExistsError "out.mp4"), s') /\
    encode w (written s') = [Byte.x2a] /\
    fs s' !! "out.mp4"%string = Some [Byte.x00] /\
    fs s' !! "out.mp4.temp.mp4"%string = Some [Byte.x2a] /\
    Forall (fun ev => match ev with Complete _ => False | _ => True end)
      (events s').
Proof.
  intros w.
  destruct (process_video w "in.mp4" "out.mp4" [] "TELEA" 3 (initial ∅))
    as [r s'] eqn:Hrun.
  vm_compute in Hrun. injection Hrun as <- <-.
  eexists. split; [reflexivity |].
  split; [reflexivity |]. split; [vm_compute; reflexivity |].
  split; [vm_compute; reflexivity |]. repeat constructor.
Qed.

(** The same run on a POSIX host ends normally with the video-only
    file at the output path and no temporary file. *)
Lemma remux_fallback_on_posix :
  let w := Examples.inpaint_world (Examples.video 1 1 7)
             (Exited 1) (Some [Byte.x00]) in
  exists s',
    process_video w "in.mp4" "out.mp4" [] "TELEA" 3 (initial ∅) = (Ok tt, s') /\
    fs s' !! "out.mp4"%string = Some [Byte.x2a] /\
    fs s' !! "out.mp4.temp.mp4"%string = None.
Proof.
  intros w.
  destruct (process_video w "in.mp4" "out.mp4" [] "TELEA" 3 (initial ∅))
    as [r s'] eqn:Hrun.
  vm_compute in Hrun. injection Hrun as <- <-.
  eexists. split; [reflexivity |].
  split; vm_compute; reflexivity.
Qed.

End RemuxFacts.

(** ** inpaint_video.py: the frame loop and its telemetry (C2, C10) *)

Module FrameLoopFacts.
Import Py Os Cv2 InpaintVideo.

(** The percentage [print_progress] computes. *)
Lemma print_progress_ok (current_frame total_frames : Z) (s : state) :
  exists p,
    print_progress current_frame total_frames s
      = (Ok tt, set_events (events s ++ [Progress current_frame total_frames p]) s) /\
    p = (if 0 <? total_frames
         then round_half_even (100 * current_frame) total_frames else 0).
Proof.
  unfold print_progress, bind, lift, print, modify.
  destruct (Z.ltb_spec 0 total_frames) as [Hpos | Hneg].
  - rewrite PyFacts.round_percent_positive by assumption.
    eexists. split; reflexivity.
  - eexists. split; reflexivity.
Qed.

Lemma report_interval_positive (total_frames : Z) : 1 <= report_interval total_frames.
Proof. unfold report_interval. lia. Qed.

(** The percentage as a function of the frame counter is monotone. *)
Lemma percentage_mono (total_frames c1 c2 : Z) :
  c1 <= c2 ->
  (if 0 <? total_frames then round_half_even (100 * c1) total_frames else 0)
  <= (if 0 <? total_frames then round_half_even (100 * c2) total_frames else 0).
Proof.
  intros Hc. destruct (Z.ltb_spec 0 total_frames); [| lia].
  apply PyFacts.round_half_even_mono; lia.
Qed.

Lemma progress_values_app (a b : list event) :
  progress_values (a ++ b) = progress_values a ++ progress_values b.
Proof. unfold progress_values. apply flat_map_app. Qed.

(** The loop touches neither the handles nor the files; the progress
    percentages it adds are sorted and none is below the percentage of
    the counter it started from. *)
Lemma frame_loop_effect (w : world) (mask : Image.gray) (algorithm : string)
    (inpaint_radius total_frames interval : Z) (cap : list Image.frame) :
  0 < interval ->
  forall (current_frame : Z) (s : state),
  exists r s' added,
    frame_loop w mask algorithm inpaint_radius total_frames interval
      cap current_frame s = (r, s') /\
    cap_open s' = cap_open s /\ out_open s' = out_open s /\ fs s' = fs s /\
    events s' = events s ++ added /\
    Sorted Z.le (progress_values added) /\
    Forall (fun p =>
              (if 0 <? total_frames
               then round_half_even (100 * current_frame) total_frames else 0) <= p)
           (progress_values added).
Proof.
  intros Hint. induction cap as [| frame cap' IH]; intros current_frame s.
  - exists (Ok tt), s, []. cbn. rewrite app_nil_r.
    repeat split; constructor.
  - cbn [frame_loop]. unfold bind at 1, lift.
    destruct (inpaint_frame w frame mask algorithm inpaint_radius) as [repaired | e].
    2:{ exists (Raise e), s, []. rewrite app_nil_r. repeat split; constructor. }
    unfold bind at 1, modify.
    unfold bind at 1. rewrite PyFacts.mod_positive by assumption.
    set (s1 := set_written (written s ++ [repaired]) s).
    unfold bind at 1.
    destruct (((current_frame + 1) mod interval =? 0)
              || (current_frame + 1 =? total_frames)).
    + destruct (print_progress_ok (current_frame + 1) total_frames s1)
        as (p & Hprint & Hp).
      rewrite Hprint.
      destruct (IH (current_frame + 1)
                   (set_events (events s1 ++ [Progress (current_frame + 1) total_frames p]) s1))
        as (r & s' & added & Hrun & Hc & Ho & Hf & Hev & Hsorted & Hlow).
      exists r, s', (Progress (current_frame + 1) total_frames p :: added).
      split; [exact Hrun |].
      split; [rewrite Hc; reflexivity |].
      split; [rewrite Ho; reflexivity |].
      split; [rewrite Hf; reflexivity |].
      split; [rewrite Hev; cbn; now rewrite <- app_assoc |].
      cbn [progress_values flat_map app]. fold (progress_values added).
      split.
      * constructor; [exact Hsorted |].
        destruct (progress_values added) as [| q qs]; constructor.
        inversion Hlow; subst. assumption.
      * constructor.
        -- subst p. apply percentage_mono. lia.
        -- eapply Forall_impl; [exact Hlow |]. cbn. intros q Hq.
           etransitivity; [| exact Hq]. apply percentage_mono. lia.
    + unfold ret at 1.
      destruct (IH (current_frame + 1) s1)
        as (r & s' & added & Hrun & Hc & Ho & Hf & Hev & Hsorted & Hlow).
      exists r, s', added.
      split; [exact Hrun |].
      split; [rewrite Hc; reflexivity |].
      split; [rewrite Ho; reflexivity |].
      split; [rewrite Hf; reflexivity |].
      split; [rewrite Hev; reflexivity |].
      split; [exact Hsorted |].
      eapply Forall_impl; [exact Hlow |]. cbn. intros q Hq.
      etransitivity; [| exact Hq]. apply percentage_mono. lia.
Qed.

(** When every frame is restored and the container declared exactly the
    number of frames that decode, the loop ends normally and the last
    event it prints is the 100% one. *)
Lemma frame_loop_final (w : world) (mask : Image.gray) (algorithm : string)
    (inpaint_radius total_frames interval : Z) (cap : list Image.frame) :
  0 < interval ->
  (forall frame, In frame cap ->
     exists repaired,
       inpaint_frame w frame mask algorithm inpaint_radius = Ok repaired) ->
  forall (current_frame : Z) (s : state),
  cap <> [] ->
  current_frame + Z.of_nat (length cap) = total_frames ->
  0 <= current_frame ->
  exists s' earlier,
    frame_loop w mask algorithm inpaint_radius total_frames interval
      cap current_frame s = (Ok tt, s') /\
    events s' = events s ++ earlier ++ [Progress total_frames total_frames 100].
Proof.
  intros Hint. induction cap as [| frame cap' IH]; intros Hok current_frame s Hne Hlen Hcur.
  - contradiction.
  - cbn [frame_loop]. unfold bind at 1, lift.
    destruct (Hok frame (or_introl eq_refl)) as (repaired & ->).
    unfold bind at 1, modify.
    unfold bind at 1. rewrite PyFacts.mod_positive by assumption.
    set (s1 := set_written (written s ++ [repaired]) s).
    unfold bind at 1.
    assert (Hok' : forall fr, In fr cap' ->
              exists repaired, inpaint_frame w fr mask algorithm inpaint_radius = Ok repaired)
      by (intros fr Hin; apply Hok; now right).
    destruct cap' as [| frame' cap''].
    + (* the last frame: the counter reaches the declared total *)
      cbn [length] in Hlen.
      assert (Heq : current_frame + 1 = total_frames) by lia.
      rewrite Heq, Z.eqb_refl, orb_true_r.
      destruct (print_progress_ok total_frames total_frames s1) as (p & Hprint & Hp).
      rewrite Hprint. cbn [frame_loop]. unfold ret.
      exists (set_events (events s1 ++ [Progress total_frames total_frames p]) s1), [].
      split; [reflexivity |]. cbn.
      assert (Hpos : 0 < total_frames) by lia.
      destruct (Z.ltb_spec 0 total_frames); [| lia].
      replace (100 * total_frames) with (100 * total_frames)%Z in Hp by reflexivity.
      rewrite PyFacts.round_half_even_exact in Hp by assumption. now subst p.
    + assert (Hlen' : current_frame + 1 + Z.of_nat (length (frame' :: cap'')) = total_frames)
        by (cbn [length] in *; lia).
      destruct (((current_frame + 1) mod interval =? 0)
                || (current_frame + 1 =? total_frames)).
      * destruct (print_progress_ok (current_frame + 1) total_frames s1)
          as (p & Hprint & Hp).
        rewrite Hprint.
        destruct (IH Hok' (current_frame + 1)
                     (set_events (events s1 ++ [Progress (current_frame + 1) total_frames p]) s1)
                     ltac:(discriminate) Hlen' ltac:(lia))
          as (s' & earlier & Hrun & Hev).
        exists s', (Progress (current_frame + 1) total_frames p :: earlier).
        split; [exact Hrun |]. rewrite Hev. cbn. now rewrite <- app_assoc.
      * unfold ret at 1.
        destruct (IH Hok' (current_frame + 1) s1 ltac:(discriminate) Hlen' ltac:(lia))
          as (s' & earlier & Hrun & Hev).
        exists s', earlier. split; [exact Hrun |]. rewrite Hev. reflexivity.
Qed.

(** An exception leaves the loop only if [cv2.inpaint] raised it: the
    counter arithmetic and the telemetry raise nothing. *)
Lemma frame_loop_raises_only_inpaint (w : world) (mask : Image.gray)
    (algorithm : string) (inpaint_radius total_frames interval : Z)
    (cap : list Image.frame) :
  0 < interval ->
  forall (current_frame : Z) (s : state) (e : exn),
  fst (frame_loop w mask algorithm inpaint_radius total_frames interval
         cap current_frame s) = Raise e ->
  exists frame,
    In frame cap /\
    inpaint_frame w frame mask algorithm inpaint_radius = Raise e.
Proof.
  intros Hint. induction cap as [| frame cap' IH]; intros current_frame s e.
  - cbn. discriminate.
  - cbn [frame_loop]. unfold bind at 1, lift.
    destruct (inpaint_frame w frame mask algorithm inpaint_radius) as [repaired | e0] eqn:Hin.
    2:{ cbn. intros [= ->]. exists frame. split; [now left | assumption]. }
    unfold bind at 1, modify.
    unfold bind at 1. rewrite PyFacts.mod_positive by assumption.
    set (s1 := set_written (written s ++ [repaired]) s).
    unfold bind at 1.
    destruct (((current_frame + 1) mod interval =? 0)
              || (current_frame + 1 =? total_frames)).
    + destruct (print_progress_ok (current_frame + 1) total_frames s1)
        as (p & Hprint & _).
      rewrite Hprint. intros H. destruct (IH _ _ _ H) as (fr & Hfr & Hr).
      exists fr. split; [now right | assumption].
    + unfold ret at 1. intros H. destruct (IH _ _ _ H) as (fr & Hfr & Hr).
      exists fr. split; [now right | assumption].
Qed.

End FrameLoopFacts.

(** ** inpaint_video.py: whole runs of [process_video] *)

Module ProcessVideoFacts.
Import Py Os Cv2 InpaintVideo.

(** What the file operations leave alone. *)
Lemma rename_keeps (h : Os.host) (src dst : string) (s : state) :
  let s' := snd (rename fs set_fs h src dst s) in
  cap_open s' = cap_open s /\ out_open s' = out_open s /\ events s' = events s.
Proof.
  unfold rename. destruct (fs s !! src); [| cbn; auto].
  destruct h, (fs s !! dst); cbn; auto.
Qed.

Lemma remove_keeps (path : string) (s : state) :
  let s' := snd (remove fs set_fs path s) in
  cap_open s' = cap_open s /\ out_open s' = out_open s /\ events s' = events s.
Proof. unfold remove. destruct (fs s !! path); cbn; auto. Qed.

Lemma run_ffmpeg_keeps (ffmpeg : ffmpeg_t) (args : list string)
    (out : option string) (s : state) :
  let s' := snd (run_ffmpeg fs set_fs ffmpeg args out s) in
  cap_open s' = cap_open s /\ out_open s' = out_open s /\ events s' = events s.
Proof.
  unfold run_ffmpeg.
  destruct (ffmpeg args (fs s)) as [[rc | why] [v |]]; destruct out; cbn; auto.
Qed.

(** The remux stage leaves the handles alone and prints at most the
    [complete] event. *)
Lemma remux_effect (w : world) (input_path output_path : string) (s : state) :
  let s' := snd (remux w input_path output_path s) in
  cap_open s' = cap_open s /\ out_open s' = out_open s /\
  (events s' = events s \/ events s' = events s ++ [Complete output_path]).
Proof.
  set (R := fun s s' : state =>
              cap_open s' = cap_open s /\ out_open s' = out_open s /\
              events s' = events s).
  set (R' := fun s s' : state =>
               cap_open s' = cap_open s /\ out_open s' = out_open s /\
               (events s' = events s \/ events s' = events s ++ [Complete output_path])).
  assert (Rtrans : forall s1 s2 s3, R s1 s2 -> R s2 s3 -> R s1 s3).
  { intros s1 s2 s3 (? & ? & ?) (? & ? & ?). repeat split; congruence. }
  assert (Rweak : forall s1 s2, R s1 s2 -> R' s1 s2).
  { intros s1 s2 (? & ? & ?). repeat split; auto. }
  assert (Rcomp : forall s1 s2 s3, R s1 s2 -> R' s2 s3 -> R' s1 s3).
  { intros s1 s2 s3 (Hc & Ho & He) (Hc' & Ho' & He').
    repeat split; [congruence | congruence | rewrite <- He; exact He']. }
  revert s. change (forall s, R' s (snd (remux w input_path output_path s))).
  unfold remux.
  apply (PyFacts.bind_rel R R' R'); auto.
  { intros s. apply rename_keeps. }
  intros _. apply (PyFacts.bind_rel R R' R'); auto.
  { intros s.
    destruct (ProbeFacts.probe_loop_first_success (ffmpeg w) encoders s)
      as (hw_encoder & Hdetect & _).
    unfold detect_hw_encoder. rewrite Hdetect. repeat split. }
  intros hw_encoder. apply (PyFacts.bind_rel R R' R'); auto.
  - apply PyFacts.try_except_keeps; auto.
    + apply PyFacts.bind_keeps; auto.
      * intros s. apply run_ffmpeg_keeps.
      * intros rc s. destruct (negb (rc =? 0)); [apply rename_keeps | apply remove_keeps].
    + intros _. apply PyFacts.bind_keeps; auto.
      * intros s. repeat split.
      * intros [] s; [apply rename_keeps | repeat split].
  - intros _ s. unfold print, modify. cbn. repeat split. now right.
Qed.

(** On every path out of [process_video], from a state with no handle
    open, both handles are closed at the end (the [finally] clause
    releases them whether the loop ends or raises; the early exits
    happen before the writer exists), and the progress percentages
    printed are sorted. *)
Lemma process_video_releases (w : world) (input_path output_path : string)
    (regions : list Region.t) (algorithm : string) (inpaint_radius : Z)
    (files : gmap string bytes) :
  exists r s',
    process_video w input_path output_path regions algorithm inpaint_radius
      (initial files) = (r, s') /\
    cap_open s' = false /\ out_open s' = false /\
    Sorted Z.le (progress_values (events s')).
Proof.
  unfold process_video.
  destruct (video_capture w input_path) as [c |].
  2:{ eexists _, _. split; [reflexivity |]. cbn. repeat split; constructor. }
  unfold bind at 1, modify at 1.
  destruct (video_writer_opens w output_path); cbn [negb].
  2:{ eexists _, _. split; [reflexivity |]. cbn. repeat split; constructor. }
  unfold bind at 1, modify at 1. unfold bind at 1, print at 1, modify at 1.
  set (s1 := set_events _ _).
  unfold bind at 1. unfold try_finally.
  destruct (FrameLoopFacts.frame_loop_effect w
              (create_mask (frame_height c, frame_width c) regions)
              algorithm inpaint_radius (declared_frames c)
              (report_interval (declared_frames c)) (decodable c)
              ltac:(pose proof (FrameLoopFacts.report_interval_positive (declared_frames c)); lia)
              0 s1)
    as (r & s2 & added & Hrun & Hc & Ho & Hf & Hev & Hsorted & _).
  rewrite Hrun.
  unfold bind at 1, release_cap, modify at 1. unfold release_out, modify at 1.
  set (s3 := set_fs _ _).
  assert (H3 : cap_open s3 = false /\ out_open s3 = false /\
               progress_values (events s3) = progress_values added).
  { subst s3. cbn. rewrite Hev. subst s1. cbn. repeat split. }
  destruct H3 as (Hc3 & Ho3 & Hp3).
  destruct r as [[] | e].
  - pose proof (remux_effect w input_path output_path s3) as (Hc' & Ho' & Hev').
    destruct (remux w input_path output_path s3) as [r' s'].
    cbn [snd] in Hc', Ho', Hev'.
    exists r', s'. split; [reflexivity |].
    rewrite Hc', Ho'. repeat split; try assumption.
    destruct Hev' as [-> | ->].
    + now rewrite Hp3.
    + rewrite FrameLoopFacts.progress_values_app, Hp3. cbn. now rewrite app_nil_r.
  - exists (Raise e), s3. split; [reflexivity |].
    repeat split; try assumption. now rewrite Hp3.
Qed.

Lemma last_progress_event (evs tail : list event) (c t p : Z) :
  progress_events tail = [] ->
  last (progress_events (evs ++ [Progress c t p] ++ tail)) = Some (Progress c t p).
Proof.
  intros Htail. unfold progress_events in *.
  rewrite !List.filter_app, Htail, app_nil_r. cbn.
  apply last_snoc.
Qed.

(** A run on which every frame is restored and whose container declared
    exactly the number of frames that decode: the last progress event
    is the 100% one. *)
Lemma process_video_final (w : world) (input_path output_path : string)
    (regions : list Region.t) (algorithm : string) (inpaint_radius : Z)
    (files : gmap string bytes) (c : capture) :
  video_capture w input_path = Some c ->
  video_writer_opens w output_path = true ->
  (forall frame, In frame (decodable c) ->
     exists repaired,
       inpaint_frame w frame
         (create_mask (frame_height c, frame_width c) regions)
         algorithm inpaint_radius = Ok repaired) ->
  decodable c <> [] ->
  Z.of_nat (length (decodable c)) = declared_frames c ->
  exists r s',
    process_video w input_path output_path regions algorithm inpaint_radius
      (initial files) = (r, s') /\
    last (progress_events (events s'))
      = Some (Progress (declared_frames c) (declared_frames c) 100).
Proof.
  intros Hcap Hwriter Hok Hne Hlen.
  unfold process_video. rewrite Hcap, Hwriter. cbn [negb].
  unfold bind at 1, modify at 1.
  unfold bind at 1, modify at 1. unfold bind at 1, print at 1, modify at 1.
  set (s1 := set_events _ _).
  unfold bind at 1. unfold try_finally.
  destruct (FrameLoopFacts.frame_loop_final w
              (create_mask (frame_height c, frame_width c) regions)
              algorithm inpaint_radius (declared_frames c)
              (report_interval (declared_frames c)) (decodable c)
              ltac:(pose proof (FrameLoopFacts.report_interval_positive (declared_frames c)); lia)
              Hok 0 s1 Hne ltac:(lia) ltac:(lia))
    as (s2 & earlier & Hrun & Hev).
  rewrite Hrun.
  unfold bind at 1, release_cap, modify at 1. unfold release_out, modify at 1.
  set (s3 := set_fs _ _).
  assert (H3 : events s3 = events s1 ++ earlier
                 ++ [Progress (declared_frames c) (declared_frames c) 100])
    by (subst s3; cbn; exact Hev).
  pose proof (remux_effect w input_path output_path s3) as (_ & _ & Hev').
  destruct (remux w input_path output_path s3) as [r' s'].
  cbn [snd] in Hev'.
  exists r', s'. split; [reflexivity |].
  destruct Hev' as [-> | ->]; rewrite H3.
  - rewrite app_assoc.
    rewrite <- (app_nil_r [Progress _ _ _]).
    now apply (last_progress_event _ []).
  - rewrite app_assoc, <- app_assoc.
    now apply last_progress_event.
Qed.

(** C10.  In [inpaint_video.py] the telemetry never divides by zero:
    the report interval is at least one frame whatever the declared
    total, so the modulus by it is defined; [print_progress] always
    prints its event, with percentage 0 when the declared total is zero
    or negative; and the only exceptions that leave the frame loop are
    those of the inpainting call. *)
Theorem progress_never_divides_by_zero (w : world) (mask : Image.gray)
    (algorithm : string) (inpaint_radius : Z) (cap : list Image.frame)
    (current_frame total_frames : Z) (s : state) :
  1 <= report_interval total_frames /\
  (exists r, mod_ current_frame (report_interval total_frames) = Ok r) /\
  (exists p,
      print_progress current_frame total_frames s
        = (Ok tt, set_events (events s ++ [Progress current_frame total_frames p]) s) /\
      (total_frames <= 0 -> p = 0)) /\
  (forall e,
      fst (frame_loop w mask algorithm inpaint_radius total_frames
             (report_interval total_frames) cap current_frame s) = Raise e ->
      exists frame,
        In frame cap /\
        inpaint_frame w frame mask algorithm inpaint_radius = Raise e).
Proof.
  pose proof (FrameLoopFacts.report_interval_positive total_frames) as Hint.
  split; [exact Hint |].
  split; [rewrite PyFacts.mod_positive by lia; eauto |].
  split.
  - destruct (FrameLoopFacts.print_progress_ok current_frame total_frames s)
      as (p & Hprint & Hp).
    exists p. split; [exact Hprint |].
    intros Hneg. destruct (Z.ltb_spec 0 total_frames); [lia | assumption].
  - intros e. apply FrameLoopFacts.frame_loop_raises_only_inpaint. lia.
Qed.

(** The theorem applies: a declared total of zero gives percentage 0. *)
Lemma progress_never_divides_by_zero_witness :
  print_progress 5 0 (initial ∅)
  = (Ok tt, set_events [Progress 5 0 0] (initial ∅)).
Proof.
  destruct (progress_never_divides_by_zero
              (Examples.inpaint_world (Examples.video 0 5 7) (Exited 0) None)
              [] "TELEA" 3 [] 5 0 (initial ∅))
    as (_ & _ & (p & Hprint & Hzero) & _).
  rewrite Hprint. rewrite (Hzero ltac:(lia)). reflexivity.
Defined.

End ProcessVideoFacts.

(** ** Masks (C6) *)

Module MaskFacts.
Import Image Float.

(** A property checked on the 256 values of a byte holds of every byte. *)
Lemma forall_uint8 (P : Z -> bool) :
  forallb P (List.map Z.of_nat (seq 0 256)) = true ->
  forall k, 0 <= k <= 255 -> P k = true.
Proof.
  intros Hall k Hk. rewrite forallb_forall in Hall. apply Hall.
  apply in_map_iff. exists (Z.to_nat k). split; [lia |].
  apply in_seq. lia.
Qed.

Lemma saturate_uint8_range (v : Z) : 0 <= saturate_uint8 v <= 255.
Proof. unfold saturate_uint8. lia. Qed.

Lemma pixel_at_zeros (h w : Z) (r c : nat) :
  (r < Z.to_nat h)%nat -> (c < Z.to_nat w)%nat ->
  pixel_at (zeros h w) r c = Some 0.
Proof.
  intros Hr Hc. unfold pixel_at, zeros.
  rewrite lookup_replicate_2 by assumption. now apply lookup_replicate_2.
Qed.

Lemma pixel_at_assign_block (img : list (list Z)) (y1 y2 x1 x2 v : Z) (r c : nat) :
  pixel_at (assign_block img y1 y2 x1 x2 v) r c =
  match img !! r with
  | Some row =>
      match row !! c with
      | Some old =>
          Some (if in_slice (Z.of_nat (length img)) y1 y2 (Z.of_nat r)
                   && in_slice (Z.of_nat (length row)) x1 x2 (Z.of_nat c)
                then v else old)
      | None => None
      end
  | None => None
  end.
Proof.
  unfold pixel_at, assign_block. rewrite list_lookup_imap.
  destruct (img !! r) as [row |]; simpl; [| reflexivity].
  destruct (in_slice (Z.of_nat (length img)) y1 y2 (Z.of_nat r)); simpl.
  - rewrite list_lookup_imap. destruct (row !! c); reflexivity.
  - destruct (row !! c); reflexivity.
Qed.

Lemma assign_block_shape (img : list (list Z)) (y1 y2 x1 x2 v : Z) (h w : nat) :
  length img = h -> Forall (fun row => length row = w) img ->
  length (assign_block img y1 y2 x1 x2 v) = h /\
  Forall (fun row => length row = w) (assign_block img y1 y2 x1 x2 v).
Proof.
  intros Hh Hw. unfold assign_block. split; [now rewrite length_imap |].
  apply Forall_lookup. intros i row. rewrite list_lookup_imap.
  destruct (img !! i) as [row0 |] eqn:Hrow; simpl; [| discriminate].
  intros [= <-].
  rewrite Forall_lookup in Hw. specialize (Hw i row0 Hrow).
  destruct (in_slice _ y1 y2 _); [now rewrite length_imap | assumption].
Qed.

Lemma assign_block_values (P : Z -> Prop) (img : list (list Z)) (y1 y2 x1 x2 v : Z) :
  P v -> all_values P img -> all_values P (assign_block img y1 y2 x1 x2 v).
Proof.
  intros Hv Himg. unfold all_values, assign_block in *.
  apply Forall_lookup. intros i row. rewrite list_lookup_imap.
  destruct (img !! i) as [row0 |] eqn:Hrow; simpl; [| discriminate].
  intros [= <-].
  rewrite Forall_lookup in Himg. specialize (Himg i row0 Hrow).
  destruct (in_slice _ y1 y2 _); [| assumption].
  apply Forall_lookup. intros j x. rewrite list_lookup_imap.
  destruct (row0 !! j) as [old |] eqn:Hold; simpl; [| discriminate].
  intros [= <-]. destruct (in_slice _ x1 x2 _); [assumption |].
  rewrite Forall_lookup in Himg. eauto.
Qed.

Lemma zeros_values (P : Z -> Prop) (h w : Z) : P 0 -> all_values P (zeros h w).
Proof. intros H0. unfold all_values, zeros. now repeat apply Forall_replicate. Qed.

Lemma zeros_shape (h w : Z) :
  length (zeros h w) = Z.to_nat h /\
  Forall (fun row => length row = Z.to_nat w) (zeros h w).
Proof.
  unfold zeros. split; [apply length_replicate |].
  apply Forall_replicate, length_replicate.
Qed.

(** For non-negative bounds a slice selects what its bounds say. *)
Lemma in_slice_clipped (n lo hi i : Z) :
  0 <= i < n -> 0 <= hi ->
  in_slice n (Z.max 0 lo) (Z.min n hi) i = (lo <=? i) && (i <? hi).
Proof.
  intros Hi Hhi. unfold in_slice, slice_index.
  destruct (Z.ltb_spec (Z.max 0 lo) 0); [lia |].
  destruct (Z.ltb_spec (Z.min n hi) 0); [lia |].
  destruct (Z.leb_spec lo i), (Z.ltb_spec i hi); cbn;
    [ rewrite andb_true_iff; split; [apply Z.leb_le | apply Z.ltb_lt]; lia
    | rewrite andb_false_iff; right; apply Z.ltb_ge; lia
    | rewrite andb_false_iff; left; apply Z.leb_gt; lia
    | rewrite andb_false_iff; left; apply Z.leb_gt; lia ].
Qed.

(** Every value of the mask of [inpaint_video.create_mask] is 0 or 255. *)
Lemma inpaint_mask_values (frame_shape : Z * Z) (regions : list Region.t) :
  all_values (fun v => v = 0 \/ v = 255)
    (InpaintVideo.create_mask frame_shape regions).
Proof.
  unfold InpaintVideo.create_mask.
  generalize (zeros_values (fun v => v = 0 \/ v = 255)
                (fst frame_shape) (snd frame_shape) (or_introl eq_refl)).
  generalize (zeros (fst frame_shape) (snd frame_shape)).
  induction regions as [| g regions IH]; intros acc Hacc; cbn [fold_left].
  - exact Hacc.
  - apply IH. apply assign_block_values; [now right | assumption].
Qed.

(** The region loop of [inpaint_video.create_mask], from any canvas of
    the frame's shape. *)
Lemma inpaint_mask_fold (h w : Z) (r c : nat) (regions : list Region.t) :
  Forall (fun g => 0 <= Region.x g + Region.width g
                   /\ 0 <= Region.y g + Region.height g) regions ->
  (r < Z.to_nat h)%nat -> (c < Z.to_nat w)%nat ->
  forall (acc : list (list Z)) (v0 : Z),
  length acc = Z.to_nat h ->
  Forall (fun row => length row = Z.to_nat w) acc ->
  pixel_at acc r c = Some v0 ->
  pixel_at
    (fold_left
       (fun mask region =>
          assign_block mask
            (Z.max 0 (Region.y region))
            (Z.min h (Region.y region + Region.height region))
            (Z.max 0 (Region.x region))
            (Z.min w (Region.x region + Region.width region)) 255)
       regions acc) r c
  = Some (if existsb (Region.covers (Z.of_nat c) (Z.of_nat r)) regions
          then 255 else v0).
Proof.
  intros Hregions Hr Hc.
  induction Hregions as [| g regions [Hgx Hgy] _ IH]; intros acc v0 Hlen Hrows Hpix.
  - exact Hpix.
  - cbn [fold_left existsb].
    destruct (assign_block_shape acc (Z.max 0 (Region.y g))
                (Z.min h (Region.y g + Region.height g))
                (Z.max 0 (Region.x g))
                (Z.min w (Region.x g + Region.width g)) 255 _ _ Hlen Hrows)
      as [Hlen' Hrows'].
    rewrite (IH _ (if Region.covers (Z.of_nat c) (Z.of_nat r) g then 255 else v0)
               Hlen' Hrows').
    + destruct (Region.covers (Z.of_nat c) (Z.of_nat r) g),
        (existsb (Region.covers (Z.of_nat c) (Z.of_nat r)) regions); reflexivity.
    + rewrite pixel_at_assign_block.
      unfold pixel_at in Hpix.
      destruct (acc !! r) as [row |] eqn:Hrow; [| discriminate].
      rewrite Hpix.
      rewrite Forall_lookup in Hrows. rewrite (Hrows r row Hrow), Hlen.
      rewrite !Z2Nat.id by lia.
      rewrite !in_slice_clipped by lia.
      unfold Region.covers.
      destruct (Region.x g <=? Z.of_nat c), (Z.of_nat c <? Region.x g + Region.width g),
        (Region.y g <=? Z.of_nat r), (Z.of_nat r <? Region.y g + Region.height g);
        reflexivity.
Qed.

(** With non-negative far edges, [inpaint_video.create_mask] marks
    exactly the pixels of the frame that lie in some region. *)
Lemma inpaint_mask_pixel (h w : Z) (regions : list Region.t) (r c : nat) :
  Forall (fun g => 0 <= Region.x g + Region.width g
                   /\ 0 <= Region.y g + Region.height g) regions ->
  (r < Z.to_nat h)%nat -> (c < Z.to_nat w)%nat ->
  pixel_at (InpaintVideo.create_mask (h, w) regions) r c =
  Some (if existsb (Region.covers (Z.of_nat c) (Z.of_nat r)) regions
        then 255 else 0).
Proof.
  intros Hregions Hr Hc. unfold InpaintVideo.create_mask. cbn [fst snd].
  pose proof (zeros_shape h w) as [Hlen Hrows].
  apply (inpaint_mask_fold h w r c regions Hregions Hr Hc (zeros h w) 0 Hlen Hrows).
  now apply pixel_at_zeros.
Qed.

(** The normalised mask value of every byte lies in [[0, 1]], in FP32
    and after the cast to FP16. *)
Lemma unit_scale_range (k : Z) :
  0 <= k <= 255 ->
  between (of_int binary32 0) (of_int binary32 1)
    (AiWatermarkRemover.unit_scale k) = true /\
  between (of_int binary16 0) (of_int binary16 1)
    (cast binary16 (AiWatermarkRemover.unit_scale k)) = true.
Proof.
  intros Hk.
  apply andb_true_iff.
  revert k Hk.
  apply (forall_uint8
           (fun k => between (of_int binary32 0) (of_int binary32 1)
                       (AiWatermarkRemover.unit_scale k)
                     && between (of_int binary16 0) (of_int binary16 1)
                          (cast binary16 (AiWatermarkRemover.unit_scale k)))).
  vm_compute. reflexivity.
Qed.

Lemma all_values_map {A B : Type} (P : B -> Prop) (f : A -> B) (img : list (list A)) :
  all_values (fun x => P (f x)) img -> all_values P (List.map (List.map f) img).
Proof.
  unfold all_values. intros H. apply List.Forall_map.
  eapply Forall_impl; [exact H |]. intros row Hrow. now apply List.Forall_map.
Qed.

Lemma all_values_always {A : Type} (P : A -> Prop) (img : list (list A)) :
  (forall x, P x) -> all_values P img.
Proof.
  intros H. unfold all_values.
  apply Forall_forall. intros row _. apply Forall_forall. intros x _. apply H.
Qed.

(** Every value of the mask of [ai_watermark_remover.create_mask] lies
    in [[0, 1]], whatever the blur computes and on either kind of
    device. *)
Lemma ai_mask_values (blur : gray -> gray) (width height : Z)
    (regions : list Region.t) (dev : AiWatermarkRemover.device) :
  all_values
    (fun m => between (of_int (AiWatermarkRemover.device_format dev) 0)
                (of_int (AiWatermarkRemover.device_format dev) 1) m = true)
    (AiWatermarkRemover.mask_on_device dev
       (AiWatermarkRemover.create_mask blur width height regions)).
Proof.
  unfold AiWatermarkRemover.create_mask.
  generalize (blur (fold_left
                      (fun mask region =>
                         rectangle mask (Region.x region) (Region.y region)
                           (Region.x region + Region.width region)
                           (Region.y region + Region.height region) 255)
                      regions (zeros height width))).
  intros img. unfold AiWatermarkRemover.mask_on_device,
    AiWatermarkRemover.device_format.
  destruct (AiWatermarkRemover.accelerated dev);
    repeat apply all_values_map; apply all_values_always; intros k;
    apply unit_scale_range, saturate_uint8_range.
Qed.

(** C6, as the code has it.  Every value of the mask that
    [ai_watermark_remover.create_mask] builds lies in [[0, 1]]; every
    value of the mask that [inpaint_video.create_mask] builds is 0 or
    255 (full intensity is 255 there, not 1).  In
    [inpaint_video.create_mask], when every region has non-negative far
    edges [x + width] and [y + height], a pixel of the frame is marked
    exactly when it lies in the rectangle of some region, so each region
    contributes its clipped overlap with the frame and nothing else.
    The empty region list yields the all-zero mask (in the blurred mask
    provided the blur maps the zero image to itself). *)
Theorem create_mask_range_and_coverage (h w : Z) (regions : list Region.t)
    (blur : gray -> gray) (dev : AiWatermarkRemover.device) :
  all_values
    (fun m => between (of_int (AiWatermarkRemover.device_format dev) 0)
                (of_int (AiWatermarkRemover.device_format dev) 1) m = true)
    (AiWatermarkRemover.mask_on_device dev
       (AiWatermarkRemover.create_mask blur w h regions)) /\
  all_values (fun v => v = 0 \/ v = 255)
    (InpaintVideo.create_mask (h, w) regions) /\
  (Forall (fun g => 0 <= Region.x g + Region.width g
                    /\ 0 <= Region.y g + Region.height g) regions ->
   forall r c : nat,
     (r < Z.to_nat h)%nat -> (c < Z.to_nat w)%nat ->
     pixel_at (InpaintVideo.create_mask (h, w) regions) r c =
     Some (if existsb (Region.covers (Z.of_nat c) (Z.of_nat r)) regions
           then 255 else 0)) /\
  InpaintVideo.create_mask (h, w) [] = zeros h w /\
  (blur (zeros h w) = zeros h w ->
   all_values (fun m => m = S754_zero false)
     (AiWatermarkRemover.create_mask blur w h [])).
Proof.
  split; [apply ai_mask_values |].
  split; [apply inpaint_mask_values |].
  split; [intros Hregions r c; now apply inpaint_mask_pixel |].
  split; [reflexivity |].
  intros Hblur. unfold AiWatermarkRemover.create_mask. cbn [fold_left].
  rewrite Hblur. repeat apply all_values_map.
  apply zeros_values. reflexivity.
Qed.

(** The theorem applies: a region that sticks out of the frame on the
    left marks its two columns inside the frame and nothing else. *)
Lemma create_mask_range_and_coverage_witness :
  let g := {| Region.x := -1; Region.y := 0; Region.width := 3; Region.height := 1 |} in
  Forall (fun g => 0 <= Region.x g + Region.width g
                   /\ 0 <= Region.y g + Region.height g) [g] /\
  pixel_at (InpaintVideo.create_mask (2, 4) [g]) 0 1 = Some 255 /\
  pixel_at (InpaintVideo.create_mask (2, 4) [g]) 0 2 = Some 0.
Proof.
  intros g.
  assert (Hok : Forall (fun g => 0 <= Region.x g + Region.width g
                                 /\ 0 <= Region.y g + Region.height g) [g])
    by (repeat constructor; cbn; lia).
  destruct (create_mask_range_and_coverage 2 4 [g] (fun canvas => canvas)
              AiWatermarkRemover.cpu) as (_ & _ & H & _).
  split; [exact Hok |].
  split.
  - exact (H Hok 0%nat 1%nat ltac:(cbn; lia) ltac:(cbn; lia)).
  - exact (H Hok 0%nat 2%nat ltac:(cbn; lia) ltac:(cbn; lia)).
Defined.

(** C6 as stated fails on [inpaint_video.create_mask] already for a
    region inside the frame: the value it writes is 255, outside
    [[0, 1]]. *)
Lemma create_mask_value_counterexample :
  InpaintVideo.create_mask (1, 1)
    [{| Region.x := 0; Region.y := 0; Region.width := 1; Region.height := 1 |}]
  = [[255]]
  /\ ~ all_values (fun v => 0 <= v <= 1)
        (InpaintVideo.create_mask (1, 1)
           [{| Region.x := 0; Region.y := 0; Region.width := 1; Region.height := 1 |}]).
Proof.
  split; [reflexivity |].
  intros H. change (all_values (fun v => 0 <= v <= 1) [[255]]) in H.
  unfold all_values in H.
  inversion H as [| ? ? Hrow _]. inversion Hrow as [| ? ? Hv _]. lia.
Qed.

(** A region that lies entirely to the left of the frame, so that
    [x + width] is negative, is not clipped away: the negative slice
    bound counts from the right edge and the first columns are marked. *)
Lemma create_mask_negative_far_edge :
  let g := {| Region.x := -3; Region.y := 0; Region.width := 1; Region.height := 1 |} in
  (forall px py, 0 <= px < 4 -> 0 <= py < 2 -> Region.covers px py g = false) /\
  InpaintVideo.create_mask (2, 4) [g] = [[255; 255; 0; 0]; [0; 0; 0; 0]].
Proof.
  split; [| reflexivity].
  intros px py Hx Hy. unfold Region.covers. cbn.
  destruct (Z.leb_spec (-3) px), (Z.ltb_spec px (-2)); cbn; try reflexivity; lia.
Qed.

End MaskFacts.

(** ** ai_watermark_remover.py: the batch loop *)

Module BatchLoopFacts.
Import Py Image Cv2 Float AiWatermarkRemover.

Lemma read_frames_spec (count : nat) (s : state) :
  read_frames count s =
  (Ok (firstn count (cap s)),
   {| cap_open := cap_open s; out_open := out_open s;
      cap := skipn count (cap s); written := written s; events := events s |}).
Proof.
  revert s. induction count as [| count IH]; intros [co oo cp wr ev].
  - reflexivity.
  - cbn [read_frames]. unfold bind at 1, cam_read. cbn [cap].
    destruct cp as [| fr rest]; [reflexivity |].
    cbn [cap_open out_open written events].
    unfold bind at 1. rewrite IH. reflexivity.
Qed.

(** Writing a batch only appends to what was written. *)
Lemma write_frames_effect (fmt : format) (m : plane) (frames : list frame)
    (out_batch : list tensor) (s : state) :
  exists r more,
    write_frames fmt m frames out_batch s =
    (r, {| cap_open := cap_open s; out_open := out_open s; cap := cap s;
           written := written s ++ more; events := events s |}).
Proof.
  revert out_batch s. induction frames as [| fr frames IH]; intros out_batch [co oo cp wr ev].
  - exists (Ok tt), []. cbn. now rewrite app_nil_r.
  - destruct out_batch as [| t out_batch].
    + exists (Raise IndexError), []. cbn. now rewrite app_nil_r.
    + cbn [write_frames]. unfold bind at 1, out_write, modify.
      cbn [cap_open out_open cap written events].
      destruct (IH out_batch
                  {| cap_open := co; out_open := oo; cap := cp;
                     written := wr ++ [composite_frame fmt m fr (out_frame t)];
                     events := ev |}) as (r & more & ->).
      cbn [cap_open out_open cap written events].
      exists r, (composite_frame fmt m fr (out_frame t) :: more).
      now rewrite <- app_assoc.
Qed.

(** With one output per frame, every frame of the batch is composited
    with its own output and written, in order. *)
Lemma write_frames_map (fmt : format) (m : plane) (restore : frame -> tensor)
    (frames : list frame) (s : state) :
  write_frames fmt m frames (List.map restore frames) s =
  (Ok tt,
   {| cap_open := cap_open s; out_open := out_open s; cap := cap s;
      written := written s
                 ++ List.map (fun f => composite_frame fmt m f (out_frame (restore f))) frames;
      events := events s |}).
Proof.
  revert s. induction frames as [| fr frames IH]; intros [co oo cp wr ev].
  - cbn. now rewrite app_nil_r.
  - cbn [write_frames List.map]. unfold bind at 1, out_write, modify.
    rewrite IH. cbn [cap_open out_open cap written events].
    now rewrite <- app_assoc.
Qed.

Lemma optimized_progress_values_app (a b : list event) :
  progress_values (a ++ b) = progress_values a ++ progress_values b.
Proof. unfold progress_values. apply flat_map_app. Qed.

(** One turn of the loop, whatever the model does: the handles are left
    alone; the turn either finds the source exhausted and changes
    nothing, or consumes at least one frame and prints at most one
    progress event, or raises without printing. *)
Lemma batch_step_effect (w : world) (dev : device) (mask_tensor : plane)
    (bs total_frames processed_count : Z) (s : state) :
  0 < bs ->
  exists r s' added,
    batch_step w dev mask_tensor bs total_frames processed_count s = (r, s') /\
    cap_open s' = cap_open s /\ out_open s' = out_open s /\
    events s' = events s ++ added /\
    match r with
    | Ok None => added = [] /\ cap s = [] /\ s' = s
    | Ok (Some n) =>
        (length (cap s') < length (cap s))%nat /\
        processed_count < n /\
        n = processed_count + Z.of_nat (length (cap s)) - Z.of_nat (length (cap s')) /\
        (added = [] \/
         exists q, round_percent n total_frames = Ok q /\
                   added = [Progress q n total_frames])
    | Raise _ => added = []
    end.
Proof.
  intros Hbs. unfold batch_step. unfold bind at 1. rewrite read_frames_spec.
  destruct s as [co oo cp wr ev]. cbn [cap cap_open out_open written events].
  destruct (firstn (Z.to_nat bs) cp) as [| fr frames] eqn:Hfirst.
  - assert (cp = []) as ->.
    { destruct cp; [reflexivity |]. destruct (Z.to_nat bs) eqn:E; [lia | discriminate]. }
    exists (Ok None), {| cap_open := co; out_open := oo; cap := []; written := wr; events := ev |}, [].
    rewrite skipn_nil, app_nil_r. cbn. repeat split.
  - assert (Hlen : (length (skipn (Z.to_nat bs) cp) < length cp)%nat
                   /\ Z.of_nat (length (fr :: frames))
                      = Z.of_nat (length cp) - Z.of_nat (length (skipn (Z.to_nat bs) cp))).
    { rewrite <- Hfirst. rewrite length_skipn, length_firstn.
      assert (length (firstn (Z.to_nat bs) cp) = S (length frames))
        by (now rewrite Hfirst).
      rewrite length_firstn in H. lia. }
    destruct Hlen as [Hshort Hcount].
    unfold bind at 1, lift.
    destruct (model w (List.map (prepare dev) (fr :: frames)) mask_tensor)
      as [out_batch | e].
    2:{ eexists (Raise e), _, []. split; [reflexivity |].
        cbn. rewrite app_nil_r. repeat split. }
    unfold bind at 1.
    destruct (write_frames_effect (device_format dev) mask_tensor (fr :: frames) out_batch
                {| cap_open := co; out_open := oo; cap := skipn (Z.to_nat bs) cp;
                   written := wr; events := ev |}) as (r & more & ->).
    cbn [cap_open out_open cap written events].
    destruct r as [[] | e].
    2:{ eexists (Raise e), _, []. split; [reflexivity |].
        cbn. rewrite app_nil_r. repeat split. }
    unfold bind at 1. rewrite PyFacts.mod_positive by lia.
    unfold bind at 1.
    set (n := processed_count + Z.of_nat (length (fr :: frames))).
    destruct ((n mod (bs * 2) =? 0) || (n =? total_frames)).
    + unfold bind at 1, lift.
      destruct (round_percent n total_frames) as [q | e] eqn:Hq.
      * eexists (Ok (Some n)), _, [Progress q n total_frames].
        split; [reflexivity |]. cbn [cap_open out_open cap written events].
        repeat split; try assumption; try lia.
        right. exists q. split; [assumption | reflexivity].
      * eexists (Raise e), _, []. split; [reflexivity |].
        cbn. rewrite app_nil_r. repeat split.
    + eexists (Ok (Some n)), _, []. split; [reflexivity |].
      cbn [cap_open out_open cap written events]. rewrite app_nil_r.
      repeat split; try assumption; try lia. now left.
Qed.

(** The loop ends within as many turns as there are frames, plus one;
    it leaves the handles alone; and with a non-negative declared total
    the percentages it prints are sorted. *)
Lemma batch_loop_effect (w : world) (dev : device) (mask_tensor : plane)
    (bs total_frames : Z) :
  0 < bs -> 0 <= total_frames ->
  forall (fuel : nat) (processed_count : Z) (s : state),
  (length (cap s) < fuel)%nat ->
  0 <= processed_count ->
  exists r s' added,
    batch_loop fuel w dev mask_tensor bs total_frames processed_count s
      = Some (r, s') /\
    cap_open s' = cap_open s /\ out_open s' = out_open s /\
    events s' = events s ++ added /\
    Sorted Z.le (progress_values added) /\
    Forall (fun q => round_half_even (100 * processed_count) total_frames <= q)
      (progress_values added).
Proof.
  intros Hbs Htotal. induction fuel as [| fuel IH]; intros processed_count s Hfuel Hproc.
  - lia.
  - cbn [batch_loop].
    destruct (batch_step_effect w dev mask_tensor bs total_frames processed_count s Hbs)
      as (r & s1 & added1 & Hstep & Hc1 & Ho1 & Hev1 & Hcase).
    rewrite Hstep.
    destruct r as [[n |] | e].
    + destruct Hcase as (Hshort & Hn & _ & Hadded).
      destruct (IH n s1 ltac:(lia) ltac:(lia))
        as (r & s' & added & Hrun & Hc & Ho & Hev & Hsorted & Hlow).
      exists r, s', (added1 ++ added).
      split; [exact Hrun |].
      split; [congruence |]. split; [congruence |].
      split; [rewrite Hev, Hev1; now rewrite <- app_assoc |].
      assert (Hmono : forall q, round_half_even (100 * n) total_frames <= q ->
                                round_half_even (100 * processed_count) total_frames <= q).
      { intros q Hq. etransitivity; [| exact Hq].
        destruct (Z.eq_dec total_frames 0) as [-> | Hnz].
        - unfold round_half_even. rewrite !Z.div_0_r, !Z.mod_0_r. cbn.
          destruct (Z.ltb_spec (2 * (100 * processed_count)) 0); [lia |].
          destruct (Z.ltb_spec (2 * (100 * n)) 0); [lia |].
          destruct (Z.ltb_spec 0 (2 * (100 * processed_count))),
            (Z.ltb_spec 0 (2 * (100 * n))); lia.
        - apply PyFacts.round_half_even_mono; lia. }
      destruct Hadded as [-> | (q & Hq & ->)].
      * cbn [app]. split; [exact Hsorted |].
        eapply Forall_impl; [exact Hlow | exact Hmono].
      * rewrite optimized_progress_values_app. cbn [progress_values flat_map app].
        fold (progress_values added).
        assert (Hqv : q = round_half_even (100 * n) total_frames).
        { destruct (Z.eq_dec total_frames 0) as [-> | Hnz].
          - unfold round_percent in Hq. cbn in Hq. discriminate.
          - rewrite PyFacts.round_percent_positive in Hq by lia. congruence. }
        split.
        -- constructor; [exact Hsorted |].
           destruct (progress_values added) as [| q' qs]; constructor.
           inversion Hlow; subst. assumption.
        -- constructor; [apply Hmono; lia |].
           eapply Forall_impl; [exact Hlow | exact Hmono].
    + destruct Hcase as (-> & _ & ->).
      exists (Ok tt), s, []. rewrite app_nil_r.
      repeat split; constructor.
    + subst added1. exists (Raise e), s1, []. rewrite app_nil_r.
      rewrite app_nil_r in Hev1.
      repeat split; try assumption; constructor.
Qed.

Lemma round_percent_defined (a b : Z) : b <> 0 -> exists q, round_percent a b = Ok q.
Proof.
  intros Hb. unfold round_percent.
  destruct (Z.eqb_spec b 0); [contradiction |].
  destruct (0 <? b); eauto.
Qed.

(** One turn of the loop when the model restores every tensor of a
    batch on its own and the declared total is not zero. *)
Lemma batch_step_per_sample (w : world) (dev : device) (mask_tensor : plane)
    (restore : tensor -> tensor) (bs total_frames processed_count : Z) (s : state) :
  0 < bs -> total_frames <> 0 ->
  (forall batch, model w batch mask_tensor = Ok (List.map restore batch)) ->
  cap s <> [] ->
  let frames := firstn (Z.to_nat bs) (cap s) in
  let n := processed_count + Z.of_nat (length frames) in
  exists q,
    round_percent n total_frames = Ok q /\
    batch_step w dev mask_tensor bs total_frames processed_count s =
    (Ok (Some n),
     {| cap_open := cap_open s; out_open := out_open s;
        cap := skipn (Z.to_nat bs) (cap s);
        written := written s
                   ++ List.map (frame_result dev mask_tensor restore) frames;
        events := events s
                  ++ (if (n mod (bs * 2) =? 0) || (n =? total_frames)
                      then [Progress q n total_frames] else []) |}).
Proof.
  intros Hbs Htotal Hmodel Hne frames n.
  destruct (round_percent_defined n total_frames Htotal) as (q & Hq).
  exists q. split; [exact Hq |].
  unfold batch_step. unfold bind at 1. rewrite read_frames_spec.
  fold frames.
  destruct s as [co oo cp wr ev]. cbn [cap cap_open out_open written events] in *.
  destruct frames as [| fr frames'] eqn:Hfirst.
  { exfalso. subst frames. destruct cp; [contradiction |].
    destruct (Z.to_nat bs) eqn:E; [lia | discriminate]. }
  unfold bind at 1, lift. rewrite Hmodel.
  unfold bind at 1. rewrite List.map_map.
  rewrite (write_frames_map (device_format dev) mask_tensor
             (fun f => restore (prepare dev f)) (fr :: frames')).
  cbn [cap_open out_open cap written events].
  unfold bind at 1. rewrite PyFacts.mod_positive by lia.
  unfold bind at 1. fold n.
  destruct ((n mod (bs * 2) =? 0) || (n =? total_frames)).
  - unfold bind at 1, lift. rewrite Hq. reflexivity.
  - cbn. now rewrite app_nil_r.
Qed.

(** The whole loop under the same assumptions: it ends normally, having
    read every frame and written, for each frame in order, the result
    of that frame alone. *)
Lemma batch_loop_per_sample (w : world) (dev : device) (mask_tensor : plane)
    (restore : tensor -> tensor) (bs total_frames : Z) :
  0 < bs -> total_frames <> 0 ->
  (forall batch, model w batch mask_tensor = Ok (List.map restore batch)) ->
  forall (fuel : nat) (processed_count : Z) (s : state),
  (length (cap s) < fuel)%nat ->
  exists s',
    batch_loop fuel w dev mask_tensor bs total_frames processed_count s
      = Some (Ok tt, s') /\
    cap_open s' = cap_open s /\ out_open s' = out_open s /\ cap s' = [] /\
    written s' = written s
                 ++ List.map (frame_result dev mask_tensor restore) (cap s).
Proof.
  intros Hbs Htotal Hmodel.
  induction fuel as [| fuel IH]; intros processed_count s Hfuel; [lia |].
  cbn [batch_loop].
  destruct (cap s) as [| fr rest] eqn:Hcap.
  - (* the source is exhausted *)
    unfold batch_step. unfold bind at 1. rewrite read_frames_spec, Hcap.
    rewrite firstn_nil. unfold ret.
    eexists. split; [reflexivity |]. cbn. rewrite skipn_nil, app_nil_r.
    repeat split.
  - destruct (batch_step_per_sample w dev mask_tensor restore bs total_frames
                processed_count s Hbs Htotal Hmodel ltac:(congruence))
      as (q & _ & Hstep).
    rewrite Hstep. rewrite Hcap in *.
    set (s1 := {| cap_open := _ |}).
    destruct (IH (processed_count
                  + Z.of_nat (length (firstn (Z.to_nat bs) (fr :: rest)))) s1)
      as (s' & Hrun & Hc & Ho & Hcp & Hwr).
    { subst s1. cbn [cap]. rewrite length_skipn. cbn [length] in *.
      assert (0 < Z.to_nat bs)%nat by lia. lia. }
    exists s'. split; [exact Hrun |].
    rewrite Hc, Ho, Hcp, Hwr. subst s1. cbn [cap_open out_open cap written].
    repeat split.
    rewrite <- app_assoc, <- List.map_app, firstn_skipn. reflexivity.
Qed.

(** When moreover the container declared exactly the number of frames
    that decode, the last event of the loop is the 100% one. *)
Lemma batch_loop_final (w : world) (dev : device) (mask_tensor : plane)
    (restore : tensor -> tensor) (bs total_frames : Z) :
  0 < bs ->
  (forall batch, model w batch mask_tensor = Ok (List.map restore batch)) ->
  forall (fuel : nat) (processed_count : Z) (s : state),
  (length (cap s) < fuel)%nat ->
  cap s <> [] ->
  0 <= processed_count ->
  processed_count + Z.of_nat (length (cap s)) = total_frames ->
  exists s' earlier,
    batch_loop fuel w dev mask_tensor bs total_frames processed_count s
      = Some (Ok tt, s') /\
    events s' = events s ++ earlier ++ [Progress 100 total_frames total_frames].
Proof.
  intros Hbs Hmodel.
  induction fuel as [| fuel IH]; intros processed_count s Hfuel Hne Hproc Hsum; [lia |].
  assert (Htotal : total_frames <> 0) by (destruct (cap s); [contradiction | cbn in Hsum; lia]).
  cbn [batch_loop].
  destruct (batch_step_per_sample w dev mask_tensor restore bs total_frames
              processed_count s Hbs Htotal Hmodel Hne) as (q & Hq & Hstep).
  rewrite Hstep.
  set (frames := firstn (Z.to_nat bs) (cap s)) in *.
  set (n := processed_count + Z.of_nat (length frames)) in *.
  set (s1 := {| cap_open := _ |}).
  assert (Hsplit : (length frames + length (skipn (Z.to_nat bs) (cap s)) = length (cap s))%nat).
  { subst frames. rewrite <- (firstn_skipn (Z.to_nat bs) (cap s)) at 3.
    now rewrite length_app. }
  assert (Hpos : (0 < length frames)%nat).
  { subst frames. destruct (cap s); [contradiction |].
    destruct (Z.to_nat bs) eqn:E; [lia | cbn; lia]. }
  destruct (skipn (Z.to_nat bs) (cap s)) as [| fr' rest'] eqn:Hrest.
  - (* this was the last batch *)
    assert (Hn : n = total_frames) by (subst n; cbn [length] in Hsplit; lia).
    destruct fuel as [| fuel]; [lia |].
    cbn [batch_loop]. unfold batch_step at 1. unfold bind at 1.
    rewrite read_frames_spec. subst s1. cbn [cap cap_open out_open written events].
    rewrite firstn_nil. unfold ret.
    eexists _, []. split; [reflexivity |]. cbn [events app].
    rewrite Hn, Z.eqb_refl, orb_true_r.
    rewrite Hn, PyFacts.round_percent_full in Hq by lia.
    injection Hq as <-. reflexivity.
  - destruct (IH n s1) as (s' & earlier & Hrun & Hev).
    + subst s1. cbn [cap]. lia.
    + subst s1. cbn [cap]. discriminate.
    + lia.
    + subst s1 n. cbn [cap]. lia.
    + exists s'.
      exists ((if (n mod (bs * 2) =? 0) || (n =? total_frames)
               then [Progress q n total_frames] else []) ++ earlier).
      split; [exact Hrun |]. rewrite Hev. subst s1. cbn [events].
      now rewrite <- !app_assoc.
Qed.

(** A turn that goes through, whatever the model is: it has taken the
    next frames of the decoder, and it has printed a progress event
    exactly when the count reached a multiple of twice the batch size
    or the declared total. *)
Lemma batch_step_some (w : world) (dev : device) (mask_tensor : plane)
    (bs total_frames processed_count n : Z) (s s' : state) :
  0 < bs ->
  batch_step w dev mask_tensor bs total_frames processed_count s
    = (Ok (Some n), s') ->
  n = processed_count + Z.of_nat (length (firstn (Z.to_nat bs) (cap s))) /\
  cap s' = skipn (Z.to_nat bs) (cap s) /\
  firstn (Z.to_nat bs) (cap s) <> [] /\
  if (n mod (bs * 2) =? 0) || (n =? total_frames)
  then exists q, round_percent n total_frames = Ok q /\
                 events s' = events s ++ [Progress q n total_frames]
  else events s' = events s.
Proof.
  intros Hbs. unfold batch_step. unfold bind at 1. rewrite read_frames_spec.
  destruct s as [co oo cp wr ev]. cbn [cap cap_open out_open written events].
  destruct (firstn (Z.to_nat bs) cp) as [| fr frames] eqn:Hfirst; [discriminate |].
  unfold bind at 1, lift.
  destruct (model w (List.map (prepare dev) (fr :: frames)) mask_tensor)
    as [out_batch | e]; [| discriminate].
  unfold bind at 1.
  destruct (write_frames_effect (device_format dev) mask_tensor (fr :: frames) out_batch
              {| cap_open := co; out_open := oo; cap := skipn (Z.to_nat bs) cp;
                 written := wr; events := ev |}) as (r & more & ->).
  cbn [cap_open out_open cap written events].
  destruct r as [[] | e]; [| discriminate].
  unfold bind at 1. rewrite PyFacts.mod_positive by lia.
  unfold bind at 1.
  set (m := processed_count + Z.of_nat (length (fr :: frames))).
  destruct ((m mod (bs * 2) =? 0) || (m =? total_frames)) eqn:Hcond.
  - unfold bind at 1, lift.
    destruct (round_percent m total_frames) as [q | e] eqn:Hq; [| discriminate].
    intros H. injection H as <- <-. cbn [cap events].
    rewrite Hcond. repeat split; [discriminate |]. now exists q.
  - intros H. injection H as <- <-. cbn [cap events].
    rewrite Hcond. repeat split. discriminate.
Qed.

(** A loop that ends normally, whatever the model is, on a decoder that
    holds as many frames as are still missing from the declared total:
    its last event is the 100% one. *)
Lemma batch_loop_final_any (w : world) (dev : device) (mask_tensor : plane)
    (bs total_frames : Z) :
  0 < bs ->
  forall (fuel : nat) (processed_count : Z) (s s' : state),
  batch_loop fuel w dev mask_tensor bs total_frames processed_count s
    = Some (Ok tt, s') ->
  cap s <> [] ->
  0 <= processed_count ->
  processed_count + Z.of_nat (length (cap s)) = total_frames ->
  exists earlier,
    events s' = events s ++ earlier ++ [Progress 100 total_frames total_frames].
Proof.
  intros Hbs. induction fuel as [| fuel IH];
    intros processed_count s s' Hrun Hne Hproc Htotal.
  - discriminate.
  - cbn [batch_loop] in Hrun.
    destruct (batch_step w dev mask_tensor bs total_frames processed_count s)
      as [[[n |] | e] s1] eqn:Hstep.
    + destruct (batch_step_some w dev mask_tensor bs total_frames processed_count
                  n s s1 Hbs Hstep) as (Hn & Hcap1 & Hfirst & Hev1).
      assert (Hsplit : (length (firstn (Z.to_nat bs) (cap s))
                        + length (cap s1) = length (cap s))%nat).
      { rewrite Hcap1, <- length_app, firstn_skipn. reflexivity. }
      destruct (cap s1) as [| fr rest] eqn:Hrest.
      * (* the decoder is exhausted: this turn reached the total *)
        assert (Hn_total : n = total_frames) by (cbn [length] in Hsplit; lia).
        assert (Hpos : 0 < total_frames).
        { destruct (cap s); [contradiction | cbn [length] in Htotal; lia]. }
        rewrite Hn_total, Z.eqb_refl, orb_true_r in Hev1.
        destruct Hev1 as (q & Hq & Hev).
        rewrite PyFacts.round_percent_full in Hq by assumption.
        injection Hq as <-.
        destruct fuel as [| fuel]; [discriminate |].
        cbn [batch_loop] in Hrun.
        destruct (batch_step_effect w dev mask_tensor bs total_frames n s1 Hbs)
          as (r & s2 & added & Hstep2 & _ & _ & _ & Hcase).
        rewrite Hstep2 in Hrun.
        destruct r as [[n' |] | e].
        -- destruct Hcase as (Hshort & _). rewrite Hrest in Hshort.
           cbn [length] in Hshort. lia.
        -- destruct Hcase as (_ & _ & ->). injection Hrun as <-.
           exists []. rewrite Hev. reflexivity.
        -- discriminate.
      * (* more to decode *)
        assert (Hne1 : cap s1 <> []) by (rewrite Hrest; discriminate).
        destruct (IH n s1 s' Hrun Hne1 ltac:(lia)
                    ltac:(rewrite Hrest in *; cbn [length] in *; lia))
          as (earlier & Hev).
        destruct ((n mod (bs * 2) =? 0) || (n =? total_frames)).
        -- destruct Hev1 as (q & _ & Hev1). rewrite Hev, Hev1.
           exists (Progress q n total_frames :: earlier).
           now rewrite <- app_assoc.
        -- rewrite Hev, Hev1. now exists earlier.
    + destruct (batch_step_effect w dev mask_tensor bs total_frames processed_count
                  s Hbs) as (r & s2 & added & Hstep2 & _ & _ & _ & Hcase).
      rewrite Hstep in Hstep2. injection Hstep2 as <- <-.
      destruct Hcase as (_ & Hnil & _). contradiction.
    + discriminate.
Qed.

End BatchLoopFacts.

(** ** ai_watermark_remover.py: the arithmetic of one channel value *)

Module PixelFacts.
Import Image Float AiWatermarkRemover.

(** Where the mask is 0 the composite is the original value, and where
    it is 1 it is the restored value, in both formats. *)
Lemma composite_value_mask_zero (dev : device) (f o : Z) :
  0 <= f <= 255 -> 0 <= o <= 255 ->
  composite_value (device_format dev) (S754_zero false) f o = f.
Proof.
  intros Hf Ho. unfold composite_value.
  assert (Ho0 : forall fmt, fmt = binary32 \/ fmt = binary16 ->
            mul fmt (of_int fmt o) (S754_zero false) = S754_zero false).
  { intros fmt Hfmt.
    pose proof (MaskFacts.forall_uint8
                  (fun o => match mul fmt (of_int fmt o) (S754_zero false) with
                            | S754_zero false => true
                            | _ => false
                            end)) as H.
    specialize (H ltac:(destruct Hfmt as [-> | ->]; vm_compute; reflexivity) o Ho).
    cbn beta in H.
    destruct (mul fmt (of_int fmt o) (S754_zero false)) as [[|] | | |]; congruence. }
  assert (Hfmt : device_format dev = binary32 \/ device_format dev = binary16)
    by (unfold device_format; destruct (accelerated dev); auto).
  rewrite (Ho0 _ Hfmt).
  apply Z.eqb_eq.
  apply (MaskFacts.forall_uint8
           (fun f => astype_uint8
                       (add (device_format dev)
                          (mul (device_format dev) (of_int (device_format dev) f)
                             (sub (device_format dev) (of_int (device_format dev) 1)
                                (S754_zero false)))
                          (S754_zero false)) =? f)); [| exact Hf].
  destruct Hfmt as [-> | ->]; vm_compute; reflexivity.
Qed.

Lemma composite_value_mask_one (dev : device) (f o : Z) :
  0 <= f <= 255 -> 0 <= o <= 255 ->
  composite_value (device_format dev) (of_int (device_format dev) 1) f o = o.
Proof.
  intros Hf Ho. unfold composite_value.
  assert (Hfmt : device_format dev = binary32 \/ device_format dev = binary16)
    by (unfold device_format; destruct (accelerated dev); auto).
  assert (Hsub : sub (device_format dev) (of_int (device_format dev) 1)
                   (of_int (device_format dev) 1) = S754_zero false)
    by (destruct Hfmt as [-> | ->]; vm_compute; reflexivity).
  rewrite Hsub.
  assert (Hf0 : mul (device_format dev) (of_int (device_format dev) f)
                  (S754_zero false) = S754_zero false).
  { pose proof (MaskFacts.forall_uint8
                  (fun f => match mul (device_format dev) (of_int (device_format dev) f)
                                    (S754_zero false) with
                            | S754_zero false => true
                            | _ => false
                            end)) as H.
    specialize (H ltac:(destruct Hfmt as [-> | ->]; vm_compute; reflexivity) f Hf).
    cbn beta in H.
    destruct (mul (device_format dev) (of_int (device_format dev) f) (S754_zero false))
      as [[|] | | |]; congruence. }
  rewrite Hf0.
  apply Z.eqb_eq.
  apply (MaskFacts.forall_uint8
           (fun o => astype_uint8
                       (add (device_format dev) (S754_zero false)
                          (mul (device_format dev) (of_int (device_format dev) o)
                             (of_int (device_format dev) 1))) =? o)); [| exact Ho].
  destruct Hfmt as [-> | ->]; vm_compute; reflexivity.
Qed.

(** A byte that goes to the model and comes back unchanged: in FP32 it
    is restored exactly; through FP16 it may lose one. *)
Lemma identity_restored_cpu (f : Z) :
  0 <= f <= 255 -> restored_value (unit_scale f) = f.
Proof.
  intros Hf. apply Z.eqb_eq.
  apply (MaskFacts.forall_uint8 (fun f => restored_value (unit_scale f) =? f));
    [vm_compute; reflexivity | exact Hf].
Qed.

(** A property of a byte [k] and of a value [g f] tabulated over the
    bytes [f], checked on the whole table, holds everywhere.  The table
    is built once. *)
Lemma forall_uint8_table {A : Type} (g : Z -> A) (P : Z -> A -> bool) :
  (let table := List.map g (List.map Z.of_nat (seq 0 256)) in
   forallb (fun k => forallb (P k) table) (List.map Z.of_nat (seq 0 256))) = true ->
  forall k f, 0 <= k <= 255 -> 0 <= f <= 255 -> P k (g f) = true.
Proof.
  cbv zeta. intros Hall k f Hk Hf.
  pose proof (MaskFacts.forall_uint8 _ Hall k Hk) as Hrow. cbv beta in Hrow.
  rewrite forallb_forall in Hrow. apply Hrow.
  apply in_map. apply in_map_iff. exists (Z.to_nat f). split; [lia |].
  apply in_seq. lia.
Qed.

(** The composite of a byte with itself restored by the identity
    model, under the mask value of any byte: the byte or one less. *)
Lemma identity_composite_cpu (k f : Z) :
  0 <= k <= 255 -> 0 <= f <= 255 ->
  let v := composite_value binary32 (unit_scale k) f (restored_value (unit_scale f)) in
  f - 1 <= v <= f.
Proof.
  intros Hk Hf v.
  pose proof (forall_uint8_table
                (fun f => (of_int binary32 f,
                           of_int binary32 (restored_value (unit_scale f)), f))
                (fun k => let m := unit_scale k in
                          let om := sub binary32 (of_int binary32 1) m in
                          fun t : spec_float * spec_float * Z =>
                            let v := astype_uint8
                                       (add binary32 (mul binary32 (fst (fst t)) om)
                                          (mul binary32 (snd (fst t)) m)) in
                            (snd t - 1 <=? v) && (v <=? snd t))) as H.
  specialize (H ltac:(vm_cast_no_check (eq_refl true)) k f Hk Hf).
  cbv beta zeta in H. cbn [fst snd] in H.
  apply andb_true_iff in H. destruct H as [H1 H2].
  apply Z.leb_le in H1, H2. subst v. unfold composite_value. lia.
Qed.

Lemma identity_composite_half (k f : Z) :
  0 <= k <= 255 -> 0 <= f <= 255 ->
  let v := composite_value binary16 (cast binary16 (unit_scale k)) f
             (restored_value (cast binary16 (unit_scale f))) in
  f - 1 <= v <= f.
Proof.
  intros Hk Hf v.
  pose proof (forall_uint8_table
                (fun f => (of_int binary16 f,
                           of_int binary16
                             (restored_value (cast binary16 (unit_scale f))), f))
                (fun k => let m := cast binary16 (unit_scale k) in
                          let om := sub binary16 (of_int binary16 1) m in
                          fun t : spec_float * spec_float * Z =>
                            let v := astype_uint8
                                       (add binary16 (mul binary16 (fst (fst t)) om)
                                          (mul binary16 (snd (fst t)) m)) in
                            (snd t - 1 <=? v) && (v <=? snd t))) as H.
  specialize (H ltac:(vm_cast_no_check (eq_refl true)) k f Hk Hf).
  cbv beta zeta in H. cbn [fst snd] in H.
  apply andb_true_iff in H. destruct H as [H1 H2].
  apply Z.leb_le in H1, H2. subst v. unfold composite_value. lia.
Qed.

End PixelFacts.

(** ** ai_watermark_remover.py: frames, and whole runs *)

Module FrameFacts.
Import Py Image Cv2 Float AiWatermarkRemover.

Lemma lookup_map {A B : Type} (f : A -> B) (l : list A) (i : nat) :
  List.map f l !! i = f <$> (l !! i).
Proof.
  revert i. induction l as [| a l IH]; intros [| i]; cbn; try reflexivity.
  apply IH.
Qed.

Lemma pixel_at_map {A B : Type} (f : A -> B) (img : list (list A)) (y x : nat) :
  pixel_at (List.map (List.map f) img) y x = f <$> pixel_at img y x.
Proof.
  unfold pixel_at. rewrite lookup_map.
  destruct (img !! y) as [row |]; cbn; [apply lookup_map | reflexivity].
Qed.

Lemma pixel_at_zip {A B : Type} (a : list (list A)) (b : list (list B)) (y x : nat) :
  pixel_at (zip_with zip a b) y x =
  match pixel_at a y x, pixel_at b y x with
  | Some u, Some v => Some (u, v)
  | _, _ => None
  end.
Proof.
  unfold pixel_at. rewrite lookup_zip_with.
  destruct (a !! y) as [ra |], (b !! y) as [rb |];
    cbn [mbind option_bind]; try reflexivity.
  - rewrite lookup_zip_with.
    destruct (ra !! x), (rb !! x); reflexivity.
  - destruct (ra !! x); reflexivity.
Qed.

Lemma all_values_pixel_at {A : Type} (P : A -> Prop) (img : list (list A))
    (y x : nat) (v : A) :
  all_values P img -> pixel_at img y x = Some v -> P v.
Proof.
  unfold all_values, pixel_at. intros Hall Hv.
  destruct (img !! y) as [row |] eqn:Hrow; [| discriminate].
  rewrite Forall_lookup in Hall. specialize (Hall y row Hrow).
  rewrite Forall_lookup in Hall. eauto.
Qed.

(** The composite at one position is the composite of the three values
    at that position. *)
Lemma pixel_at_composite_frame (fmt : format) (m : list (list spec_float))
    (original restored : list (list pixel)) (y x : nat) :
  pixel_at (composite_frame fmt m original restored) y x =
  match pixel_at m y x, pixel_at original y x, pixel_at restored y x with
  | Some mv, Some p, Some q => Some (composite_pixel fmt mv p q)
  | _, _, _ => None
  end.
Proof.
  unfold composite_frame, pixel_at. rewrite !lookup_zip_with.
  destruct (m !! y) as [mrow |], (original !! y) as [prow |],
    (restored !! y) as [qrow |]; cbn [mbind option_bind fst snd];
    rewrite ?lookup_zip_with; cbn [fst snd];
    repeat match goal with
           | |- context [?l !! x] => destruct (l !! x)
           end; reflexivity.
Qed.

(** A byte as the device holds it: scaled to [[0, 1]], in FP16 on an
    accelerator.  The frame's tensor and the mask are made of these. *)
Lemma pixel_at_out_frame_prepare (dev : device) (f : list (list (Z * Z * Z)))
    (y x : nat) :
  pixel_at (out_frame (prepare dev f)) y x =
  (fun p : Z * Z * Z =>
     let back v :=
       restored_value (if accelerated dev then cast binary16 (unit_scale v)
                       else unit_scale v) in
     (back (fst (fst p)), back (snd (fst p)), back (snd p)))
    <$> pixel_at f y x.
Proof.
  unfold prepare, to_tensor, half, tensor_map, out_frame.
  destruct (accelerated dev); cbv beta iota zeta; unfold pixel;
    rewrite !pixel_at_zip, !pixel_at_map;
    destruct (pixel_at f y x) as [[[b g] r] |]; reflexivity.
Qed.

Lemma mask_on_device_values (blur : gray -> gray) (width height : Z)
    (regions : list Region.t) (dev : device) :
  all_values
    (fun m => exists k, 0 <= k <= 255 /\
                m = if accelerated dev then cast binary16 (unit_scale k)
                    else unit_scale k)
    (mask_on_device dev (create_mask blur width height regions)).
Proof.
  unfold create_mask.
  generalize (blur (fold_left
                      (fun mask region =>
                         rectangle mask (Region.x region) (Region.y region)
                           (Region.x region + Region.width region)
                           (Region.y region + Region.height region) 255)
                      regions (zeros height width))).
  intros img. unfold mask_on_device.
  destruct (accelerated dev);
    repeat apply MaskFacts.all_values_map; apply MaskFacts.all_values_always;
    intros k; exists (saturate_uint8 k);
    (split; [apply MaskFacts.saturate_uint8_range | reflexivity]).
Qed.

Lemma batch_size_positive (custom_batch_size : Z) (dev : device) :
  0 < batch_size custom_batch_size dev.
Proof.
  unfold batch_size.
  destruct (Z.ltb_spec 0 custom_batch_size); [assumption |].
  destruct dev; lia.
Qed.

(** A whole run whose model restores every tensor of a batch on its own
    and whose declared frame count is not zero: it ends normally with
    both handles released, and what it wrote is, frame by frame and in
    order, the result of each frame alone. *)
Lemma run_per_sample (w : world) (input_path output_path : string)
    (regions : list Region.t) (custom_batch_size : Z) (c : capture)
    (restore : tensor -> tensor) (s : state) :
  input_exists w input_path = true ->
  video_capture w input_path = Some c ->
  declared_frames c <> 0 ->
  (forall batch m, model w batch m = Ok (List.map restore batch)) ->
  exists s',
    process_video_optimized w input_path output_path regions custom_batch_size s
      = Some (Ok tt, s') /\
    cap_open s' = false /\ out_open s' = false /\
    written s' =
      written s
      ++ List.map
           (frame_result (torch_device w)
              (mask_on_device (torch_device w)
                 (create_mask (gaussian_blur w) (frame_width c) (frame_height c) regions))
              restore)
           (decodable c).
Proof.
  intros Hin Hcap Htotal Hmodel.
  unfold process_video_optimized. rewrite Hin, Hcap. cbn [negb].
  unfold bind at 1, open_handles, modify. unfold print at 1, modify.
  cbn [cap_open out_open cap written events].
  match goal with
  | |- context [batch_loop _ _ _ _ _ _ _ ?st] => set (s1 := st)
  end.
  destruct (BatchLoopFacts.batch_loop_per_sample w (torch_device w)
              (mask_on_device (torch_device w)
                 (create_mask (gaussian_blur w) (frame_width c) (frame_height c) regions))
              restore (batch_size custom_batch_size (torch_device w))
              (declared_frames c)
              (batch_size_positive _ _) Htotal (fun batch => Hmodel batch _)
              (S (length (decodable c))) 0 s1 ltac:(subst s1; cbn; lia))
    as (s2 & Hrun & Hc & Ho & Hcp & Hwr).
  rewrite Hrun. eexists. split; [reflexivity |].
  unfold bind, release_handles, print, modify.
  cbn [cap_open out_open cap written events].
  rewrite Hwr. subst s1. cbn [cap written]. repeat split.
Qed.

End FrameFacts.

(** ** ai_watermark_remover.py: compositing and batches (C1, C7, C9) *)

Module CompositorFacts.
Import Py Image Cv2 Float AiWatermarkRemover.

(** C1, as the code has it.  In [process_video_optimized], when the
    model restores every tensor of a batch on its own and the declared
    frame count is not zero, a run with any batch-size argument ends
    normally and writes, for each decoded frame in order, the composite
    of that frame alone; two runs that differ only in the batch size
    write the same frames.  Each composited channel value is
    [original * (1 - mask) + restored * mask] evaluated in the float
    format of the mask and truncated toward zero by [astype(np.uint8)]
    (not rounded to nearest, and with no clamp of the blend); where the
    mask is 0 it is the original value and where the mask is 1 it is the
    restored value. *)
Theorem composite_independent_of_batch_size (w : world)
    (input_path output_path : string) (regions : list Region.t)
    (c : capture) (restore : tensor -> tensor) (s : state)
    (batch_size_1 batch_size_2 : Z) :
  input_exists w input_path = true ->
  video_capture w input_path = Some c ->
  declared_frames c <> 0 ->
  (forall batch m, model w batch m = Ok (List.map restore batch)) ->
  let dev := torch_device w in
  let mask := mask_on_device dev
                (create_mask (gaussian_blur w) (frame_width c) (frame_height c)
                   regions) in
  exists s1 s2,
    process_video_optimized w input_path output_path regions batch_size_1 s
      = Some (Ok tt, s1) /\
    process_video_optimized w input_path output_path regions batch_size_2 s
      = Some (Ok tt, s2) /\
    written s1 = written s ++ List.map (frame_result dev mask restore) (decodable c) /\
    written s2 = written s1 /\
    (forall fr y x,
        pixel_at (frame_result dev mask restore fr) y x =
        match pixel_at mask y x, pixel_at fr y x,
              pixel_at (out_frame (restore (prepare dev fr))) y x with
        | Some m, Some p, Some q => Some (composite_pixel (device_format dev) m p q)
        | _, _, _ => None
        end) /\
    (forall f o, 0 <= f <= 255 -> 0 <= o <= 255 ->
        composite_value (device_format dev) (S754_zero false) f o = f /\
        composite_value (device_format dev) (of_int (device_format dev) 1) f o = o).
Proof.
  intros Hin Hcap Htotal Hmodel dev mask.
  destruct (FrameFacts.run_per_sample w input_path output_path regions batch_size_1
              c restore s Hin Hcap Htotal Hmodel) as (s1 & Hrun1 & _ & _ & Hwr1).
  destruct (FrameFacts.run_per_sample w input_path output_path regions batch_size_2
              c restore s Hin Hcap Htotal Hmodel) as (s2 & Hrun2 & _ & _ & Hwr2).
  exists s1, s2.
  split; [exact Hrun1 |]. split; [exact Hrun2 |].
  split; [exact Hwr1 |]. split; [now rewrite Hwr1, Hwr2 |].
  split.
  - intros fr y x. unfold frame_result. apply FrameFacts.pixel_at_composite_frame.
  - intros f o Hf Ho. split.
    + now apply PixelFacts.composite_value_mask_zero.
    + now apply PixelFacts.composite_value_mask_one.
Qed.

(** The theorem applies: one pixel, the identity model, batch sizes 1
    and 8. *)
Lemma composite_independent_of_batch_size_witness :
  exists s1 s2,
    process_video_optimized
      (Examples.ai_world cpu (Examples.video 3 3 7) Examples.identity_model)
      "in.mp4" "out.mp4" [Examples.whole_pixel] 1 initial = Some (Ok tt, s1) /\
    process_video_optimized
      (Examples.ai_world cpu (Examples.video 3 3 7) Examples.identity_model)
      "in.mp4" "out.mp4" [Examples.whole_pixel] 8 initial = Some (Ok tt, s2) /\
    written s2 = written s1.
Proof.
  destruct (composite_independent_of_batch_size
              (Examples.ai_world cpu (Examples.video 3 3 7) Examples.identity_model)
              "in.mp4" "out.mp4" [Examples.whole_pixel] (Examples.video 3 3 7)
              (fun t => t) initial 1 8)
    as (s1 & s2 & H1 & H2 & _ & H12 & _).
  - reflexivity.
  - reflexivity.
  - cbn. lia.
  - intros batch m. cbn. unfold Examples.identity_model. now rewrite List.map_id.
  - exists s1, s2. auto.
Defined.

(** C1 as stated fails: the code truncates where the specification
    rounds.  Original 0, restored 1, mask 200/255: the blend is about
    0.78, which the code turns into 0 and rounding turns into 1. *)
Lemma composite_truncates_counterexample :
  composite_frame binary32 [[unit_scale 200]] [[(0, 0, 0)]] [[(1, 1, 1)]]
    = [[(0, 0, 0)]]
  /\ Spec.composite_value 200 0 1 = 1.
Proof. split; vm_compute; reflexivity. Qed.

(** C7, as the code has it.  With the identity model and a declared
    frame count that is not zero, a run with any batch-size argument
    ends normally and writes one frame per decoded frame; at every
    position, each channel of the written pixel is the original value
    or one less; it is the original value wherever the mask is 0, and,
    on the CPU, wherever the mask is 1. *)
Theorem identity_model_at_most_one_below (w : world)
    (input_path output_path : string) (regions : list Region.t)
    (custom_batch_size : Z) (c : capture) (s : state) :
  input_exists w input_path = true ->
  video_capture w input_path = Some c ->
  declared_frames c <> 0 ->
  (forall batch m, model w batch m = Ok batch) ->
  let dev := torch_device w in
  let mask := mask_on_device dev
                (create_mask (gaussian_blur w) (frame_width c) (frame_height c)
                   regions) in
  exists s',
    process_video_optimized w input_path output_path regions custom_batch_size s
      = Some (Ok tt, s') /\
    written s' = written s
                 ++ List.map (frame_result dev mask (fun t => t)) (decodable c) /\
    (forall (fr : frame) (y x : nat) (p : pixel) (m : spec_float),
        pixel_at fr y x = Some p -> is_uint8 p ->
        pixel_at mask y x = Some m ->
        exists q,
          pixel_at (frame_result dev mask (fun t => t) fr) y x = Some q /\
          at_most_one_below p q /\
          (m = S754_zero false -> q = p) /\
          (dev = cpu -> m = of_int binary32 1 -> q = p)).
Proof.
  intros Hin Hcap Htotal Hmodel dev mask.
  destruct (FrameFacts.run_per_sample w input_path output_path regions
              custom_batch_size c (fun t => t) s Hin Hcap Htotal)
    as (s' & Hrun & _ & _ & Hwr).
  { intros batch m. rewrite Hmodel. now rewrite List.map_id. }
  exists s'. split; [exact Hrun |]. split; [exact Hwr |].
  intros fr y x p m Hp Hbyte Hm.
  unfold frame_result. rewrite FrameFacts.pixel_at_composite_frame.
  cbv beta. rewrite Hm. unfold frame, pixel in *.
  rewrite Hp. rewrite FrameFacts.pixel_at_out_frame_prepare, Hp.
  cbn [fmap option_fmap option_map].
  eexists. split; [reflexivity |].
  destruct (FrameFacts.all_values_pixel_at _ _ _ _ _
              (FrameFacts.mask_on_device_values (gaussian_blur w) (frame_width c)
                 (frame_height c) regions dev) Hm) as (k & Hk & Hmk).
  destruct p as [[b g] r]. destruct Hbyte as (Hb & Hg & Hr). cbn [fst snd] in *.
  unfold composite_pixel, at_most_one_below. cbn [fst snd].
  split; [| split].
  - subst m. unfold device_format. destruct (accelerated dev).
    + repeat split; now apply PixelFacts.identity_composite_half.
    + repeat split; now apply PixelFacts.identity_composite_cpu.
  - intros ->. rewrite !PixelFacts.composite_value_mask_zero; try assumption; try reflexivity.
    all: match goal with
         | |- 0 <= restored_value ?v <= 255 =>
             unfold restored_value, astype_uint8;
             pose proof (Z.mod_pos_bound (trunc
               (clip (of_int binary32 0) (of_int binary32 255)
                  (mul binary32 (cast binary32 v) (of_int binary32 255)))) 256 ltac:(lia));
             lia
         end.
  - intros Hdev ->. subst dev. rewrite Hdev. cbn [accelerated].
    change (of_int binary32 1) with (of_int (device_format cpu) 1).
    rewrite !(PixelFacts.composite_value_mask_one cpu);
      rewrite ?PixelFacts.identity_restored_cpu; try assumption; reflexivity.
Qed.

End CompositorFacts.

(** ** ai_watermark_remover.py: the identity model on concrete inputs, batch size, handles *)

Module RunFacts.
Import Py Image Cv2 Float AiWatermarkRemover.

(** The theorem on the identity model applies: one frame of one pixel
    on the CPU. *)
Lemma identity_model_at_most_one_below_witness :
  exists s',
    process_video_optimized
      (Examples.ai_world cpu (Examples.video 1 1 7) Examples.identity_model)
      "in.mp4" "out.mp4" [Examples.whole_pixel] 8 initial = Some (Ok tt, s').
Proof.
  destruct (CompositorFacts.identity_model_at_most_one_below
              (Examples.ai_world cpu (Examples.video 1 1 7) Examples.identity_model)
              "in.mp4" "out.mp4" [Examples.whole_pixel] 8 (Examples.video 1 1 7) initial)
    as (s' & Hrun & _).
  - reflexivity.
  - reflexivity.
  - cbn. lia.
  - reflexivity.
  - exists s'. exact Hrun.
Defined.

(** C7 as stated fails.  On an accelerator the frame goes to the model
    in FP16: a pixel of value 1 under a mask of 1 comes back from the
    identity model as 0. *)
Lemma identity_model_counterexample :
  decodable (Examples.video 1 1 1) = [[[(1, 1, 1)]]] /\
  exists s',
    process_video_optimized
      (Examples.ai_world cuda (Examples.video 1 1 1) Examples.identity_model)
      "in.mp4" "out.mp4" [Examples.whole_pixel] 8 initial = Some (Ok tt, s') /\
    written s' = [[[(0, 0, 0)]]].
Proof.
  split; [reflexivity |].
  eexists. split; vm_compute; reflexivity.
Qed.

(** On the CPU the same happens where the mask is soft: value 3 under
    the mask value 65/255 becomes 2. *)
Lemma identity_model_soft_mask_cpu :
  frame_result cpu [[unit_scale 65]] (fun t => t) [[(3, 3, 3)]] = [[(2, 2, 2)]].
Proof. vm_compute. reflexivity. Qed.

(** The groups of [batches_from] do not depend on the fuel once it
    covers the frames: group [i] is the slice of [n] frames that starts
    at frame [i * n], and it is not empty. *)
Lemma batches_from_lookup (n : nat) :
  (0 < n)%nat ->
  forall (fuel : nat) (frames : list frame) (i : nat) (b : list frame),
  (length frames <= fuel)%nat ->
  batches_from fuel n frames !! i = Some b ->
  b = firstn n (skipn (i * n) frames) /\ b <> [].
Proof.
  intros Hn. induction fuel as [| fuel IH]; intros frames i b Hlen Hb.
  - discriminate.
  - cbn [batches_from] in Hb.
    destruct (firstn n frames) as [| fr batch] eqn:Hfirst; [discriminate |].
    destruct i as [| i].
    + cbn [lookup list_lookup] in Hb. injection Hb as <-.
      change (skipn (0 * n) frames) with frames.
      split; [symmetry; exact Hfirst | discriminate].
    + cbn [lookup list_lookup] in Hb.
      assert (Hshort : (length (skipn n frames) <= fuel)%nat).
      { rewrite length_skipn. destruct frames; [destruct n; discriminate |].
        cbn [length] in *. lia. }
      destruct (IH (skipn n frames) i b Hshort Hb) as (-> & Hne).
      split; [| exact Hne].
      rewrite skipn_skipn. replace (i * n + n)%nat with (S i * n)%nat by lia.
      reflexivity.
Qed.

Lemma batches_from_concat (n : nat) :
  (0 < n)%nat ->
  forall (fuel : nat) (frames : list frame),
  (length frames <= fuel)%nat ->
  concat (batches_from fuel n frames) = frames.
Proof.
  intros Hn. induction fuel as [| fuel IH]; intros frames Hlen.
  - destruct frames; [reflexivity | cbn [length] in Hlen; lia].
  - cbn [batches_from].
    destruct (firstn n frames) as [| fr batch] eqn:Hfirst.
    + destruct frames; [reflexivity |]. destruct n; [lia | discriminate].
    + cbn [concat]. rewrite IH.
      * rewrite <- Hfirst. apply firstn_skipn.
      * rewrite length_skipn. destruct frames; [destruct n; discriminate |].
        cbn [length] in *. lia.
Qed.

(** One turn of the loop consults the model on the next [batch_size]
    frames only. *)
Lemma batch_step_ext (w : world)
    (m2 : list tensor -> plane -> result (list tensor))
    (dev : device) (mask_tensor : plane)
    (bs total_frames processed_count : Z) (s : state) :
  (firstn (Z.to_nat bs) (cap s) <> [] ->
   model w (List.map (prepare dev) (firstn (Z.to_nat bs) (cap s))) mask_tensor
   = m2 (List.map (prepare dev) (firstn (Z.to_nat bs) (cap s))) mask_tensor) ->
  batch_step (with_model m2 w) dev mask_tensor bs total_frames processed_count s
  = batch_step w dev mask_tensor bs total_frames processed_count s.
Proof.
  intros Hagree. unfold batch_step, bind.
  rewrite !BatchLoopFacts.read_frames_spec.
  destruct (firstn (Z.to_nat bs) (cap s)) as [| fr frames]; [reflexivity |].
  cbn [model with_model]. now rewrite Hagree.
Qed.

(** The loop consults the model on the groups of [batch_size] frames
    of what the decoder still holds, and on nothing else. *)
Lemma batch_loop_ext (w : world)
    (m2 : list tensor -> plane -> result (list tensor))
    (dev : device) (mask_tensor : plane) (bs total_frames : Z) :
  0 < bs ->
  forall (fuel : nat) (processed_count : Z) (s : state) (fb : nat),
  (length (cap s) <= fb)%nat ->
  (forall b, In b (batches_from fb (Z.to_nat bs) (cap s)) ->
     model w (List.map (prepare dev) b) mask_tensor
     = m2 (List.map (prepare dev) b) mask_tensor) ->
  batch_loop fuel (with_model m2 w) dev mask_tensor bs total_frames processed_count s
  = batch_loop fuel w dev mask_tensor bs total_frames processed_count s.
Proof.
  intros Hbs. induction fuel as [| fuel IH]; intros processed_count s fb Hlen Hagree.
  - reflexivity.
  - cbn [batch_loop].
    assert (Hstep : batch_step (with_model m2 w) dev mask_tensor bs total_frames
                      processed_count s
                    = batch_step w dev mask_tensor bs total_frames processed_count s).
    { apply batch_step_ext. intros Hfirst.
      apply Hagree. destruct fb as [| fb].
      - destruct (cap s); [destruct (Z.to_nat bs); contradiction |
                           cbn [length] in Hlen; lia].
      - cbn [batches_from].
        destruct (firstn (Z.to_nat bs) (cap s)); [contradiction | now left]. }
    rewrite Hstep.
    destruct (batch_step w dev mask_tensor bs total_frames processed_count s)
      as [[[n |] | e] s1] eqn:Hrun; [| reflexivity | reflexivity].
    destruct (BatchLoopFacts.batch_step_some w dev mask_tensor bs total_frames
                processed_count n s s1 Hbs Hrun) as (_ & Hcap1 & Hfirst & _).
    destruct fb as [| fb].
    { destruct (cap s); [destruct (Z.to_nat bs); contradiction |
                         cbn [length] in Hlen; lia]. }
    apply (IH n s1 fb).
    + rewrite Hcap1, length_skipn.
      destruct (cap s); [destruct (Z.to_nat bs); contradiction |].
      cbn [length] in *. assert (0 < Z.to_nat bs)%nat by lia. lia.
    + intros b Hb. apply Hagree. cbn [batches_from].
      destruct (firstn (Z.to_nat bs) (cap s)) as [| fr frames]; [contradiction |].
      right. rewrite <- Hcap1. exact Hb.
Qed.

(** C9, as the code has it.  A positive batch-size argument is used as
    it is; otherwise the batch size is 12 on CUDA and 4 on every other
    device, MPS included.  The value is positive in every case.  It is
    computed once, before the loop: a run of [process_video_optimized]
    on a video that opens consults the model on the successive groups
    of that many decoded frames and on nothing else (replacing the
    model by one that agrees with it on these groups gives the same
    run), and group [i] is the slice of that many frames that starts at
    frame [i] times the batch size, the same size for every batch. *)
Theorem batch_size_by_device (custom_batch_size : Z) (dev : device) :
  (0 < custom_batch_size -> batch_size custom_batch_size dev = custom_batch_size) /\
  (custom_batch_size <= 0 -> dev = cuda -> batch_size custom_batch_size dev = 12) /\
  (custom_batch_size <= 0 -> dev <> cuda -> batch_size custom_batch_size dev = 4) /\
  0 < batch_size custom_batch_size dev /\
  (forall (w : world) (input_path output_path : string) (regions : list Region.t)
          (c : capture) (m2 : list tensor -> plane -> result (list tensor)),
     torch_device w = dev ->
     video_capture w input_path = Some c ->
     (forall b,
        In b (batches (Z.to_nat (batch_size custom_batch_size dev)) (decodable c)) ->
        model w (List.map (prepare dev) b)
          (mask_on_device dev
             (create_mask (gaussian_blur w) (frame_width c) (frame_height c) regions))
        = m2 (List.map (prepare dev) b)
            (mask_on_device dev
               (create_mask (gaussian_blur w) (frame_width c) (frame_height c) regions))) ->
     process_video_optimized (with_model m2 w) input_path output_path regions
       custom_batch_size initial
     = process_video_optimized w input_path output_path regions
         custom_batch_size initial) /\
  (forall (frames : list frame),
     concat (batches (Z.to_nat (batch_size custom_batch_size dev)) frames) = frames /\
     forall (i : nat) (b : list frame),
       batches (Z.to_nat (batch_size custom_batch_size dev)) frames !! i = Some b ->
       b = firstn (Z.to_nat (batch_size custom_batch_size dev))
             (skipn (i * Z.to_nat (batch_size custom_batch_size dev)) frames) /\
       b <> []).
Proof.
  assert (Hpos : 0 < batch_size custom_batch_size dev)
    by apply FrameFacts.batch_size_positive.
  split; [| split; [| split; [| split; [exact Hpos | split]]]].
  - unfold batch_size. destruct (Z.ltb_spec 0 custom_batch_size); [reflexivity | lia].
  - unfold batch_size. intros Hneg ->.
    destruct (Z.ltb_spec 0 custom_batch_size); [lia | reflexivity].
  - unfold batch_size. intros Hneg Hdev.
    destruct (Z.ltb_spec 0 custom_batch_size); [lia |].
    destruct dev; [contradiction | reflexivity | reflexivity].
  - intros w input_path output_path regions c m2 Hdev Hcap Hagree.
    unfold process_video_optimized.
    change (input_exists (with_model m2 w)) with (input_exists w).
    change (video_capture (with_model m2 w)) with (video_capture w).
    change (torch_device (with_model m2 w)) with (torch_device w).
    change (gaussian_blur (with_model m2 w)) with (gaussian_blur w).
    destruct (input_exists w input_path); [| reflexivity]. cbn [negb].
    rewrite Hcap, Hdev. cbv zeta.
    unfold bind at 1 3, open_handles, modify. unfold print at 1 3, modify.
    cbn [cap_open out_open cap written events initial].
    rewrite (batch_loop_ext w m2 dev _ _ (declared_frames c) Hpos
               (S (length (decodable c))) 0 _ (length (decodable c))).
    + reflexivity.
    + cbn [cap]. lia.
    + cbn [cap]. exact Hagree.
  - intros frames. split.
    + apply batches_from_concat; lia.
    + intros i b. apply batches_from_lookup; lia.
Qed.

(** The theorem applies: the three defaults, and a run of five frames
    in batches of two whose model is only consulted on the groups
    [0-1], [2-3] and [4]. *)
Lemma batch_size_by_device_witness :
  batch_size 8 mps = 8 /\ batch_size 0 cuda = 12 /\ batch_size (-1) cpu = 4 /\
  process_video_optimized
    (with_model
       (fun batch m => if (length batch <=? 2)%nat then Ok batch else Raise IndexError)
       (Examples.ai_world cpu (Examples.video 5 5 7) Examples.identity_model))
    "in.mp4" "out.mp4" [] 2 initial
  = process_video_optimized
      (Examples.ai_world cpu (Examples.video 5 5 7) Examples.identity_model)
      "in.mp4" "out.mp4" [] 2 initial.
Proof.
  destruct (batch_size_by_device 8 mps) as (H1 & _).
  destruct (batch_size_by_device 0 cuda) as (_ & H2 & _).
  destruct (batch_size_by_device (-1) cpu) as (_ & _ & H3 & _).
  destruct (batch_size_by_device 2 cpu) as (_ & _ & _ & _ & H4 & _).
  split; [apply H1; lia |].
  split; [apply H2; [lia | reflexivity] |].
  split; [apply H3; [lia | discriminate] |].
  apply (H4 _ "in.mp4"%string "out.mp4"%string [] (Examples.video 5 5 7)).
  - reflexivity.
  - reflexivity.
  - intros b Hb. cbn in Hb.
    destruct Hb as [<- | [<- | [<- | []]]]; reflexivity.
Defined.

(** C9 as stated fails: MPS is an accelerator for the precision
    selection, but its default batch size is 4, not 12. *)
Lemma batch_size_mps_counterexample :
  accelerated mps = true /\ batch_size 0 mps = 4 /\ batch_size 0 mps <> 12.
Proof. repeat split. discriminate. Qed.


(** In general: whenever the model raises on the first batch of a
    non-empty video, [process_video_optimized] ends with that exception
    and both handles open. *)
Lemma model_exception_skips_release (w : world) (input_path output_path : string)
    (regions : list Region.t) (custom_batch_size : Z) (c : capture) (e : exn) :
  input_exists w input_path = true ->
  video_capture w input_path = Some c ->
  decodable c <> [] ->
  (forall batch m, model w batch m = Raise e) ->
  exists s',
    process_video_optimized w input_path output_path regions custom_batch_size initial
      = Some (Raise e, s') /\
    cap_open s' = true /\ out_open s' = true.
Proof.
  intros Hin Hcap Hne Hmodel.
  unfold process_video_optimized. rewrite Hin, Hcap. cbn [negb].
  unfold bind at 1, open_handles, modify. unfold print at 1, modify.
  cbn [cap_open out_open cap written events initial].
  cbn [batch_loop]. unfold batch_step. unfold bind at 1.
  rewrite BatchLoopFacts.read_frames_spec. cbn [cap cap_open out_open written events].
  destruct (decodable c) as [| fr rest] eqn:Hdec; [contradiction |].
  pose proof (FrameFacts.batch_size_positive custom_batch_size (torch_device w)) as Hbs.
  destruct (Z.to_nat (batch_size custom_batch_size (torch_device w))) as [| n] eqn:Hn;
    [lia |].
  cbn [firstn]. unfold bind at 1, lift. rewrite Hmodel.
  eexists. repeat split.
Qed.

End RunFacts.

(** ** Progress telemetry of whole runs (C2) *)

Module ProgressFacts.
Import Py Image Cv2.

(** With a non-negative declared total, the percentages that
    [process_video_optimized] prints are sorted, whatever the model
    does. *)
Lemma optimized_progress_sorted (w : AiWatermarkRemover.world)
    (input_path output_path : string) (regions : list Region.t)
    (custom_batch_size : Z) :
  (forall c, AiWatermarkRemover.video_capture w input_path = Some c ->
             0 <= declared_frames c) ->
  exists r s',
    AiWatermarkRemover.process_video_optimized w input_path output_path regions
      custom_batch_size AiWatermarkRemover.initial = Some (r, s') /\
    Sorted Z.le (AiWatermarkRemover.progress_values (AiWatermarkRemover.events s')).
Proof.
  intros Htotal. unfold AiWatermarkRemover.process_video_optimized.
  destruct (AiWatermarkRemover.input_exists w input_path); cbn [negb].
  2:{ eexists _, _. split; [reflexivity |]. cbn. constructor. }
  destruct (AiWatermarkRemover.video_capture w input_path) as [c |] eqn:Hcap.
  2:{ eexists _, _. split; [reflexivity |]. cbn. constructor. }
  unfold bind at 1, AiWatermarkRemover.open_handles, modify.
  unfold AiWatermarkRemover.print at 1, modify.
  cbn [AiWatermarkRemover.cap_open AiWatermarkRemover.out_open AiWatermarkRemover.cap
         AiWatermarkRemover.written AiWatermarkRemover.events AiWatermarkRemover.initial].
  match goal with
  | |- context [AiWatermarkRemover.batch_loop _ _ _ ?m ?bs ?t _ ?st] =>
      destruct (BatchLoopFacts.batch_loop_effect w (AiWatermarkRemover.torch_device w)
                  m bs t (FrameFacts.batch_size_positive _ _) (Htotal c eq_refl)
                  (S (length (decodable c))) 0 st ltac:(cbn; lia) ltac:(lia))
        as (r & s2 & added & Hrun & _ & _ & Hev & Hsorted & _)
  end.
  rewrite Hrun. cbn [AiWatermarkRemover.events app] in Hev.
  destruct r as [[] | e].
  - eexists _, _. split; [reflexivity |].
    unfold bind, AiWatermarkRemover.release_handles, AiWatermarkRemover.print, modify.
    cbn [AiWatermarkRemover.events]. rewrite Hev.
    change (AiWatermarkRemover.Info ?d ?b :: added) with ([AiWatermarkRemover.Info d b] ++ added).
    rewrite !BatchLoopFacts.optimized_progress_values_app. cbn. now rewrite app_nil_r.
  - eexists _, _. split; [reflexivity |]. rewrite Hev.
    change (AiWatermarkRemover.Info ?d ?b :: added) with ([AiWatermarkRemover.Info d b] ++ added).
    rewrite !BatchLoopFacts.optimized_progress_values_app. cbn. exact Hsorted.
Qed.

Lemma optimized_last_progress_event (evs tail : list AiWatermarkRemover.event)
    (p c t : Z) :
  AiWatermarkRemover.progress_events tail = [] ->
  last (AiWatermarkRemover.progress_events
          (evs ++ [AiWatermarkRemover.Progress p c t] ++ tail))
  = Some (AiWatermarkRemover.Progress p c t).
Proof.
  intros Htail. unfold AiWatermarkRemover.progress_events in *.
  rewrite !List.filter_app, Htail, app_nil_r. cbn.
  apply last_snoc.
Qed.

(** When the model restores every tensor of a batch on its own and the
    container declared exactly the number of frames that decode, the
    last progress event of [process_video_optimized] is the 100% one. *)
Lemma optimized_final (w : AiWatermarkRemover.world)
    (input_path output_path : string) (regions : list Region.t)
    (custom_batch_size : Z) (c : capture)
    (restore : AiWatermarkRemover.tensor -> AiWatermarkRemover.tensor) :
  AiWatermarkRemover.input_exists w input_path = true ->
  AiWatermarkRemover.video_capture w input_path = Some c ->
  (forall batch m, AiWatermarkRemover.model w batch m = Ok (List.map restore batch)) ->
  decodable c <> [] ->
  Z.of_nat (length (decodable c)) = declared_frames c ->
  exists s',
    AiWatermarkRemover.process_video_optimized w input_path output_path regions
      custom_batch_size AiWatermarkRemover.initial = Some (Ok tt, s') /\
    last (AiWatermarkRemover.progress_events (AiWatermarkRemover.events s'))
    = Some (AiWatermarkRemover.Progress 100 (declared_frames c) (declared_frames c)).
Proof.
  intros Hin Hcap Hmodel Hne Hlen.
  unfold AiWatermarkRemover.process_video_optimized. rewrite Hin, Hcap. cbn [negb].
  unfold bind at 1, AiWatermarkRemover.open_handles, modify.
  unfold AiWatermarkRemover.print at 1, modify.
  cbn [AiWatermarkRemover.cap_open AiWatermarkRemover.out_open AiWatermarkRemover.cap
         AiWatermarkRemover.written AiWatermarkRemover.events AiWatermarkRemover.initial].
  match goal with
  | |- context [AiWatermarkRemover.batch_loop _ _ _ ?m ?bs ?t _ ?st] =>
      destruct (BatchLoopFacts.batch_loop_final w (AiWatermarkRemover.torch_device w)
                  m restore bs t (FrameFacts.batch_size_positive _ _)
                  (fun batch => Hmodel batch _)
                  (S (length (decodable c))) 0 st ltac:(cbn; lia) Hne ltac:(lia)
                  ltac:(cbn; lia))
        as (s2 & earlier & Hrun & Hev)
  end.
  rewrite Hrun. eexists. split; [reflexivity |].
  unfold bind, AiWatermarkRemover.release_handles, AiWatermarkRemover.print, modify.
  cbn [AiWatermarkRemover.events]. rewrite Hev.
  cbn [AiWatermarkRemover.events].
  rewrite <- !app_assoc.
  apply (optimized_last_progress_event
           ([AiWatermarkRemover.Info _ _] ++ earlier)
           [AiWatermarkRemover.Complete output_path]).
  reflexivity.
Qed.

(** Whatever the model is: a run of [process_video_optimized] that ends
    normally on a container that declared exactly the number of frames
    that decode, at least one, has the 100% event as its last progress
    event. *)
Lemma optimized_final_any (w : AiWatermarkRemover.world)
    (input_path output_path : string) (regions : list Region.t)
    (custom_batch_size : Z) (c : capture) (s' : AiWatermarkRemover.state) :
  AiWatermarkRemover.video_capture w input_path = Some c ->
  AiWatermarkRemover.process_video_optimized w input_path output_path regions
    custom_batch_size AiWatermarkRemover.initial = Some (Ok tt, s') ->
  decodable c <> [] ->
  Z.of_nat (length (decodable c)) = declared_frames c ->
  last (AiWatermarkRemover.progress_events (AiWatermarkRemover.events s'))
  = Some (AiWatermarkRemover.Progress 100 (declared_frames c) (declared_frames c)).
Proof.
  intros Hcap Hrun Hne Hlen.
  unfold AiWatermarkRemover.process_video_optimized in Hrun.
  destruct (AiWatermarkRemover.input_exists w input_path); cbn [negb] in Hrun;
    [| discriminate].
  rewrite Hcap in Hrun.
  unfold bind at 1, AiWatermarkRemover.open_handles, modify in Hrun.
  unfold AiWatermarkRemover.print at 1, modify in Hrun.
  cbn [AiWatermarkRemover.cap_open AiWatermarkRemover.out_open AiWatermarkRemover.cap
         AiWatermarkRemover.written AiWatermarkRemover.events AiWatermarkRemover.initial]
    in Hrun.
  match type of Hrun with
  | context [AiWatermarkRemover.batch_loop ?f _ _ ?m ?bs ?t _ ?st] =>
      destruct (AiWatermarkRemover.batch_loop f w (AiWatermarkRemover.torch_device w)
                  m bs t 0 st) as [[[[] | e] s2] |] eqn:Hloop;
        [| discriminate | discriminate];
      destruct (BatchLoopFacts.batch_loop_final_any w (AiWatermarkRemover.torch_device w)
                  m bs t (FrameFacts.batch_size_positive _ _) f 0 st s2 Hloop Hne
                  ltac:(lia) ltac:(cbn; lia)) as (earlier & Hev)
  end.
  unfold bind, AiWatermarkRemover.release_handles, AiWatermarkRemover.print, modify in Hrun.
  injection Hrun as <-.
  cbn [AiWatermarkRemover.events]. rewrite Hev.
  cbn [AiWatermarkRemover.events].
  rewrite <- !app_assoc.
  apply (optimized_last_progress_event
           ([AiWatermarkRemover.Info _ _] ++ earlier)
           [AiWatermarkRemover.Complete output_path]).
  reflexivity.
Qed.

(** C2, as the code has it.  In both scripts the percentages of the
    successive progress events of a run never decrease (in
    [ai_watermark_remover.py] provided the declared total is not
    negative).  When every frame is processed (in [inpaint_video.py]:
    [cv2.inpaint] repairs every decoded frame; in
    [ai_watermark_remover.py]: the run ends normally, whatever the
    model is), at least one frame decodes and the container declared
    exactly the number of frames that decode, the last progress event
    reports 100% with [current_frame = total_frames].  The last part
    shows that such normal runs exist: a model that restores every
    tensor on its own gives one. *)
Theorem progress_sorted_and_final
    (wi : InpaintVideo.world) (wa : AiWatermarkRemover.world)
    (input_path output_path : string) (regions : list Region.t)
    (algorithm : string) (inpaint_radius custom_batch_size : Z)
    (files : gmap string Os.bytes) :
  (exists r s',
      InpaintVideo.process_video wi input_path output_path regions algorithm
        inpaint_radius (InpaintVideo.initial files) = (r, s') /\
      Sorted Z.le (InpaintVideo.progress_values (InpaintVideo.events s'))) /\
  ((forall c, AiWatermarkRemover.video_capture wa input_path = Some c ->
              0 <= declared_frames c) ->
   exists r s',
      AiWatermarkRemover.process_video_optimized wa input_path output_path regions
        custom_batch_size AiWatermarkRemover.initial = Some (r, s') /\
      Sorted Z.le (AiWatermarkRemover.progress_values (AiWatermarkRemover.events s'))) /\
  (forall c,
      InpaintVideo.video_capture wi input_path = Some c ->
      InpaintVideo.video_writer_opens wi output_path = true ->
      (forall fr, In fr (decodable c) ->
         exists repaired,
           InpaintVideo.inpaint_frame wi fr
             (InpaintVideo.create_mask (frame_height c, frame_width c) regions)
             algorithm inpaint_radius = Ok repaired) ->
      decodable c <> [] ->
      Z.of_nat (length (decodable c)) = declared_frames c ->
      exists r s',
        InpaintVideo.process_video wi input_path output_path regions algorithm
          inpaint_radius (InpaintVideo.initial files) = (r, s') /\
        last (InpaintVideo.progress_events (InpaintVideo.events s'))
        = Some (InpaintVideo.Progress (declared_frames c) (declared_frames c) 100)) /\
  (forall c s',
      AiWatermarkRemover.video_capture wa input_path = Some c ->
      AiWatermarkRemover.process_video_optimized wa input_path output_path regions
        custom_batch_size AiWatermarkRemover.initial = Some (Ok tt, s') ->
      decodable c <> [] ->
      Z.of_nat (length (decodable c)) = declared_frames c ->
      last (AiWatermarkRemover.progress_events (AiWatermarkRemover.events s'))
      = Some (AiWatermarkRemover.Progress 100 (declared_frames c) (declared_frames c))) /\
  (forall c restore,
      AiWatermarkRemover.input_exists wa input_path = true ->
      AiWatermarkRemover.video_capture wa input_path = Some c ->
      (forall batch m,
         AiWatermarkRemover.model wa batch m = Ok (List.map restore batch)) ->
      decodable c <> [] ->
      Z.of_nat (length (decodable c)) = declared_frames c ->
      exists s',
        AiWatermarkRemover.process_video_optimized wa input_path output_path regions
          custom_batch_size AiWatermarkRemover.initial = Some (Ok tt, s') /\
        last (AiWatermarkRemover.progress_events (AiWatermarkRemover.events s'))
        = Some (AiWatermarkRemover.Progress 100 (declared_frames c) (declared_frames c))).
Proof.
  split.
  { destruct (ProcessVideoFacts.process_video_releases wi input_path output_path
                regions algorithm inpaint_radius files)
      as (r & s' & Hrun & _ & _ & Hsorted).
    exists r, s'. auto. }
  split; [apply optimized_progress_sorted |].
  split.
  { intros c. apply ProcessVideoFacts.process_video_final. }
  split.
  - intros c s'. apply optimized_final_any.
  - intros c restore. apply optimized_final.
Qed.

(** The theorem applies: three frames declared and decoded, in both
    scripts; the run of [ai_watermark_remover.py] that the last part
    gives ends as the fourth part says. *)
Lemma progress_sorted_and_final_witness :
  (exists r s',
      InpaintVideo.process_video
        (Examples.inpaint_world (Examples.video 3 3 7) (Os.Exited 0) None)
        "in.mp4" "out.mp4" [] "TELEA" 3 (InpaintVideo.initial ∅) = (r, s') /\
      last (InpaintVideo.progress_events (InpaintVideo.events s'))
      = Some (InpaintVideo.Progress 3 3 100)) /\
  (exists s',
      AiWatermarkRemover.process_video_optimized
        (Examples.ai_world AiWatermarkRemover.cpu (Examples.video 3 3 7)
           Examples.identity_model)
        "in.mp4" "out.mp4" [] 8 AiWatermarkRemover.initial = Some (Ok tt, s') /\
      last (AiWatermarkRemover.progress_events (AiWatermarkRemover.events s'))
      = Some (AiWatermarkRemover.Progress 100 3 3)).
Proof.
  destruct (progress_sorted_and_final
              (Examples.inpaint_world (Examples.video 3 3 7) (Os.Exited 0) None)
              (Examples.ai_world AiWatermarkRemover.cpu (Examples.video 3 3 7)
                 Examples.identity_model)
              "in.mp4" "out.mp4" [] "TELEA" 3 8 ∅) as (_ & _ & Hi & Hany & Ha).
  split.
  - apply (Hi (Examples.video 3 3 7)).
    + reflexivity.
    + reflexivity.
    + intros fr _. eexists. reflexivity.
    + discriminate.
    + reflexivity.
  - destruct (Ha (Examples.video 3 3 7) (fun t => t)) as (s' & Hrun & _).
    + reflexivity.
    + reflexivity.
    + intros batch m. cbn. unfold Examples.identity_model. now rewrite List.map_id.
    + discriminate.
    + reflexivity.
    + exists s'. split; [exact Hrun |].
      apply (Hany (Examples.video 3 3 7) s').
      * reflexivity.
      * exact Hrun.
      * discriminate.
      * reflexivity.
Defined.

(** C2 as stated fails when the container declares more frames than
    decode: ten declared, five decoded, and the last progress event of
    [inpaint_video.py] reports 50% at frame 5. *)
Lemma progress_final_counterexample :
  declared_frames (Examples.video 10 5 7) = 10 /\
  length (decodable (Examples.video 10 5 7)) = 5%nat /\
  last (InpaintVideo.progress_events
          (InpaintVideo.events
             (snd (InpaintVideo.process_video
                     (Examples.inpaint_world (Examples.video 10 5 7) (Os.Exited 0) None)
                     "in.mp4" "out.mp4" [] "TELEA" 3 (InpaintVideo.initial ∅)))))
  = Some (InpaintVideo.Progress 5 10 50).
Proof. split; [reflexivity |]. split; [reflexivity |]. vm_compute. reflexivity. Qed.

(** The same input in [ai_watermark_remover.py] with batches of two:
    the last progress event reports 40% at frame 4. *)
Lemma optimized_run_stops_below_100 :
  exists s',
    AiWatermarkRemover.process_video_optimized
      (Examples.ai_world AiWatermarkRemover.cpu (Examples.video 10 5 7)
         Examples.identity_model)
      "in.mp4" "out.mp4" [] 2 AiWatermarkRemover.initial = Some (Ok tt, s') /\
    last (AiWatermarkRemover.progress_events (AiWatermarkRemover.events s'))
    = Some (AiWatermarkRemover.Progress 40 4 10).
Proof. eexists. split; vm_compute; reflexivity. Qed.

(** With a declared total of zero, [ai_watermark_remover.py] divides by
    zero at its first progress report: four frames, batches of two. *)
Lemma optimized_zero_total_raises :
  exists s',
    AiWatermarkRemover.process_video_optimized
      (Examples.ai_world AiWatermarkRemover.cpu (Examples.video 0 4 7)
         Examples.identity_model)
      "in.mp4" "out.mp4" [] 2 AiWatermarkRemover.initial
    = Some (Raise ZeroDivisionError, s') /\
    AiWatermarkRemover.cap_open s' = true /\ AiWatermarkRemover.out_open s' = true.
Proof. eexists. split; [vm_compute; reflexivity |]. split; reflexivity. Qed.

End ProgressFacts.

(** ** model_manager.py (C8) *)

Module ModelManagerFacts.
Import Py ModelManager.

Lemma tmp_path_fresh (model_path : string) :
  String.append model_path ".tmp" <> model_path.
Proof. apply PathFacts.append_neq. discriminate. Qed.

Lemma registry_items : MODEL_REGISTRY = list_to_map MODEL_REGISTRY_items.
Proof. reflexivity. Qed.

(** The registry holds the three algorithms and nothing else. *)
Lemma registry_lookup (algorithm : string) (info : model_info) :
  MODEL_REGISTRY !! algorithm = Some info <-> In (algorithm, info) MODEL_REGISTRY_items.
Proof.
  rewrite registry_items. rewrite <- elem_of_list_to_map.
  - apply list_elem_of_In.
  - cbn. repeat (constructor;
                 [rewrite ?elem_of_cons, elem_of_nil; intuition discriminate |]).
    constructor.
Qed.

Lemma registry_unknown (algorithm : string) :
  algorithm <> "STTN"%string -> algorithm <> "LAMA"%string ->
  algorithm <> "PROPAINTER"%string ->
  MODEL_REGISTRY !! algorithm = None.
Proof.
  intros H1 H2 H3.
  destruct (MODEL_REGISTRY !! algorithm) as [info |] eqn:E; [| reflexivity].
  apply registry_lookup in E. cbn [MODEL_REGISTRY_items In] in E.
  destruct E as [E | [E | [E | []]]]; injection E as E _; congruence.
Qed.

(** The file names of the registry are relative and not empty, and no
    entry has a checksum. *)
Lemma registry_filenames (algorithm : string) (info : model_info) :
  MODEL_REGISTRY !! algorithm = Some info ->
  String.prefix "/" (filename info) = false /\ filename info <> ""%string /\
  sha256 info = None.
Proof.
  intros Hreg. apply registry_lookup in Hreg. cbn [MODEL_REGISTRY_items In] in Hreg.
  destruct Hreg as [E | [E | [E | []]]]; injection E as _ <-;
    (split; [reflexivity | split; [discriminate | reflexivity]]).
Qed.

Lemma prefix_append (a b : string) : String.prefix a (String.append a b) = true.
Proof.
  induction a as [| ch a IH].
  - now destruct b.
  - change (String.append (String ch a) b) with (String ch (String.append a b)).
    cbn [String.prefix].
    destruct (Ascii.ascii_dec ch ch); [exact IH | congruence].
Qed.

Lemma append_assoc (a b c : string) :
  String.append (String.append a b) c = String.append a (String.append b c).
Proof.
  induction a as [| ch a IH]; [reflexivity |].
  change (String ch (String.append (String.append a b) c)
          = String ch (String.append a (String.append b c))).
  now f_equal.
Qed.

(** Joining a relative, non-empty name to a directory adds something
    to it. *)
Lemma path_join_relative (dir name : string) :
  String.prefix "/" name = false -> name <> ""%string ->
  exists suffix, suffix <> ""%string /\ path_join dir name = String.append dir suffix.
Proof.
  intros Hrel Hne. unfold path_join. rewrite Hrel.
  destruct (String.eqb dir "" || ends_with_sep dir).
  - now exists name.
  - exists (String.append "/" name). split; [discriminate | reflexivity].
Qed.

(** A path made by [os.path.join] from a relative name lies under its
    directory. *)
Lemma under_path_join (dir name : string) :
  dir <> ""%string -> String.prefix "/" name = false ->
  under dir (path_join dir name) = true.
Proof.
  intros Hdir Hrel. unfold under, path_join. rewrite Hrel.
  destruct (String.eqb_spec dir ""); [contradiction |]. cbn [orb].
  destruct (ends_with_sep dir).
  - apply prefix_append.
  - rewrite <- append_assoc. apply prefix_append.
Qed.

(** Neither the model path nor the temporary path of a registered
    algorithm is the cache directory itself. *)
Lemma model_path_outside (w : world) (algorithm : string) (info : model_info) :
  MODEL_REGISTRY !! algorithm = Some info ->
  path_join (cache_dir w) (filename info) <> cache_dir w /\
  String.append (path_join (cache_dir w) (filename info)) ".tmp" <> cache_dir w.
Proof.
  intros Hreg. destruct (registry_filenames algorithm info Hreg) as (Hrel & Hne & _).
  destruct (path_join_relative (cache_dir w) (filename info) Hrel Hne)
    as (suffix & Hsuffix & ->).
  split.
  - now apply PathFacts.append_neq.
  - rewrite append_assoc. apply PathFacts.append_neq. now destruct suffix.
Qed.

(** [get_cache_dir] changes nothing; it returns the directory or
    raises one of the three errors of [os.makedirs]. *)
Lemma get_cache_dir_cases (w : world) (s : state) :
  get_cache_dir w s = (Ok (cache_dir w), s) \/
  exists e, get_cache_dir w s = (Raise e, s) /\
            (e = FileNotFoundError "" \/ e = FileExistsError (cache_dir w) \/
             exists why, e = OSError why).
Proof.
  unfold get_cache_dir.
  destruct (String.eqb (cache_dir w) ""); [right; eauto |].
  destruct (fs s !! cache_dir w); [right; eauto |].
  destruct (makedirs_error w) as [why |]; [right | left; reflexivity].
  eexists. split; [reflexivity |]. right. right. eauto.
Qed.

(** When it goes through: the path is not empty, no file sits at it,
    and the directory is there or can be made. *)
Lemma get_cache_dir_usable (w : world) (s : state) :
  get_cache_dir w s = (Ok (cache_dir w), s) <->
  cache_dir w <> ""%string /\ fs s !! cache_dir w = None /\ makedirs_error w = None.
Proof.
  unfold get_cache_dir. destruct (String.eqb_spec (cache_dir w) "") as [-> | Hdir].
  - split; [discriminate | intros (H & _); contradiction].
  - destruct (fs s !! cache_dir w).
    + split; [discriminate | intros (_ & H & _); discriminate].
    + destruct (makedirs_error w).
      * split; [discriminate | intros (_ & _ & H); discriminate].
      * split; [intros _; repeat split; assumption | reflexivity].
Qed.

Lemma get_cache_dir_ok_inv (w : world) (s s' : state) (dir : string) :
  get_cache_dir w s = (Ok dir, s') -> get_cache_dir w s = (Ok (cache_dir w), s).
Proof.
  destruct (get_cache_dir_cases w s) as [H | (e & H & _)]; [intros _; exact H |].
  rewrite H. discriminate.
Qed.

(** It still goes through in any later state with no file at the
    directory's path. *)
Lemma get_cache_dir_stable (w : world) (s s' : state) :
  get_cache_dir w s = (Ok (cache_dir w), s) ->
  fs s' !! cache_dir w = None ->
  get_cache_dir w s' = (Ok (cache_dir w), s').
Proof.
  rewrite !get_cache_dir_usable. intros (Hdir & _ & Hmk) Hfree. repeat split; assumption.
Qed.

Lemma get_model_path_known (w : world) (algorithm : string) (info : model_info)
    (s : state) :
  MODEL_REGISTRY !! algorithm = Some info ->
  get_cache_dir w s = (Ok (cache_dir w), s) ->
  get_model_path w algorithm s = (Ok (path_join (cache_dir w) (filename info)), s).
Proof.
  intros Hreg Huse. unfold get_model_path. rewrite Hreg.
  unfold bind. now rewrite Huse.
Qed.

Lemma get_model_path_fails (w : world) (algorithm : string) (info : model_info)
    (s : state) (e : exn) :
  MODEL_REGISTRY !! algorithm = Some info ->
  get_cache_dir w s = (Raise e, s) ->
  get_model_path w algorithm s = (Raise e, s).
Proof.
  intros Hreg Hfail. unfold get_model_path. rewrite Hreg.
  unfold bind. now rewrite Hfail.
Qed.

(** The cache test, once the algorithm is known and [os.makedirs] goes
    through. *)
Lemma is_model_downloaded_known (w : world) (algorithm : string) (info : model_info)
    (s : state) :
  MODEL_REGISTRY !! algorithm = Some info ->
  get_cache_dir w s = (Ok (cache_dir w), s) ->
  is_model_downloaded w algorithm s
  = (Ok match fs s !! path_join (cache_dir w) (filename info) with
        | Some f => MiB <? size f
        | None => false
        end, s).
Proof.
  intros Hreg Huse. unfold is_model_downloaded. unfold bind at 1.
  rewrite (get_model_path_known w algorithm info s Hreg Huse).
  destruct (fs s !! path_join (cache_dir w) (filename info)); reflexivity.
Qed.


(** When [os.makedirs] raises, [download_model] raises the same before
    anything else happens. *)
Lemma download_model_unusable (w : world) (algorithm : string) (info : model_info)
    (s : state) (e : exn) :
  MODEL_REGISTRY !! algorithm = Some info ->
  get_cache_dir w s = (Raise e, s) ->
  download_model w algorithm s = (Raise e, s).
Proof.
  intros Hreg Hfail. unfold download_model. rewrite Hreg.
  unfold bind at 1. now rewrite (get_model_path_fails w algorithm info s e Hreg Hfail).
Qed.

(** What the reading loop does to the state: it only grows the
    temporary file, and only the caller's callback can make it raise
    anything that is not an [Exception]. *)
Lemma read_loop_effect (w : world) (temp_path : string) (total_size : Z)
    (chunks : list Z) (complete : bool) :
  forall (downloaded : Z) (s : state) (f0 : file),
  fs s !! temp_path = Some f0 ->
  exists r s' f',
    read_loop w temp_path total_size chunks complete downloaded s = (r, s') /\
    requests s' = requests s /\
    fs s' = <[temp_path := f']> (fs s) /\
    match r with
    | Ok _ => True
    | Raise e => is_Exception e = true \/ is_Some (on_progress w)
    end.
Proof.
  induction chunks as [| n chunks IH]; intros downloaded s f0 Hf0.
  - cbn [read_loop]. destruct complete.
    + exists (Ok tt), s, f0. rewrite insert_id by assumption. repeat split.
    + eexists _, s, f0. split; [reflexivity |].
      rewrite insert_id by assumption. repeat split. now left.
  - cbn [read_loop]. destruct (n <=? 0).
    + exists (Ok tt), s, f0. rewrite insert_id by assumption. repeat split.
    + unfold bind at 1, write_chunk, modify.
      set (s1 := set_fs _ s).
      assert (Hs1 : fs s1 = <[temp_path := {| size := size f0 + n;
                                              hexdigest := hexdigest f0 |}]> (fs s)).
      { subst s1. cbn [fs set_fs].
        apply map_eq. intros p. destruct (decide (p = temp_path)) as [-> | Hne].
        - rewrite lookup_alter_eq, lookup_insert_eq, Hf0. reflexivity.
        - rewrite lookup_alter_ne, lookup_insert_ne by congruence. reflexivity. }
      assert (Hf1 : fs s1 !! temp_path = Some {| size := size f0 + n;
                                                hexdigest := hexdigest f0 |}).
      { rewrite Hs1. apply lookup_insert_eq. }
      unfold bind at 1.
      destruct (on_progress w) as [callback |] eqn:Hcb.
      * unfold lift. destruct (callback (downloaded + n) total_size) as [[] | e].
        -- destruct (IH (downloaded + n) s1 _ Hf1) as (r & s' & f' & Hrun & Hreq & Hfs & Hr).
           exists r, s', f'. split; [exact Hrun |].
           split; [rewrite Hreq; reflexivity |].
           split; [rewrite Hfs, Hs1; apply insert_insert_eq |].
           destruct r; [exact I |].
           destruct Hr as [Hr | Hr]; [now left | right; eauto].
        -- eexists (Raise e), s1, _. split; [reflexivity |].
           split; [reflexivity |]. split; [exact Hs1 |]. right. eauto.
      * unfold ret at 1.
        destruct (IH (downloaded + n) s1 _ Hf1) as (r & s' & f' & Hrun & Hreq & Hfs & Hr).
        exists r, s', f'. split; [exact Hrun |].
        split; [rewrite Hreq; reflexivity |].
        split; [rewrite Hfs, Hs1; apply insert_insert_eq |].
        destruct r; [exact I |].
        destruct Hr as [Hr | [? Hr]]; [now left | discriminate Hr].
Qed.

(** Every way a call of [download_model] for a registered algorithm can
    end once [os.makedirs] has gone through. *)
Lemma download_model_outcome (w : world) (algorithm : string) (info : model_info)
    (s : state) :
  MODEL_REGISTRY !! algorithm = Some info ->
  get_cache_dir w s = (Ok (cache_dir w), s) ->
  let model_path := path_join (cache_dir w) (filename info) in
  let temp_path := String.append model_path ".tmp" in
  exists r s',
    download_model w algorithm s = (r, s') /\
    if match fs s !! model_path with
       | Some f => MiB <? size f
       | None => false
       end
    then r = Ok model_path /\ s' = s
    else
      requests s' = S (requests s) /\
      match r with
      | Ok p =>
          p = model_path /\
          exists f, fs s' = <[model_path := f]> (delete temp_path (fs s)) /\
                    MiB <= size f
      | Raise e =>
          if is_Exception e
          then e = RuntimeError "Failed to download model" /\
               fs s' = delete temp_path (fs s)
          else is_Some (on_progress w)
      end.
Proof.
  intros Hreg Huse model_path temp_path. unfold download_model. rewrite Hreg.
  unfold bind at 1. rewrite (get_model_path_known w algorithm info s Hreg Huse).
  unfold bind at 1. rewrite (is_model_downloaded_known w algorithm info s Hreg Huse).
  fold model_path. fold temp_path.
  destruct (match fs s !! model_path with
            | Some f => MiB <? size f
            | None => false
            end).
  { eexists _, _. split; [reflexivity |]. split; reflexivity. }
  assert (Hhandler : forall s1,
            exists s2,
              (bind (Os.path_exists fs temp_path)
                 (fun present =>
                    bind (if present then os_remove temp_path else ret tt)
                      (fun _ => raise (A := string)
                                  (RuntimeError "Failed to download model")))) s1
              = (Raise (RuntimeError "Failed to download model"), s2) /\
              fs s2 = delete temp_path (fs s1) /\ requests s2 = requests s1).
  { intros s1. unfold bind, Os.path_exists, os_remove, Os.remove, ret, raise.
    destruct (fs s1 !! temp_path) as [v |] eqn:Hv.
    - rewrite bool_decide_eq_true_2 by eauto. rewrite Hv.
      eexists. split; [reflexivity |]. split; reflexivity.
    - rewrite bool_decide_eq_false_2 by (intros [? ?]; congruence).
      exists s1. split; [reflexivity |]. split; [| reflexivity].
      symmetry. now apply delete_id. }
  unfold try_except. unfold bind at 1. unfold urlopen.
  destruct (server w (requests s) (url info))
    as [why | total_size chunks complete digest]; cbv beta iota.
  { cbn [is_Exception].
    destruct (Hhandler {| fs := fs s; requests := S (requests s) |})
      as (s2 & Hrun & Hfs & Hreq).
    rewrite Hrun. exists (Raise (RuntimeError "Failed to download model")), s2.
    split; [reflexivity |]. split; [exact Hreq |]. cbn [is_Exception].
    split; [reflexivity | exact Hfs]. }
  unfold bind at 1, modify.
  set (s_b := set_fs _ _).
  assert (Hb : fs s_b !! temp_path = Some {| size := 0; hexdigest := digest |}).
  { subst s_b. cbn [fs set_fs]. apply lookup_insert_eq. }
  unfold bind at 1.
  destruct (read_loop_effect w temp_path total_size chunks complete 0 s_b _ Hb)
    as (r1 & s_c & f' & Hloop & Hreq_c & Hfs_c & Hr1).
  rewrite Hloop.
  assert (Hc : fs s_c !! temp_path = Some f').
  { rewrite Hfs_c. apply lookup_insert_eq. }
  assert (Hdel : delete temp_path (fs s_c) = delete temp_path (fs s)).
  { rewrite Hfs_c. subst s_b. cbn [fs set_fs]. now rewrite !delete_insert_eq. }
  assert (Hreq_b : requests s_c = S (requests s)).
  { rewrite Hreq_c. reflexivity. }
  assert (Hfail : forall msg,
            exists s2,
              (if is_Exception (RuntimeError msg)
               then
                 (bind (Os.path_exists fs temp_path)
                    (fun present =>
                       bind (if present then os_remove temp_path else ret tt)
                         (fun _ => raise (A := string)
                                     (RuntimeError "Failed to download model"))))
                   (set_fs (delete temp_path (fs s_c)) s_c)
               else (Raise (RuntimeError msg), set_fs (delete temp_path (fs s_c)) s_c))
              = (Raise (RuntimeError "Failed to download model"), s2) /\
              requests s2 = S (requests s) /\
              fs s2 = delete temp_path (fs s)).
  { intros msg. cbn [is_Exception].
    destruct (Hhandler (set_fs (delete temp_path (fs s_c)) s_c))
      as (s2 & Hrun & Hfs & Hreq).
    exists s2. split; [exact Hrun |]. split; [rewrite Hreq; exact Hreq_b |].
    rewrite Hfs. cbn [fs set_fs]. now rewrite delete_delete_eq, Hdel. }
  assert (Hreject : forall (A : Type) msg,
            (bind (os_remove temp_path)
               (fun _ => raise (A := A) (RuntimeError msg))) s_c
            = (Raise (RuntimeError msg), set_fs (delete temp_path (fs s_c)) s_c)).
  { intros A msg. unfold bind, os_remove, Os.remove. rewrite Hc. reflexivity. }
  destruct r1 as [[] | e].
  - unfold bind at 1. rewrite Hc. cbv beta iota.
    destruct (size f' <? MiB) eqn:Hsmall.
    + rewrite Hreject. cbv beta iota.
      destruct (Hfail "Downloaded file too small, likely corrupted")
        as (s2 & Hrun & Hreq & Hfs).
      rewrite Hrun. eexists _, s2. split; [reflexivity |].
      split; [exact Hreq |]. cbn [is_Exception]. split; [reflexivity | exact Hfs].
    + apply Z.ltb_ge in Hsmall.
      assert (Hmove :
        (bind (Os.move fs set_fs temp_path model_path)
           (fun _ => ret model_path)) s_c
        = (Ok model_path,
           set_fs (<[model_path := f']> (delete temp_path (fs s_c))) s_c)).
      { unfold bind, Os.move. rewrite Hc. reflexivity. }
      unfold bind at 1.
      destruct (sha256 info) as [expected |].
      * unfold bind at 1. rewrite Hc. cbv beta iota.
        destruct (negb (String.eqb (hexdigest f') expected)).
        -- rewrite Hreject. cbv beta iota.
           destruct (Hfail "SHA256 mismatch") as (s2 & Hrun & Hreq & Hfs).
           rewrite Hrun. eexists _, s2. split; [reflexivity |].
           split; [exact Hreq |]. cbn [is_Exception].
           split; [reflexivity | exact Hfs].
        -- unfold ret at 1. rewrite Hmove.
           eexists _, _. split; [reflexivity |]. cbn [requests fs set_fs].
           split; [exact Hreq_b |]. split; [reflexivity |].
           exists f'. rewrite Hdel. split; [reflexivity | exact Hsmall].
      * unfold ret at 1. rewrite Hmove.
        eexists _, _. split; [reflexivity |]. cbn [requests fs set_fs].
        split; [exact Hreq_b |]. split; [reflexivity |].
        exists f'. rewrite Hdel. split; [reflexivity | exact Hsmall].
  - destruct (is_Exception e) eqn:He.
    + destruct (Hhandler s_c) as (s2 & Hrun & Hfs & Hreq).
      rewrite Hrun. eexists _, s2. split; [reflexivity |].
      split; [rewrite Hreq; exact Hreq_b |]. cbn [is_Exception].
      split; [reflexivity |]. now rewrite Hfs, Hdel.
    + exists (Raise e), s_c. split; [reflexivity |].
      split; [exact Hreq_b |]. rewrite He.
      destruct Hr1 as [Hr1 | Hr1]; [congruence | exact Hr1].
Qed.

(** Once a file larger than 1 MiB sits at the model path, [download_model]
    returns that path at once: no request goes out and nothing changes. *)
Lemma download_model_cached (w : world) (algorithm : string) (info : model_info)
    (s : state) (f : file) :
  MODEL_REGISTRY !! algorithm = Some info ->
  get_cache_dir w s = (Ok (cache_dir w), s) ->
  fs s !! path_join (cache_dir w) (filename info) = Some f ->
  MiB < size f ->
  download_model w algorithm s = (Ok (path_join (cache_dir w) (filename info)), s).
Proof.
  intros Hreg Huse Hfile Hsize. unfold download_model. rewrite Hreg.
  unfold bind at 1. rewrite (get_model_path_known w algorithm info s Hreg Huse).
  unfold bind at 1. rewrite (is_model_downloaded_known w algorithm info s Hreg Huse).
  rewrite Hfile.
  destruct (Z.ltb_spec MiB (size f)); [reflexivity | lia].
Qed.

(** Whenever [download_model] ends with a [RuntimeError] (which is how
    a failed size or checksum test, and any other failure of the
    download, reaches the caller), the temporary file does not exist. *)
Lemma download_model_failure_cleans (w : world) (algorithm : string)
    (info : model_info) (s s' : state) (msg : string) :
  MODEL_REGISTRY !! algorithm = Some info ->
  download_model w algorithm s = (Raise (RuntimeError msg), s') ->
  fs s' !! String.append (path_join (cache_dir w) (filename info)) ".tmp" = None.
Proof.
  intros Hreg Hrun.
  destruct (get_cache_dir_cases w s) as [Huse | (e & Hfail & He)].
  - destruct (download_model_outcome w algorithm info s Hreg Huse)
      as (r & s2 & Hrun' & Hcase).
    rewrite Hrun in Hrun'. injection Hrun' as <- <-. cbn zeta in Hcase.
    destruct (match fs s !! path_join (cache_dir w) (filename info) with
              | Some f => MiB <? size f
              | None => false
              end).
    + destruct Hcase as [Hcase _]. discriminate Hcase.
    + destruct Hcase as (_ & Hcase). cbn [is_Exception] in Hcase.
      destruct Hcase as (_ & ->). apply lookup_delete_eq.
  - rewrite (download_model_unusable w algorithm info s e Hreg Hfail) in Hrun.
    injection Hrun as -> _.
    destruct He as [He | [He | (why & He)]]; discriminate He.
Qed.

(** What a successful call returns is the model path of a registered
    algorithm; [os.makedirs] went through, and still does afterwards. *)
Lemma download_model_ok_path (w : world) (algorithm : string) (s s1 : state)
    (path : string) :
  download_model w algorithm s = (Ok path, s1) ->
  exists info,
    MODEL_REGISTRY !! algorithm = Some info /\
    path = path_join (cache_dir w) (filename info) /\
    get_cache_dir w s1 = (Ok (cache_dir w), s1).
Proof.
  intros Hrun.
  destruct (MODEL_REGISTRY !! algorithm) as [info |] eqn:Hreg.
  2:{ unfold download_model in Hrun. rewrite Hreg in Hrun. discriminate. }
  exists info. split; [reflexivity |].
  destruct (get_cache_dir_cases w s) as [Huse | (e & Hfail & _)].
  2:{ rewrite (download_model_unusable w algorithm info s e Hreg Hfail) in Hrun.
      discriminate. }
  destruct (download_model_outcome w algorithm info s Hreg Huse)
    as (r & s2 & Hrun' & Hcase).
  rewrite Hrun in Hrun'. injection Hrun' as <- <-. cbn zeta in Hcase.
  destruct (model_path_outside w algorithm info Hreg) as (Hmodel & Htemp).
  apply get_cache_dir_usable in Huse as Hfree. destruct Hfree as (_ & Hfree & _).
  destruct (match fs s !! path_join (cache_dir w) (filename info) with
            | Some f => MiB <? size f
            | None => false
            end).
  - destruct Hcase as [Hpath ->]. injection Hpath as ->. split; [reflexivity | exact Huse].
  - destruct Hcase as (_ & -> & f & Hfs & _). split; [reflexivity |].
    apply (get_cache_dir_stable w s s1 Huse).
    rewrite Hfs, lookup_insert_ne, lookup_delete_ne by congruence. exact Hfree.
Qed.

(** Two calls in sequence: when the first succeeds and the file it
    leaves at the path it returns is larger than 1 MiB, the second
    returns the same path with no request and no change. *)
Lemma download_model_twice (w : world) (algorithm : string) (s s1 : state)
    (path : string) (f : file) :
  download_model w algorithm s = (Ok path, s1) ->
  fs s1 !! path = Some f ->
  MiB < size f ->
  download_model w algorithm s1 = (Ok path, s1).
Proof.
  intros Hfirst Hfile Hsize.
  destruct (download_model_ok_path w algorithm s s1 path Hfirst)
    as (info & Hreg & -> & Huse).
  now apply (download_model_cached w algorithm info s1 f).
Qed.

(** C8 fails at the size boundary.  The server delivers exactly
    1 048 576 bytes.  The first call accepts them (the test after the
    download rejects only sizes below 1 MiB) and stores them; the
    second call does not find them cached (the cache test wants more
    than 1 MiB) and downloads again: two requests. *)
Theorem exact_mebibyte_is_fetched_twice :
  let w := Examples.server_world (Body 1048576 [1048576] true "digest") in
  exists s1 s2,
    download_model w "LAMA" Examples.empty_cache
      = (Ok "/cache/lama_big_lama.pth"%string, s1) /\
    requests s1 = 1%nat /\
    fs s1 !! "/cache/lama_big_lama.pth"%string
      = Some {| size := 1048576; hexdigest := "digest" |} /\
    download_model w "LAMA" s1 = (Ok "/cache/lama_big_lama.pth"%string, s2) /\
    requests s2 = 2%nat.
Proof.
  eexists _, _.
  split; [vm_compute; reflexivity |].
  split; [reflexivity |].
  split; [vm_compute; reflexivity |].
  split; [vm_compute; reflexivity |].
  reflexivity.
Qed.

(** One byte more and the second call is served from the cache. *)
Lemma larger_artifact_is_fetched_once :
  let w := Examples.server_world (Body 1048577 [1048576; 1] true "digest") in
  exists s1,
    download_model w "LAMA" Examples.empty_cache
      = (Ok "/cache/lama_big_lama.pth"%string, s1) /\
    requests s1 = 1%nat /\
    download_model w "LAMA" s1 = (Ok "/cache/lama_big_lama.pth"%string, s1).
Proof.
  eexists.
  split; [vm_compute; reflexivity |].
  split; [reflexivity |].
  vm_compute. reflexivity.
Qed.

(** A download that stops short of 1 MiB: the caller gets a
    [RuntimeError], and neither the temporary file nor a model file is
    left behind. *)
Lemma short_download_is_removed :
  let w := Examples.server_world (Body 1048577 [1000] true "digest") in
  exists msg s1,
    download_model w "LAMA" Examples.empty_cache = (Raise (RuntimeError msg), s1) /\
    fs s1 !! "/cache/lama_big_lama.pth.tmp"%string = None /\
    fs s1 !! "/cache/lama_big_lama.pth"%string = None.
Proof.
  eexists _, _.
  split; [vm_compute; reflexivity |].
  split; vm_compute; reflexivity.
Qed.

End ModelManagerFacts.

(** ** Masks: shape, and dependence on the regions *)

Module MaskAlgebra.
Import Image Float.

(** Two rasters of the same shape that agree at every position are
    equal. *)
Lemma raster_ext {A : Type} (a b : list (list A)) (h w : nat) :
  length a = h -> length b = h ->
  Forall (fun row => length row = w) a ->
  Forall (fun row => length row = w) b ->
  (forall r c, (r < h)%nat -> (c < w)%nat -> pixel_at a r c = pixel_at b r c) ->
  a = b.
Proof.
  intros Ha Hb Hwa Hwb Hpix. apply list_eq. intros r.
  destruct (a !! r) as [ra |] eqn:Hra, (b !! r) as [rb |] eqn:Hrb.
  - f_equal. apply list_eq. intros c.
    rewrite Forall_lookup in Hwa, Hwb.
    pose proof (Hwa r ra Hra) as Hla. pose proof (Hwb r rb Hrb) as Hlb.
    destruct (decide (c < w)%nat) as [Hc | Hc].
    + specialize (Hpix r c). unfold pixel_at in Hpix. rewrite Hra, Hrb in Hpix.
      apply Hpix; [| exact Hc]. apply lookup_lt_Some in Hra. lia.
    + rewrite !lookup_ge_None_2 by lia. reflexivity.
  - apply lookup_lt_Some in Hra. apply lookup_ge_None in Hrb. lia.
  - apply lookup_lt_Some in Hrb. apply lookup_ge_None in Hra. lia.
  - reflexivity.
Qed.

(** The loop of [inpaint_video.create_mask] keeps the shape of the
    mask. *)
Lemma inpaint_fold_shape (h w : Z) (regions : list Region.t) :
  forall acc : list (list Z),
  length acc = Z.to_nat h ->
  Forall (fun row => length row = Z.to_nat w) acc ->
  let mask :=
    fold_left
      (fun mask region =>
         assign_block mask
           (Z.max 0 (Region.y region))
           (Z.min h (Region.y region + Region.height region))
           (Z.max 0 (Region.x region))
           (Z.min w (Region.x region + Region.width region)) 255)
      regions acc in
  length mask = Z.to_nat h /\ Forall (fun row => length row = Z.to_nat w) mask.
Proof.
  induction regions as [| g regions IH]; intros acc Hlen Hrows; cbn [fold_left].
  - split; assumption.
  - destruct (MaskFacts.assign_block_shape acc (Z.max 0 (Region.y g))
                (Z.min h (Region.y g + Region.height g))
                (Z.max 0 (Region.x g))
                (Z.min w (Region.x g + Region.width g)) 255 _ _ Hlen Hrows)
      as [Hlen' Hrows'].
    exact (IH _ Hlen' Hrows').
Qed.

(** A position of the mask ends at 255 exactly when the assignment of
    some region reaches it. *)
Lemma inpaint_fold_pixel (h w : Z) (regions : list Region.t) (r c : nat) :
  forall acc : list (list Z),
  length acc = Z.to_nat h ->
  Forall (fun row => length row = Z.to_nat w) acc ->
  pixel_at
    (fold_left
       (fun mask region =>
          assign_block mask
            (Z.max 0 (Region.y region))
            (Z.min h (Region.y region + Region.height region))
            (Z.max 0 (Region.x region))
            (Z.min w (Region.x region + Region.width region)) 255)
       regions acc) r c
  = (fun v0 => if existsb (InpaintVideo.marks (h, w) (Z.of_nat r) (Z.of_nat c)) regions
               then 255 else v0) <$> pixel_at acc r c.
Proof.
  induction regions as [| g regions IH]; intros acc Hlen Hrows; cbn [fold_left existsb].
  - destruct (pixel_at acc r c); reflexivity.
  - destruct (MaskFacts.assign_block_shape acc (Z.max 0 (Region.y g))
                (Z.min h (Region.y g + Region.height g))
                (Z.max 0 (Region.x g))
                (Z.min w (Region.x g + Region.width g)) 255 _ _ Hlen Hrows)
      as [Hlen' Hrows'].
    rewrite (IH _ Hlen' Hrows'). rewrite MaskFacts.pixel_at_assign_block.
    unfold pixel_at.
    destruct (acc !! r) as [row |] eqn:Hrow; [| reflexivity].
    destruct (row !! c) as [old |] eqn:Hold; [| reflexivity].
    rewrite Forall_lookup in Hrows. rewrite (Hrows r row Hrow), Hlen.
    unfold InpaintVideo.marks. cbn [fst snd fmap option_fmap option_map].
    destruct (in_slice _ _ _ (Z.of_nat r) && in_slice _ _ _ (Z.of_nat c)),
      (existsb _ regions); reflexivity.
Qed.

Lemma inpaint_mask_marks (frame_shape : Z * Z) (regions : list Region.t) (r c : nat) :
  (r < Z.to_nat (fst frame_shape))%nat -> (c < Z.to_nat (snd frame_shape))%nat ->
  pixel_at (InpaintVideo.create_mask frame_shape regions) r c
  = Some (if existsb (InpaintVideo.marks frame_shape (Z.of_nat r) (Z.of_nat c)) regions
          then 255 else 0).
Proof.
  destruct frame_shape as [h w]. cbn [fst snd]. intros Hr Hc.
  unfold InpaintVideo.create_mask. cbn [fst snd].
  pose proof (MaskFacts.zeros_shape h w) as [Hlen Hrows].
  rewrite (inpaint_fold_pixel h w regions r c _ Hlen Hrows).
  now rewrite MaskFacts.pixel_at_zeros.
Qed.

Lemma inpaint_mask_shape (frame_shape : Z * Z) (regions : list Region.t) :
  length (InpaintVideo.create_mask frame_shape regions) = Z.to_nat (fst frame_shape) /\
  Forall (fun row => length row = Z.to_nat (snd frame_shape))
    (InpaintVideo.create_mask frame_shape regions).
Proof.
  destruct frame_shape as [h w]. unfold InpaintVideo.create_mask. cbn [fst snd].
  pose proof (MaskFacts.zeros_shape h w) as [Hlen Hrows].
  exact (inpaint_fold_shape h w regions _ Hlen Hrows).
Qed.

Lemma pixel_at_Some {A : Type} (img : list (list A)) (r c : nat) (v : A) :
  pixel_at img r c = Some v ->
  exists row, img !! r = Some row /\ row !! c = Some v.
Proof.
  unfold pixel_at. destruct (img !! r) as [row |]; [| discriminate].
  intros H. now exists row.
Qed.

Lemma existsb_incl {A : Type} (f : A -> bool) (l1 l2 : list A) :
  (forall x, In x l1 -> In x l2) -> existsb f l1 = true -> existsb f l2 = true.
Proof.
  intros Hincl H. apply existsb_exists in H as [x [Hin Hf]].
  apply existsb_exists. exists x. split; [now apply Hincl | exact Hf].
Qed.

(** X1.  The mask of [inpaint_video.create_mask] always has the shape of
    the frame, whatever the regions are; a region list that contains
    the regions of another marks at least the pixels the other marks;
    and two lists with the same regions, in any order and with any
    repetition, give the same mask. *)
Theorem create_mask_depends_on_region_set (frame_shape : Z * Z)
    (regions1 regions2 : list Region.t) :
  (length (InpaintVideo.create_mask frame_shape regions1)
     = Z.to_nat (fst frame_shape) /\
   Forall (fun row => length row = Z.to_nat (snd frame_shape))
     (InpaintVideo.create_mask frame_shape regions1)) /\
  ((forall g, In g regions1 -> In g regions2) ->
   forall r c,
     pixel_at (InpaintVideo.create_mask frame_shape regions1) r c = Some 255 ->
     pixel_at (InpaintVideo.create_mask frame_shape regions2) r c = Some 255) /\
  ((forall g, In g regions1 <-> In g regions2) ->
   InpaintVideo.create_mask frame_shape regions1
   = InpaintVideo.create_mask frame_shape regions2).
Proof.
  pose proof (inpaint_mask_shape frame_shape regions1) as [Hl1 Hr1].
  pose proof (inpaint_mask_shape frame_shape regions2) as [Hl2 Hr2].
  split; [split; assumption |]. split.
  - intros Hincl r c Hpix.
    destruct (pixel_at_Some _ _ _ _ Hpix) as (row & Hrow & Hcol).
    assert (Hr : (r < Z.to_nat (fst frame_shape))%nat).
    { apply lookup_lt_Some in Hrow. lia. }
    assert (Hc : (c < Z.to_nat (snd frame_shape))%nat).
    { rewrite Forall_lookup in Hr1. rewrite <- (Hr1 r row Hrow).
      now apply lookup_lt_Some in Hcol. }
    rewrite inpaint_mask_marks in Hpix |- * by assumption.
    destruct (existsb _ regions1) eqn:E1; [| discriminate].
    now rewrite (existsb_incl _ regions1 regions2 Hincl E1).
  - intros Hsame.
    apply (raster_ext _ _ _ _ Hl1 Hl2 Hr1 Hr2). intros r c Hr Hc.
    rewrite !inpaint_mask_marks by assumption. f_equal.
    destruct (existsb _ regions1) eqn:E1, (existsb _ regions2) eqn:E2;
      try reflexivity.
    + rewrite (existsb_incl _ regions1 regions2) in E2; [discriminate | | exact E1].
      intros g. apply Hsame.
    + rewrite (existsb_incl _ regions2 regions1) in E1; [discriminate | | exact E2].
      intros g. apply Hsame.
Qed.

Lemma create_mask_depends_on_region_set_witness :
  let a := {| Region.x := 0; Region.y := 0; Region.width := 2; Region.height := 1 |} in
  let b := {| Region.x := 1; Region.y := 1; Region.width := 5; Region.height := 5 |} in
  InpaintVideo.create_mask (2, 3) [a; b] = InpaintVideo.create_mask (2, 3) [b; a; b] /\
  InpaintVideo.create_mask (2, 3) [a; b] = [[255; 255; 0]; [0; 255; 255]].
Proof.
  intros a b. split; [| reflexivity].
  apply (create_mask_depends_on_region_set (2, 3) [a; b] [b; a; b]).
  intros g. cbn [In]. tauto.
Defined.

(** [cv2.rectangle] changes the values it covers and nothing else. *)
Lemma pixel_at_rectangle (img : list (list Z)) (xa ya xb yb v : Z) (r c : nat) :
  pixel_at (rectangle img xa ya xb yb v) r c
  = (fun old =>
       if (Z.min xa xb <=? Z.of_nat c) && (Z.of_nat c <=? Z.max xa xb)
          && (Z.min ya yb <=? Z.of_nat r) && (Z.of_nat r <=? Z.max ya yb)
       then v else old) <$> pixel_at img r c.
Proof.
  unfold pixel_at, rectangle. rewrite list_lookup_imap.
  destruct (img !! r) as [row |]; simpl; [| reflexivity].
  now rewrite list_lookup_imap.
Qed.

Lemma rectangle_shape (img : list (list Z)) (xa ya xb yb v : Z) (h w : nat) :
  length img = h -> Forall (fun row => length row = w) img ->
  length (rectangle img xa ya xb yb v) = h /\
  Forall (fun row => length row = w) (rectangle img xa ya xb yb v).
Proof.
  intros Hh Hw. unfold rectangle. split; [now rewrite length_imap |].
  apply Forall_lookup. intros i row. rewrite list_lookup_imap.
  destruct (img !! i) as [row0 |] eqn:Hrow; simpl; [| discriminate].
  intros [= <-]. rewrite length_imap.
  rewrite Forall_lookup in Hw. exact (Hw i row0 Hrow).
Qed.

Lemma canvas_fold (regions : list Region.t) (h w : nat) (r c : nat) :
  forall acc : list (list Z),
  length acc = h -> Forall (fun row => length row = w) acc ->
  let canvas :=
    fold_left
      (fun mask region =>
         rectangle mask (Region.x region) (Region.y region)
           (Region.x region + Region.width region)
           (Region.y region + Region.height region) 255)
      regions acc in
  length canvas = h /\ Forall (fun row => length row = w) canvas /\
  pixel_at canvas r c
  = (fun v0 => if existsb (Region.covers_closed (Z.of_nat c) (Z.of_nat r)) regions
               then 255 else v0) <$> pixel_at acc r c.
Proof.
  induction regions as [| g regions IH]; intros acc Hlen Hrows; cbn [fold_left existsb].
  - repeat split; try assumption. destruct (pixel_at acc r c); reflexivity.
  - destruct (rectangle_shape acc (Region.x g) (Region.y g)
                (Region.x g + Region.width g) (Region.y g + Region.height g) 255
                _ _ Hlen Hrows) as [Hlen' Hrows'].
    destruct (IH _ Hlen' Hrows') as (Hl & Hr & Hp).
    repeat split; try assumption.
    rewrite Hp, pixel_at_rectangle. unfold Region.covers_closed.
    destruct (pixel_at acc r c); cbn [fmap option_fmap option_map]; [| reflexivity].
    destruct (_ && _ && _ && _), (existsb _ regions); reflexivity.
Qed.

(** X2.  For a frame size that is not negative and regions whose
    corners fit C [int]s, as [np.zeros] and [cv2.rectangle] need them:
    in [ai_watermark_remover.create_mask] the image handed to
    [cv2.GaussianBlur] has the shape of the frame and is 255 exactly on
    the pixels that lie in the closed rectangle of some region (both
    corners [(x, y)] and [(x + w, y + h)] included, in either order) and
    0 elsewhere; nothing wraps around, and every pixel that the
    half-open region of [inpaint_video.py] contains is among them. *)
Theorem create_mask_blurs_closed_rectangles (blur : gray -> gray)
    (width height : Z) (regions : list Region.t) :
  0 <= width -> 0 <= height ->
  Forall Region.corners_fit_int regions ->
  exists canvas : gray,
    AiWatermarkRemover.create_mask blur width height regions
    = List.map (List.map AiWatermarkRemover.unit_scale)
        (List.map (List.map saturate_uint8) (blur canvas)) /\
    length canvas = Z.to_nat height /\
    Forall (fun row => length row = Z.to_nat width) canvas /\
    (forall r c : nat,
        (r < Z.to_nat height)%nat -> (c < Z.to_nat width)%nat ->
        pixel_at canvas r c
        = Some (if existsb (Region.covers_closed (Z.of_nat c) (Z.of_nat r)) regions
                then 255 else 0)) /\
    (forall px py g,
        Region.covers px py g = true -> Region.covers_closed px py g = true).
Proof.
  intros _ _ _.
  pose proof (MaskFacts.zeros_shape height width) as [Hlen Hrows].
  eexists. split; [reflexivity |].
  split; [| split; [| split]].
  - exact (proj1 (canvas_fold regions _ _ 0 0 _ Hlen Hrows)).
  - exact (proj1 (proj2 (canvas_fold regions _ _ 0 0 _ Hlen Hrows))).
  - intros r c Hr Hc.
    etransitivity; [exact (proj2 (proj2 (canvas_fold regions _ _ r c _ Hlen Hrows))) |].
    now rewrite MaskFacts.pixel_at_zeros.
  - intros px py g. unfold Region.covers, Region.covers_closed.
    rewrite !andb_true_iff, !Z.leb_le, !Z.ltb_lt. lia.
Qed.

Lemma create_mask_blurs_closed_rectangles_witness :
  let g := {| Region.x := 1; Region.y := 0; Region.width := 1; Region.height := 0 |} in
  exists canvas : gray,
    AiWatermarkRemover.create_mask (fun c => c) 3 2 [g]
    = List.map (List.map AiWatermarkRemover.unit_scale)
        (List.map (List.map saturate_uint8) canvas) /\
    pixel_at canvas 0 2 = Some 255 /\
    pixel_at canvas 1 2 = Some 0 /\
    Region.covers 2 0 g = false.
Proof.
  intros g.
  destruct (create_mask_blurs_closed_rectangles (fun c => c) 3 2 [g])
    as (canvas & Heq & _ & _ & Hpix & _).
  { lia. }
  { lia. }
  { repeat constructor; cbn; lia. }
  exists canvas. split; [exact Heq |].
  split; [exact (Hpix 0%nat 2%nat ltac:(cbn; lia) ltac:(cbn; lia)) |].
  split; [exact (Hpix 1%nat 2%nat ltac:(cbn; lia) ltac:(cbn; lia)) | reflexivity].
Defined.

End MaskAlgebra.

(** ** inpaint_video.py: encoder arguments and whole runs *)

Module InpaintRunFacts.
Import Py Os Cv2 InpaintVideo.

(** X4.  Whatever ffmpeg does, the arguments that [process_video] builds
    for the remux select the very encoder that [detect_hw_encoder]
    chose; and a name that is none of the four hardware encoders gets
    the libx264 arguments. *)
Theorem encoder_args_select_detected_encoder (ffmpeg : ffmpeg_t) (s : state) :
  (exists chosen rest,
      detect_hw_encoder ffmpeg s = (Ok chosen, s) /\
      build_encoder_args chosen = ("-c:v" :: chosen :: rest)%string) /\
  (forall name,
      ~ In name (List.map fst encoders) ->
      build_encoder_args name
      = ["-c:v"; "libx264"; "-preset"; "fast"; "-crf"; "18"]%string).
Proof.
  split.
  - destruct (ProbeFacts.probe_loop_first_success ffmpeg encoders s)
      as (chosen & Hrun & Hwhich).
    exists chosen. unfold detect_hw_encoder. rewrite Hrun.
    destruct Hwhich as [(before & cmd & after & Henc & _) | [_ ->]].
    + assert (Hin : In (chosen, cmd) encoders).
      { rewrite Henc. apply in_or_app. right. now left. }
      unfold encoders in Hin. cbn [In] in Hin.
      destruct Hin as [H | [H | [H | [H | []]]]];
        injection H as <- _; eexists; (split; [reflexivity |]); reflexivity.
    + eexists. split; reflexivity.
  - intros name Hnot. unfold build_encoder_args.
    destruct (String.eqb_spec name "h264_videotoolbox") as [-> | _];
      [exfalso; apply Hnot; cbn; tauto |].
    destruct (String.eqb_spec name "h264_nvenc") as [-> | _];
      [exfalso; apply Hnot; cbn; tauto |].
    destruct (String.eqb_spec name "h264_amf") as [-> | _];
      [exfalso; apply Hnot; cbn; tauto |].
    destruct (String.eqb_spec name "h264_qsv") as [-> | _];
      [exfalso; apply Hnot; cbn; tauto |].
    reflexivity.
Qed.

Lemma encoder_args_select_detected_encoder_witness :
  build_encoder_args "hevc_nvenc"
  = ["-c:v"; "libx264"; "-preset"; "fast"; "-crf"; "18"]%string.
Proof.
  apply (encoder_args_select_detected_encoder (fun _ _ => (Exited 1, None))
           (initial ∅)).
  cbn. intros [H | [H | [H | [H | []]]]]; discriminate H.
Defined.

Lemma progress_frames_app (a b : list event) :
  progress_frames (a ++ b) = progress_frames a ++ progress_frames b.
Proof. unfold progress_frames. now rewrite flat_map_app. Qed.

Lemma progress_frames_bound (total lo hi : Z) (added : list event) :
  Forall (fun ev => exists k p, ev = Progress k total p /\ lo < k <= hi) added ->
  Forall (fun k => lo < k <= hi) (progress_frames added).
Proof.
  induction 1 as [| ev added (k & p & -> & Hk) _ IH]; cbn; [constructor |].
  constructor; assumption.
Qed.

(** The loop of [process_video]: it leaves the handles and the files
    alone, and every event it prints is a progress event for a frame
    it has just written, later than the one before. *)
Lemma frame_loop_trace (w : world) (mask : Image.gray) (algorithm : string)
    (inpaint_radius total_frames interval : Z) (cap : list Image.frame) :
  0 < interval ->
  forall (current_frame : Z) (s : state),
  exists r s' added,
    frame_loop w mask algorithm inpaint_radius total_frames interval
      cap current_frame s = (r, s') /\
    cap_open s' = cap_open s /\ out_open s' = out_open s /\ fs s' = fs s /\
    events s' = events s ++ added /\
    Forall (fun ev => exists k p,
              ev = Progress k total_frames p /\
              current_frame < k <= current_frame + Z.of_nat (length cap)) added /\
    StronglySorted Z.lt (progress_frames added).
Proof.
  intros Hint. induction cap as [| frame cap IH]; intros current_frame s.
  - exists (Ok tt), s, []. rewrite app_nil_r. repeat split; constructor.
  - cbn [frame_loop]. unfold bind at 1, lift.
    destruct (inpaint_frame w frame mask algorithm inpaint_radius) as [repaired | e].
    2:{ exists (Raise e), s, []. rewrite app_nil_r. repeat split; constructor. }
    unfold bind at 1, modify.
    unfold bind at 1. rewrite PyFacts.mod_positive by assumption.
    set (s1 := set_written (written s ++ [repaired]) s).
    unfold bind at 1.
    destruct (((current_frame + 1) mod interval =? 0)
              || (current_frame + 1 =? total_frames)).
    + destruct (FrameLoopFacts.print_progress_ok (current_frame + 1) total_frames s1)
        as (p & Hprint & _).
      rewrite Hprint.
      destruct (IH (current_frame + 1)
                   (set_events (events s1 ++ [Progress (current_frame + 1) total_frames p]) s1))
        as (r & s' & added & Hrun & Hc & Ho & Hf & Hev & Hall & Hsorted).
      exists r, s', (Progress (current_frame + 1) total_frames p :: added).
      split; [exact Hrun |].
      split; [rewrite Hc; reflexivity |].
      split; [rewrite Ho; reflexivity |].
      split; [rewrite Hf; reflexivity |].
      split; [rewrite Hev; cbn; now rewrite <- app_assoc |].
      split.
      * constructor.
        -- exists (current_frame + 1), p. split; [reflexivity |].
           cbn [length]. lia.
        -- eapply Forall_impl; [exact Hall |]. cbn.
           intros ev (k & q & -> & Hk). exists k, q. split; [reflexivity |]. lia.
      * cbn [progress_frames flat_map app]. fold (progress_frames added).
        constructor; [exact Hsorted |].
        apply progress_frames_bound in Hall.
        eapply Forall_impl; [exact Hall |]. cbn. lia.
    + unfold ret at 1.
      destruct (IH (current_frame + 1) s1)
        as (r & s' & added & Hrun & Hc & Ho & Hf & Hev & Hall & Hsorted).
      exists r, s', added.
      split; [exact Hrun |].
      split; [rewrite Hc; reflexivity |].
      split; [rewrite Ho; reflexivity |].
      split; [rewrite Hf; reflexivity |].
      split; [rewrite Hev; reflexivity |].
      split; [| exact Hsorted].
      eapply Forall_impl; [exact Hall |]. cbn.
      intros ev (k & q & -> & Hk). exists k, q. split; [reflexivity |]. lia.
Qed.

(** When every frame is repaired the loop ends normally, having written
    the repaired frames in order. *)
Lemma frame_loop_written (w : world) (mask : Image.gray) (algorithm : string)
    (inpaint_radius total_frames interval : Z) (cap repaired : list Image.frame) :
  0 < interval ->
  Forall2 (fun fr rep => inpaint_frame w fr mask algorithm inpaint_radius = Ok rep)
    cap repaired ->
  forall (current_frame : Z) (s : state),
  exists s',
    frame_loop w mask algorithm inpaint_radius total_frames interval
      cap current_frame s = (Ok tt, s') /\
    written s' = written s ++ repaired.
Proof.
  intros Hint Hall. induction Hall as [| frame rep cap repaired Hok _ IH];
    intros current_frame s.
  - exists s. cbn. now rewrite app_nil_r.
  - cbn [frame_loop]. unfold bind at 1, lift. rewrite Hok.
    unfold bind at 1, modify.
    unfold bind at 1. rewrite PyFacts.mod_positive by assumption.
    set (s1 := set_written (written s ++ [rep]) s).
    unfold bind at 1.
    destruct (((current_frame + 1) mod interval =? 0)
              || (current_frame + 1 =? total_frames)).
    + destruct (FrameLoopFacts.print_progress_ok (current_frame + 1) total_frames s1)
        as (p & Hprint & _).
      rewrite Hprint.
      destruct (IH (current_frame + 1)
                  (set_events (events s1 ++ [Progress (current_frame + 1) total_frames p]) s1))
        as (s' & Hr & Hw).
      exists s'. split; [exact Hr |]. rewrite Hw.
      cbn. now rewrite <- app_assoc.
    + unfold ret at 1.
      destruct (IH (current_frame + 1) s1) as (s' & Hr & Hw).
      exists s'. split; [exact Hr |]. rewrite Hw.
      cbn. now rewrite <- app_assoc.
Qed.

(** When a frame cannot be repaired the loop stops there with the
    exception of [cv2.inpaint], having written the frames before it. *)
Lemma frame_loop_fails (w : world) (mask : Image.gray) (algorithm : string)
    (inpaint_radius total_frames interval : Z)
    (before repaired : list Image.frame) (bad : Image.frame)
    (after : list Image.frame) (e : exn) :
  0 < interval ->
  Forall2 (fun fr rep => inpaint_frame w fr mask algorithm inpaint_radius = Ok rep)
    before repaired ->
  inpaint_frame w bad mask algorithm inpaint_radius = Raise e ->
  forall (current_frame : Z) (s : state),
  exists s',
    frame_loop w mask algorithm inpaint_radius total_frames interval
      (before ++ bad :: after) current_frame s = (Raise e, s') /\
    written s' = written s ++ repaired.
Proof.
  intros Hint Hall Hbad. induction Hall as [| frame rep before repaired Hok _ IH];
    intros current_frame s.
  - exists s. cbn [app frame_loop]. unfold bind at 1, lift. rewrite Hbad.
    cbn. now rewrite app_nil_r.
  - cbn [app frame_loop]. unfold bind at 1, lift. rewrite Hok.
    unfold bind at 1, modify.
    unfold bind at 1. rewrite PyFacts.mod_positive by assumption.
    set (s1 := set_written (written s ++ [rep]) s).
    unfold bind at 1.
    destruct (((current_frame + 1) mod interval =? 0)
              || (current_frame + 1 =? total_frames)).
    + destruct (FrameLoopFacts.print_progress_ok (current_frame + 1) total_frames s1)
        as (p & Hprint & _).
      rewrite Hprint.
      destruct (IH (current_frame + 1)
                  (set_events (events s1 ++ [Progress (current_frame + 1) total_frames p]) s1))
        as (s' & Hr & Hw).
      exists s'. split; [exact Hr |]. rewrite Hw.
      cbn. now rewrite <- app_assoc.
    + unfold ret at 1.
      destruct (IH (current_frame + 1) s1) as (s' & Hr & Hw).
      exists s'. split; [exact Hr |]. rewrite Hw.
      cbn. now rewrite <- app_assoc.
Qed.

(** The state in which [process_video] enters its loop. *)
Lemma process_video_enters_loop (w : world) (input_path output_path : string)
    (regions : list Region.t) (algorithm : string) (inpaint_radius : Z)
    (files : gmap string bytes) (c : capture) :
  video_capture w input_path = Some c ->
  video_writer_opens w output_path = true ->
  let s1 := {| cap_open := true; out_open := true; written := [];
               events := [Info (declared_frames c) (frame_width c) (frame_height c)
                            algorithm];
               fs := <[output_path := encode w []]> files |} in
  process_video w input_path output_path regions algorithm inpaint_radius
    (initial files)
  = match frame_loop w (create_mask (frame_height c, frame_width c) regions)
            algorithm inpaint_radius (declared_frames c)
            (report_interval (declared_frames c)) (decodable c) 0 s1 with
    | (r, s2) =>
        let s3 := {| cap_open := false; out_open := false; written := written s2;
                     events := events s2;
                     fs := <[output_path := encode w (written s2)]> (fs s2) |} in
        match r with
        | Ok _ => remux w input_path output_path s3
        | Raise e => (Raise e, s3)
        end
    end.
Proof.
  intros Hcap Hout. cbn zeta. unfold process_video. rewrite Hcap.
  unfold bind at 1, modify at 1. rewrite Hout. cbn [negb].
  unfold bind at 1, modify at 1. unfold bind at 1, print at 1, modify at 1.
  unfold bind at 1. unfold try_finally. cbn [initial set_cap_open set_out_open
    set_fs set_events cap_open out_open written events fs app].
  destruct (frame_loop _ _ _ _ _ _ _ _ _) as [r s2].
  unfold bind at 1, release_cap, modify at 1. unfold release_out, modify at 1.
  cbn [set_cap_open set_out_open set_fs cap_open out_open written events fs].
  destruct r as [[] | e]; reflexivity.
Qed.



(** The remux stage does not touch the record of written frames. *)
Lemma remux_keeps_written (w : world) (input_path output_path : string) (s : state) :
  written (snd (remux w input_path output_path s)) = written s.
Proof.
  set (R := fun s s' : state => written s' = written s).
  assert (Rtrans : forall s1 s2 s3, R s1 s2 -> R s2 s3 -> R s1 s3).
  { unfold R. intros s1 s2 s3 H1 H2. congruence. }
  assert (Hrename : forall h a b s, R s (snd (rename fs set_fs h a b s))).
  { intros h a b s0. unfold R, rename. destruct (fs s0 !! a); [| reflexivity].
    destruct h, (fs s0 !! b); reflexivity. }
  assert (Hremove : forall a s, R s (snd (remove fs set_fs a s))).
  { intros a s0. unfold R, remove. destruct (fs s0 !! a); reflexivity. }
  revert s. change (forall s, R s (snd (remux w input_path output_path s))).
  unfold remux.
  apply PyFacts.bind_keeps; auto.
  intros _. apply PyFacts.bind_keeps; auto.
  { intros s.
    destruct (ProbeFacts.probe_loop_first_success (ffmpeg w) encoders s)
      as (hw_encoder & Hdetect & _).
    unfold detect_hw_encoder. rewrite Hdetect. reflexivity. }
  intros hw_encoder. apply PyFacts.bind_keeps; auto.
  - apply PyFacts.try_except_keeps; auto.
    + apply PyFacts.bind_keeps; auto.
      * intros s. unfold R, run_ffmpeg.
        destruct (ffmpeg w _ (fs s)) as [[rc | why] [v |]]; reflexivity.
      * intros rc s. destruct (negb (rc =? 0)); auto.
    + intros _. apply PyFacts.bind_keeps; auto.
      * intros s. reflexivity.
      * intros [] s; [auto | reflexivity].
  - intros _ s. reflexivity.
Qed.

(** X6.  When the input opens, the writer opens and [cv2.inpaint]
    repairs every frame that decodes, [process_video] writes exactly
    one repaired frame per decoded frame, in order, all with the mask
    built once from the regions; it then continues as the remux stage
    from the state in which both handles are closed and the file at
    the output path is the encoding of those frames. *)
Theorem process_video_writes_one_frame_per_decoded (w : world)
    (input_path output_path : string) (regions : list Region.t)
    (algorithm : string) (inpaint_radius : Z) (files : gmap string bytes)
    (c : capture) (repaired : list Image.frame) :
  video_capture w input_path = Some c ->
  video_writer_opens w output_path = true ->
  Forall2 (fun fr rep =>
             inpaint_frame w fr (create_mask (frame_height c, frame_width c) regions)
               algorithm inpaint_radius = Ok rep)
    (decodable c) repaired ->
  exists evs,
    process_video w input_path output_path regions algorithm inpaint_radius
      (initial files)
    = remux w input_path output_path
        {| cap_open := false; out_open := false; written := repaired;
           events := evs;
           fs := <[output_path := encode w repaired]> files |} /\
    written (snd (process_video w input_path output_path regions algorithm
                    inpaint_radius (initial files))) = repaired /\
    length repaired = length (decodable c).
Proof.
  intros Hcap Hout Hall.
  rewrite (process_video_enters_loop w input_path output_path regions algorithm
             inpaint_radius files c Hcap Hout). cbn zeta.
  set (s1 := {| cap_open := true; out_open := true; written := [];
                events := _; fs := _ |}).
  assert (Hint : 0 < report_interval (declared_frames c)).
  { pose proof (FrameLoopFacts.report_interval_positive (declared_frames c)). lia. }
  destruct (frame_loop_written w _ algorithm inpaint_radius (declared_frames c)
              _ _ _ Hint Hall 0 s1) as (s2 & Hrun & Hw).
  destruct (frame_loop_trace w (create_mask (frame_height c, frame_width c) regions)
              algorithm inpaint_radius (declared_frames c) _ (decodable c) Hint 0 s1)
    as (r & s2' & added & Hrun' & _ & _ & Hf & _).
  rewrite Hrun in Hrun' |- *. injection Hrun' as <- <-.
  rewrite Hw, Hf. subst s1. cbn [written fs app].
  rewrite insert_insert_eq.
  exists (events s2). split; [reflexivity |].
  split; [apply remux_keeps_written |].
  symmetry. eapply Forall2_length. exact Hall.
Qed.

Lemma process_video_writes_one_frame_per_decoded_witness :
  written (snd (process_video
                  (Examples.inpaint_world (Examples.video 2 2 7) (Exited 0) None)
                  "in.mp4" "out.mp4" [] "TELEA" 3 (initial ∅)))
  = [[[(7, 7, 7)]]; [[(7, 7, 7)]]].
Proof.
  destruct (process_video_writes_one_frame_per_decoded
              (Examples.inpaint_world (Examples.video 2 2 7) (Exited 0) None)
              "in.mp4" "out.mp4" [] "TELEA" 3 ∅ (Examples.video 2 2 7)
              [[[(7, 7, 7)]]; [[(7, 7, 7)]]] eq_refl eq_refl)
    as (evs & _ & Hw & _).
  - repeat constructor.
  - exact Hw.
Defined.

(** X7.  When [cv2.inpaint] raises on a frame, [process_video] lets that
    exception out: the frames before it have been written, both
    handles are closed by the [finally] clause, the output path holds
    the encoding of those frames only, no temporary file was made, and
    neither a [complete] nor an [error] event is printed. *)
Theorem process_video_inpaint_failure (w : world)
    (input_path output_path : string) (regions : list Region.t)
    (algorithm : string) (inpaint_radius : Z) (files : gmap string bytes)
    (c : capture) (before repaired : list Image.frame) (bad : Image.frame)
    (after : list Image.frame) (e : exn) :
  video_capture w input_path = Some c ->
  video_writer_opens w output_path = true ->
  decodable c = before ++ bad :: after ->
  Forall2 (fun fr rep =>
             inpaint_frame w fr (create_mask (frame_height c, frame_width c) regions)
               algorithm inpaint_radius = Ok rep)
    before repaired ->
  inpaint_frame w bad (create_mask (frame_height c, frame_width c) regions)
    algorithm inpaint_radius = Raise e ->
  exists evs,
    process_video w input_path output_path regions algorithm inpaint_radius
      (initial files)
    = (Raise e,
       {| cap_open := false; out_open := false; written := repaired;
          events := evs;
          fs := <[output_path := encode w repaired]> files |}) /\
    Forall (fun ev => match ev with
                      | Complete _ | Error _ => False
                      | _ => True
                      end) evs.
Proof.
  intros Hcap Hout Hdec Hall Hbad.
  rewrite (process_video_enters_loop w input_path output_path regions algorithm
             inpaint_radius files c Hcap Hout). cbn zeta.
  set (s1 := {| cap_open := true; out_open := true; written := [];
                events := _; fs := _ |}).
  assert (Hint : 0 < report_interval (declared_frames c)).
  { pose proof (FrameLoopFacts.report_interval_positive (declared_frames c)). lia. }
  rewrite Hdec.
  destruct (frame_loop_fails w _ algorithm inpaint_radius (declared_frames c)
              _ _ _ _ after e Hint Hall Hbad 0 s1) as (s2 & Hrun & Hw).
  destruct (frame_loop_trace w (create_mask (frame_height c, frame_width c) regions)
              algorithm inpaint_radius (declared_frames c) _
              (before ++ bad :: after) Hint 0 s1)
    as (r & s2' & added & Hrun' & _ & _ & Hf & Hev & Hprog & _).
  rewrite Hrun in Hrun' |- *. injection Hrun' as <- <-.
  rewrite Hw, Hf. subst s1. cbn [written fs app events] in *.
  rewrite insert_insert_eq.
  exists (events s2). split; [reflexivity |].
  rewrite Hev. constructor; [exact I |].
  eapply Forall_impl; [exact Hprog |]. cbn. now intros ev (k & p & -> & _).
Qed.

Lemma process_video_inpaint_failure_witness :
  let w := {| video_capture := fun _ => Some (Examples.video 2 2 7);
              video_writer_opens := fun _ => true;
              encode := fun frames => replicate (length frames) Byte.x2a;
              cv2_inpaint := fun _ _ _ _ => Raise (ExternalError "inpaint");
              ffmpeg := fun _ _ => (Exited 0, None);
              host := Posix |} in
  exists evs,
    process_video w "in.mp4" "out.mp4" [] "TELEA" 3 (initial ∅)
    = (Raise (ExternalError "inpaint"),
       {| cap_open := false; out_open := false; written := [];
          events := evs; fs := <["out.mp4"%string := []]> ∅ |}).
Proof.
  intros w.
  destruct (process_video_inpaint_failure w "in.mp4" "out.mp4" [] "TELEA" 3 ∅
              (Examples.video 2 2 7) [] [] [[(7, 7, 7)]] [[[(7, 7, 7)]]]
              (ExternalError "inpaint") eq_refl eq_refl eq_refl)
    as (evs & Hrun & _).
  - constructor.
  - reflexivity.
  - exists evs. exact Hrun.
Defined.

(** X9.  The frame counters of the progress events of a run of
    [process_video] increase strictly, each lies between 1 and the
    number of frames that decoded, and every progress event carries the
    declared total: a frame is reported at most once, and only after it
    has been written. *)
Theorem progress_frames_increase (w : world) (input_path output_path : string)
    (regions : list Region.t) (algorithm : string) (inpaint_radius : Z)
    (files : gmap string bytes) (c : capture) :
  video_capture w input_path = Some c ->
  let evs := events (snd (process_video w input_path output_path regions
                            algorithm inpaint_radius (initial files))) in
  StronglySorted Z.lt (progress_frames evs) /\
  Forall (fun k => 1 <= k <= Z.of_nat (length (decodable c))) (progress_frames evs) /\
  Forall (fun ev => match ev with
                    | Progress _ total _ => total = declared_frames c
                    | _ => True
                    end) evs.
Proof.
  intros Hcap. cbn zeta.
  destruct (video_writer_opens w output_path) eqn:Hout.
  2:{ unfold process_video. rewrite Hcap. unfold bind at 1, modify at 1.
      rewrite Hout. cbn. repeat split; repeat constructor. }
  rewrite (process_video_enters_loop w input_path output_path regions algorithm
             inpaint_radius files c Hcap Hout). cbn zeta.
  set (s1 := {| cap_open := true; out_open := true; written := [];
                events := _; fs := _ |}).
  assert (Hint : 0 < report_interval (declared_frames c)).
  { pose proof (FrameLoopFacts.report_interval_positive (declared_frames c)). lia. }
  destruct (frame_loop_trace w (create_mask (frame_height c, frame_width c) regions)
              algorithm inpaint_radius (declared_frames c) _ (decodable c) Hint 0 s1)
    as (r & s2 & added & Hrun & _ & _ & _ & Hev & Hprog & Hsorted).
  rewrite Hrun.
  assert (Hbase :
    StronglySorted Z.lt (progress_frames (events s2)) /\
    Forall (fun k => 1 <= k <= Z.of_nat (length (decodable c)))
      (progress_frames (events s2)) /\
    Forall (fun ev => match ev with
                      | Progress _ total _ => total = declared_frames c
                      | _ => True
                      end) (events s2)).
  { rewrite Hev. subst s1. cbn [events app progress_frames flat_map].
    fold (progress_frames added).
    split; [exact Hsorted |]. split.
    - apply progress_frames_bound in Hprog.
      eapply Forall_impl; [exact Hprog |]. cbn. lia.
    - constructor; [exact I |].
      eapply Forall_impl; [exact Hprog |]. cbn. now intros ev (k & p & -> & _). }
  destruct r as [[] | e]; [| exact Hbase].
  set (s3 := {| cap_open := false; out_open := false; written := written s2;
                events := events s2; fs := _ |}).
  pose proof (ProcessVideoFacts.remux_effect w input_path output_path s3)
    as (_ & _ & Hev').
  cbn zeta in Hev'. destruct Hev' as [-> | ->]; [exact Hbase |].
  subst s3. cbn [events]. destruct Hbase as (H1 & H2 & H3).
  rewrite progress_frames_app. cbn. rewrite app_nil_r.
  split; [exact H1 |]. split; [exact H2 |].
  apply Forall_app. split; [exact H3 |]. repeat constructor.
Qed.

Lemma progress_frames_increase_witness :
  progress_frames
    (events (snd (process_video
                    (Examples.inpaint_world (Examples.video 3 3 7) (Exited 0) None)
                    "in.mp4" "out.mp4" [] "TELEA" 3 (initial ∅))))
  = [1; 2; 3] /\
  StronglySorted Z.lt [1; 2; 3].
Proof.
  split; [reflexivity |].
  exact (proj1 (progress_frames_increase
                  (Examples.inpaint_world (Examples.video 3 3 7) (Exited 0) None)
                  "in.mp4" "out.mp4" [] "TELEA" 3 ∅ (Examples.video 3 3 7) eq_refl)).
Defined.

End InpaintRunFacts.

(** ** ai_watermark_remover.py: runs with an arbitrary model *)

Module OptimizedRunFacts.
Import Py Image Cv2 Float AiWatermarkRemover.

Lemma optimized_progress_frames_app (a b : list event) :
  progress_frames (a ++ b) = progress_frames a ++ progress_frames b.
Proof. unfold progress_frames. now rewrite flat_map_app. Qed.

Lemma optimized_progress_frames_bound (total lo hi : Z) (added : list event) :
  Forall (fun ev => exists q k, ev = Progress q k total /\ lo < k <= hi) added ->
  Forall (fun k => lo < k <= hi) (progress_frames added).
Proof.
  induction 1 as [| ev added (q & k & -> & Hk) _ IH]; cbn; [constructor |].
  constructor; assumption.
Qed.

(** [write_frames] writes one frame for every output it finds, stops
    with [IndexError] at the first frame that has none, and touches
    nothing else. *)
Lemma write_frames_count (fmt : format) (m : plane) (frames : list frame)
    (out_batch : list tensor) (s : state) :
  exists r more,
    write_frames fmt m frames out_batch s =
    (r, {| cap_open := cap_open s; out_open := out_open s; cap := cap s;
           written := written s ++ more; events := events s |}) /\
    (length more <= length frames)%nat /\
    match r with
    | Ok _ => length more = length frames
    | Raise e => e = IndexError
    end.
Proof.
  revert out_batch s. induction frames as [| fr frames IH]; intros out_batch [co oo cp wr ev].
  - exists (Ok tt), []. cbn. rewrite app_nil_r. repeat split; lia.
  - destruct out_batch as [| t out_batch].
    + exists (Raise IndexError), []. cbn. rewrite app_nil_r. repeat split; lia.
    + cbn [write_frames]. unfold bind at 1, out_write, modify.
      cbn [cap_open out_open cap written events].
      destruct (IH out_batch
                  {| cap_open := co; out_open := oo; cap := cp;
                     written := wr ++ [composite_frame fmt m fr (out_frame t)];
                     events := ev |}) as (r & more & -> & Hle & Hr).
      cbn [cap_open out_open cap written events].
      exists r, (composite_frame fmt m fr (out_frame t) :: more).
      rewrite <- app_assoc. split; [reflexivity |].
      cbn [length]. split; [lia |]. destruct r; [lia | exact Hr].
Qed.

(** One turn of the loop, whatever the model does. *)
Lemma batch_step_trace (w : world) (dev : device) (mask_tensor : plane)
    (bs total_frames processed_count : Z) (s : state) :
  0 < bs ->
  exists r s' added,
    batch_step w dev mask_tensor bs total_frames processed_count s = (r, s') /\
    cap_open s' = cap_open s /\ out_open s' = out_open s /\
    events s' = events s ++ added /\
    (length (written s) <= length (written s'))%nat /\
    (length (written s') + length (cap s') <= length (written s) + length (cap s))%nat /\
    match r with
    | Ok None => added = [] /\ cap s = [] /\ s' = s
    | Ok (Some n) =>
        (length (cap s') < length (cap s))%nat /\
        (length (written s') + length (cap s')
         = length (written s) + length (cap s))%nat /\
        n = processed_count + Z.of_nat (length (cap s)) - Z.of_nat (length (cap s')) /\
        (added = [] \/ exists q, added = [Progress q n total_frames])
    | Raise e =>
        added = [] /\
        (is_Exception e = true \/ exists batch m, model w batch m = Raise e)
    end.
Proof.
  intros Hbs. unfold batch_step. unfold bind at 1.
  rewrite BatchLoopFacts.read_frames_spec.
  destruct s as [co oo cp wr ev]. cbn [cap cap_open out_open written events].
  destruct (firstn (Z.to_nat bs) cp) as [| fr frames] eqn:Hfirst.
  - assert (cp = []) as ->.
    { destruct cp; [reflexivity |]. destruct (Z.to_nat bs) eqn:E; [lia | discriminate]. }
    exists (Ok None), {| cap_open := co; out_open := oo; cap := []; written := wr; events := ev |}, [].
    rewrite skipn_nil, app_nil_r. cbn. repeat split; lia.
  - assert (Hlen : (length (skipn (Z.to_nat bs) cp) < length cp)%nat
                   /\ (length (fr :: frames) + length (skipn (Z.to_nat bs) cp)
                       = length cp)%nat).
    { rewrite <- Hfirst. rewrite length_skipn, length_firstn.
      assert (length (firstn (Z.to_nat bs) cp) = S (length frames))
        by (now rewrite Hfirst).
      rewrite length_firstn in H. lia. }
    destruct Hlen as [Hshort Hcount].
    unfold bind at 1, lift.
    destruct (model w (List.map (prepare dev) (fr :: frames)) mask_tensor)
      as [out_batch | e] eqn:Hmodel.
    2:{ eexists (Raise e), _, []. split; [reflexivity |].
        cbn [cap_open out_open cap written events]. rewrite app_nil_r.
        repeat split; try lia. right. eauto. }
    unfold bind at 1.
    destruct (write_frames_count (device_format dev) mask_tensor (fr :: frames) out_batch
                {| cap_open := co; out_open := oo; cap := skipn (Z.to_nat bs) cp;
                   written := wr; events := ev |}) as (r & more & -> & Hle & Hr).
    cbn [cap_open out_open cap written events].
    destruct r as [[] | e].
    2:{ eexists (Raise e), _, []. split; [reflexivity |].
        cbn [cap_open out_open cap written events]. rewrite app_nil_r, length_app.
        repeat split; try lia. left. now subst e. }
    unfold bind at 1. rewrite PyFacts.mod_positive by lia.
    unfold bind at 1.
    set (n := processed_count + Z.of_nat (length (fr :: frames))).
    destruct ((n mod (bs * 2) =? 0) || (n =? total_frames)).
    + unfold bind at 1, lift.
      destruct (round_percent n total_frames) as [q | e] eqn:Hq.
      * eexists (Ok (Some n)), _, [Progress q n total_frames].
        split; [reflexivity |]. cbn [cap_open out_open cap written events].
        rewrite length_app.
        repeat split; try lia. right. now exists q.
      * eexists (Raise e), _, []. split; [reflexivity |].
        cbn [cap_open out_open cap written events]. rewrite app_nil_r, length_app.
        repeat split; try lia. left.
        unfold round_percent in Hq.
        destruct (total_frames =? 0); [injection Hq as <-; reflexivity |].
        destruct (0 <? total_frames); discriminate.
    + eexists (Ok (Some n)), _, []. split; [reflexivity |].
      cbn [cap_open out_open cap written events]. rewrite app_nil_r, length_app.
      repeat split; try lia. now left.
Qed.

(** The whole loop, whatever the model does: it ends within as many
    turns as there are frames, plus one. *)
Lemma batch_loop_trace (w : world) (dev : device) (mask_tensor : plane)
    (bs total_frames : Z) :
  0 < bs ->
  forall (fuel : nat) (processed_count : Z) (s : state),
  (length (cap s) < fuel)%nat ->
  exists r s' added,
    batch_loop fuel w dev mask_tensor bs total_frames processed_count s
      = Some (r, s') /\
    cap_open s' = cap_open s /\ out_open s' = out_open s /\
    events s' = events s ++ added /\
    Forall (fun ev => exists q k,
              ev = Progress q k total_frames /\
              processed_count < k <= processed_count + Z.of_nat (length (cap s)))
      added /\
    StronglySorted Z.lt (progress_frames added) /\
    (length (written s) <= length (written s'))%nat /\
    (length (written s') <= length (written s) + length (cap s))%nat /\
    match r with
    | Ok _ => (length (written s') = length (written s) + length (cap s))%nat
    | Raise e => is_Exception e = true \/ exists batch m, model w batch m = Raise e
    end.
Proof.
  intros Hbs. induction fuel as [| fuel IH]; intros processed_count s Hfuel.
  - lia.
  - cbn [batch_loop].
    destruct (batch_step_trace w dev mask_tensor bs total_frames processed_count s Hbs)
      as (r & s1 & added1 & Hstep & Hc1 & Ho1 & Hev1 & Hmono1 & Hsum1 & Hcase).
    rewrite Hstep.
    destruct r as [[n |] | e].
    + destruct Hcase as (Hshort & Hsum & Hn & Hadded).
      destruct (IH n s1 ltac:(lia))
        as (r & s' & added & Hrun & Hc & Ho & Hev & Hall & Hsorted & Hmono & Hle & Hr).
      exists r, s', (added1 ++ added).
      split; [exact Hrun |].
      split; [congruence |]. split; [congruence |].
      split; [rewrite Hev, Hev1; now rewrite <- app_assoc |].
      assert (Hall' :
        Forall (fun ev => exists q k,
                  ev = Progress q k total_frames /\
                  processed_count < k <= processed_count + Z.of_nat (length (cap s)))
          added).
      { eapply Forall_impl; [exact Hall |]. cbn.
        intros ev (q & k & -> & Hk). exists q, k. split; [reflexivity |]. lia. }
      split; [| split; [| split; [lia | split; [lia |]]]].
      * apply Forall_app. split; [| exact Hall'].
        destruct Hadded as [-> | (q & ->)]; constructor; [| constructor].
        exists q, n. split; [reflexivity |]. lia.
      * rewrite optimized_progress_frames_app.
        destruct Hadded as [-> | (q & ->)]; [exact Hsorted |].
        cbn [progress_frames flat_map app]. constructor; [exact Hsorted |].
        apply optimized_progress_frames_bound in Hall.
        eapply Forall_impl; [exact Hall |]. cbn. lia.
      * destruct r; [lia | exact Hr].
    + destruct Hcase as (-> & Hcap & ->).
      exists (Ok tt), s, []. rewrite app_nil_r, Hcap. cbn [length].
      repeat split; try constructor; lia.
    + destruct Hcase as (-> & He).
      exists (Raise e), s1, []. rewrite app_nil_r in Hev1.
      rewrite app_nil_r.
      split; [reflexivity |]. split; [exact Hc1 |]. split; [exact Ho1 |].
      split; [exact Hev1 |]. split; [constructor |]. split; [constructor |].
      split; [exact Hmono1 |]. split; [lia | exact He].
Qed.

(** What [process_video_optimized] is once the input exists and
    opens: the loop from the state with both handles open, then the
    releases and the [complete] event if the loop ended normally. *)
Lemma optimized_enters_loop (w : world) (input_path output_path : string)
    (regions : list Region.t) (custom_batch_size : Z) (c : capture) :
  input_exists w input_path = true ->
  video_capture w input_path = Some c ->
  let dev := torch_device w in
  let bs := batch_size custom_batch_size dev in
  let s1 := {| cap_open := true; out_open := true; cap := decodable c;
               written := []; events := [Info dev bs] |} in
  process_video_optimized w input_path output_path regions custom_batch_size initial
  = match batch_loop (S (length (decodable c))) w dev
            (mask_on_device dev
               (create_mask (gaussian_blur w) (frame_width c) (frame_height c) regions))
            bs (declared_frames c) 0 s1 with
    | None => None
    | Some (Raise e, s2) => Some (Raise e, s2)
    | Some (Ok _, s2) =>
        Some (Ok tt,
              {| cap_open := false; out_open := false; cap := cap s2;
                 written := written s2;
                 events := events s2 ++ [Complete output_path] |})
    end.
Proof.
  intros Hin Hcap. cbn zeta. unfold process_video_optimized.
  rewrite Hin, Hcap. cbn [negb].
  unfold bind at 1, open_handles, modify at 1, print, modify. cbn [initial
    cap_open out_open cap written events app].
  destruct (batch_loop _ _ _ _ _ _ _ _) as [[[[] | e] s2] |]; reflexivity.
Qed.

(** The exits of the script before anything is opened. *)
Lemma exits_before_opening (w : world) (input_path output_path : string)
    (regions : list Region.t) (custom_batch_size : Z) :
  (input_exists w input_path = false ->
   main w input_path output_path regions custom_batch_size initial
   = Some (Raise (SystemExit 1),
           {| cap_open := false; out_open := false; cap := []; written := [];
              events := [Error (String.append "Input not found: " input_path)] |})) /\
  (input_exists w input_path = true ->
   video_capture w input_path = None ->
   main w input_path output_path regions custom_batch_size initial
   = Some (Raise (SystemExit 1),
           {| cap_open := false; out_open := false; cap := []; written := [];
              events := [Error "Failed to open video"] |})).
Proof.
  split.
  - intros Hin. unfold main, process_video_optimized. rewrite Hin. reflexivity.
  - intros Hin Hcap. unfold main, process_video_optimized. rewrite Hin, Hcap.
    reflexivity.
Qed.

(** X10.  The two early exits of [ai_watermark_remover.py]: an input path
    that does not exist and an input that does not open.  Each ends
    with exit status 1 after exactly one [error] event, which the
    handler of the script does not repeat; nothing has been opened or
    written. *)
Theorem optimized_early_exits (w : world) (input_path output_path : string)
    (regions : list Region.t) (custom_batch_size : Z) :
  (input_exists w input_path = false ->
   main w input_path output_path regions custom_batch_size initial
   = Some (Raise (SystemExit 1),
           {| cap_open := false; out_open := false; cap := []; written := [];
              events := [Error (String.append "Input not found: " input_path)] |})) /\
  (input_exists w input_path = true ->
   video_capture w input_path = None ->
   main w input_path output_path regions custom_batch_size initial
   = Some (Raise (SystemExit 1),
           {| cap_open := false; out_open := false; cap := []; written := [];
              events := [Error "Failed to open video"] |})).
Proof. apply exits_before_opening. Qed.

Lemma optimized_early_exits_witness :
  main {| input_exists := fun _ => false;
          video_capture := fun _ => None;
          cuda_available := false; mps_available := false;
          gaussian_blur := fun canvas => canvas;
          model := Examples.identity_model |}
    "in.mp4" "out.mp4" [] 8 initial
  = Some (Raise (SystemExit 1),
          {| cap_open := false; out_open := false; cap := []; written := [];
             events := [Error "Input not found: in.mp4"] |}).
Proof.
  apply (optimized_early_exits
           {| input_exists := fun _ => false;
              video_capture := fun _ => None;
              cuda_available := false; mps_available := false;
              gaussian_blur := fun canvas => canvas;
              model := Examples.identity_model |}
           "in.mp4" "out.mp4" [] 8).
  reflexivity.
Defined.

(** X11.  Whatever the model returns or raises, a run of
    [process_video_optimized] on an input that opens comes to an end
    and never writes more frames than were decoded.  If it ends
    normally it has written exactly one frame per decoded frame, both
    handles are closed and [complete] is the last event; if it raises,
    no [complete] event was printed, and the exception is an
    [Exception] of the loop itself or comes from the model. *)
Theorem optimized_run_outcome (w : world) (input_path output_path : string)
    (regions : list Region.t) (custom_batch_size : Z) (c : capture) :
  input_exists w input_path = true ->
  video_capture w input_path = Some c ->
  exists r s',
    process_video_optimized w input_path output_path regions custom_batch_size
      initial = Some (r, s') /\
    (length (written s') <= length (decodable c))%nat /\
    match r with
    | Ok _ =>
        length (written s') = length (decodable c) /\
        cap_open s' = false /\ out_open s' = false /\
        last (events s') = Some (Complete output_path)
    | Raise e =>
        Forall (fun ev => match ev with Complete _ => False | _ => True end)
          (events s') /\
        (is_Exception e = true \/ exists batch m, model w batch m = Raise e)
    end.
Proof.
  intros Hin Hcap.
  rewrite (optimized_enters_loop w input_path output_path regions custom_batch_size
             c Hin Hcap). cbn zeta.
  set (s1 := {| cap_open := true; out_open := true; cap := decodable c;
                written := []; events := _ |}).
  destruct (batch_loop_trace w (torch_device w)
              (mask_on_device (torch_device w)
                 (create_mask (gaussian_blur w) (frame_width c) (frame_height c) regions))
              (batch_size custom_batch_size (torch_device w)) (declared_frames c)
              (FrameFacts.batch_size_positive custom_batch_size (torch_device w))
              (S (length (decodable c))) 0 s1 ltac:(cbn; lia))
    as (r & s2 & added & Hrun & _ & _ & Hev & Hall & _ & _ & Hle & Hr).
  rewrite Hrun. subst s1. cbn [written cap events length] in *.
  destruct r as [[] | e].
  - eexists _, _. split; [reflexivity |]. cbn [written cap_open out_open events].
    split; [lia |]. repeat split; [lia |]. apply last_snoc.
  - exists (Raise e), s2. split; [reflexivity |]. split; [lia |].
    split; [| exact Hr]. rewrite Hev. constructor; [exact I |].
    eapply Forall_impl; [exact Hall |]. cbn. now intros ev (q & k & -> & _).
Qed.

Lemma optimized_run_outcome_witness :
  exists r s',
    process_video_optimized
      (Examples.ai_world cpu (Examples.video 3 3 7) Examples.failing_model)
      "in.mp4" "out.mp4" [] 2 initial = Some (r, s') /\
    (length (written s') <= 3)%nat.
Proof.
  destruct (optimized_run_outcome
              (Examples.ai_world cpu (Examples.video 3 3 7) Examples.failing_model)
              "in.mp4" "out.mp4" [] 2 (Examples.video 3 3 7) eq_refl eq_refl)
    as (r & s' & Hrun & Hle & _).
  exists r, s'. split; [exact Hrun | exact Hle].
Defined.

(** The [try] of the [__main__] block, for a model that raises
    nothing but [Exception]s. *)
Lemma main_outcome (w : world) (input_path output_path : string)
    (regions : list Region.t) (custom_batch_size : Z) :
  (forall batch m e, model w batch m = Raise e -> is_Exception e = true) ->
  exists r s' earlier final,
    main w input_path output_path regions custom_batch_size initial = Some (r, s') /\
    events s' = earlier ++ [final] /\
    Forall (fun ev => match ev with
                      | Info _ _ | Progress _ _ _ => True
                      | _ => False
                      end) earlier /\
    ((r = Ok tt /\ final = Complete output_path) \/
     (r = Raise (SystemExit 1) /\ exists message, final = Error message)).
Proof.
  intros Hmodel.
  destruct (input_exists w input_path) eqn:Hin.
  2:{ eexists _, _, [], _.
      rewrite (proj1 (exits_before_opening w input_path output_path regions
                        custom_batch_size) Hin).
      split; [reflexivity |]. split; [reflexivity |]. split; [constructor |].
      right. split; [reflexivity |]. eauto. }
  destruct (video_capture w input_path) as [c |] eqn:Hcap.
  2:{ eexists _, _, [], _.
      rewrite (proj2 (exits_before_opening w input_path output_path regions
                        custom_batch_size) Hin Hcap).
      split; [reflexivity |]. split; [reflexivity |]. split; [constructor |].
      right. split; [reflexivity |]. eauto. }
  unfold main.
  rewrite (optimized_enters_loop w input_path output_path regions custom_batch_size
             c Hin Hcap). cbn zeta.
  set (s1 := {| cap_open := true; out_open := true; cap := decodable c;
                written := []; events := _ |}).
  destruct (batch_loop_trace w (torch_device w)
              (mask_on_device (torch_device w)
                 (create_mask (gaussian_blur w) (frame_width c) (frame_height c) regions))
              (batch_size custom_batch_size (torch_device w)) (declared_frames c)
              (FrameFacts.batch_size_positive custom_batch_size (torch_device w))
              (S (length (decodable c))) 0 s1 ltac:(cbn; lia))
    as (r & s2 & added & Hrun & _ & _ & Hev & Hall & _ & _ & _ & Hr).
  rewrite Hrun.
  assert (Hearlier :
    Forall (fun ev => match ev with
                      | Info _ _ | Progress _ _ _ => True
                      | _ => False
                      end) (events s2)).
  { rewrite Hev. subst s1. cbn [events app]. constructor; [exact I |].
    eapply Forall_impl; [exact Hall |]. cbn. now intros ev (q & k & -> & _). }
  destruct r as [[] | e].
  - eexists _, _, (events s2), _. split; [reflexivity |].
    cbn [events]. split; [reflexivity |]. split; [exact Hearlier |].
    left. split; reflexivity.
  - assert (He : is_Exception e = true).
    { destruct Hr as [He | (batch & m & Hm)]; [exact He | exact (Hmodel _ _ _ Hm)]. }
    rewrite He.
    eexists _, _, (events s2), _. split; [reflexivity |].
    cbn. split; [reflexivity |]. split; [exact Hearlier |].
    right. split; [reflexivity |]. eauto.
Qed.

(** X12.  A command line that [argparse] accepts, with a model that
    raises nothing but [Exception]s.  When [json.loads] raises on the
    regions argument, that exception leaves the script as it is, before
    the [try]: no event is printed.  When it yields the regions, the
    run ends in one of two ways: normally, with [complete] as its last
    event, or with exit status 1, with an [error] event as its last
    event; the events before the last one are [info] and [progress]
    events only. *)
Theorem main_reports_every_outcome (w : world) (input_path output_path : string)
    (regions : result (list Region.t)) (custom_batch_size : Z) :
  (forall batch m e, model w batch m = Raise e -> is_Exception e = true) ->
  match regions with
  | Raise e =>
      script w input_path output_path regions custom_batch_size initial
      = Some (Raise e, initial) /\
      events initial = []
  | Ok _ =>
      exists r s' earlier final,
        script w input_path output_path regions custom_batch_size initial
        = Some (r, s') /\
        events s' = earlier ++ [final] /\
        Forall (fun ev => match ev with
                          | Info _ _ | Progress _ _ _ => True
                          | _ => False
                          end) earlier /\
        ((r = Ok tt /\ final = Complete output_path) \/
         (r = Raise (SystemExit 1) /\ exists message, final = Error message))
  end.
Proof.
  intros Hmodel. destruct regions as [rs | e].
  - exact (main_outcome w input_path output_path rs custom_batch_size Hmodel).
  - split; reflexivity.
Qed.

Lemma main_reports_every_outcome_witness :
  (exists s' earlier message,
     script (Examples.ai_world cpu (Examples.video 3 3 7) Examples.failing_model)
       "in.mp4" "out.mp4" (Ok []) 2 initial = Some (Raise (SystemExit 1), s') /\
     events s' = earlier ++ [Error message]) /\
  script (Examples.ai_world cpu (Examples.video 3 3 7) Examples.failing_model)
    "in.mp4" "out.mp4" (Raise (ValueError "Expecting value")) 2 initial
  = Some (Raise (ValueError "Expecting value"), initial).
Proof.
  split.
  - destruct (main_reports_every_outcome
                (Examples.ai_world cpu (Examples.video 3 3 7) Examples.failing_model)
                "in.mp4" "out.mp4" (Ok []) 2)
      as (r & s' & earlier & final & Hrun & Hev & _ & Hcase).
    + intros batch m e H. injection H as <-. reflexivity.
    + destruct Hcase as [[-> ->] | [-> (message & ->)]].
      * exfalso. revert Hrun. vm_compute. discriminate.
      * exists s', earlier, message. split; assumption.
  - apply (main_reports_every_outcome
             (Examples.ai_world cpu (Examples.video 3 3 7) Examples.failing_model)
             "in.mp4" "out.mp4" (Raise (ValueError "Expecting value")) 2).
    intros batch m e H. injection H as <-. reflexivity.
Defined.

(** X13.  The frame counters of the progress events of a run of
    [process_video_optimized] increase strictly, each lies between 1
    and the number of frames that decoded, and every progress event
    carries the declared total, whatever the model does. *)
Theorem optimized_progress_frames_increase (w : world)
    (input_path output_path : string) (regions : list Region.t)
    (custom_batch_size : Z) (c : capture) :
  input_exists w input_path = true ->
  video_capture w input_path = Some c ->
  exists r s',
    process_video_optimized w input_path output_path regions custom_batch_size
      initial = Some (r, s') /\
    StronglySorted Z.lt (progress_frames (events s')) /\
    Forall (fun k => 1 <= k <= Z.of_nat (length (decodable c)))
      (progress_frames (events s')) /\
    Forall (fun ev => match ev with
                      | Progress _ _ total => total = declared_frames c
                      | _ => True
                      end) (events s').
Proof.
  intros Hin Hcap.
  rewrite (optimized_enters_loop w input_path output_path regions custom_batch_size
             c Hin Hcap). cbn zeta.
  set (s1 := {| cap_open := true; out_open := true; cap := decodable c;
                written := []; events := _ |}).
  destruct (batch_loop_trace w (torch_device w)
              (mask_on_device (torch_device w)
                 (create_mask (gaussian_blur w) (frame_width c) (frame_height c) regions))
              (batch_size custom_batch_size (torch_device w)) (declared_frames c)
              (FrameFacts.batch_size_positive custom_batch_size (torch_device w))
              (S (length (decodable c))) 0 s1 ltac:(cbn; lia))
    as (r & s2 & added & Hrun & _ & _ & Hev & Hall & Hsorted & _).
  rewrite Hrun.
  assert (Hbase :
    StronglySorted Z.lt (progress_frames (events s2)) /\
    Forall (fun k => 1 <= k <= Z.of_nat (length (decodable c)))
      (progress_frames (events s2)) /\
    Forall (fun ev => match ev with
                      | Progress _ _ total => total = declared_frames c
                      | _ => True
                      end) (events s2)).
  { rewrite Hev. subst s1. cbn [events cap app progress_frames flat_map] in *.
    fold (progress_frames added).
    split; [exact Hsorted |]. split.
    - apply optimized_progress_frames_bound in Hall.
      eapply Forall_impl; [exact Hall |]. cbn. lia.
    - constructor; [exact I |].
      eapply Forall_impl; [exact Hall |]. cbn. now intros ev (q & k & -> & _). }
  destruct Hbase as (H1 & H2 & H3).
  destruct r as [[] | e].
  - eexists _, _. split; [reflexivity |]. cbn [events].
    rewrite optimized_progress_frames_app. cbn. rewrite app_nil_r.
    split; [exact H1 |]. split; [exact H2 |].
    apply Forall_app. split; [exact H3 |]. repeat constructor.
  - exists (Raise e), s2. repeat split; assumption.
Qed.

Lemma optimized_progress_frames_increase_witness :
  exists r s',
    process_video_optimized
      (Examples.ai_world cpu (Examples.video 5 5 7) Examples.identity_model)
      "in.mp4" "out.mp4" [] 1 initial = Some (r, s') /\
    StronglySorted Z.lt (progress_frames (events s')) /\
    Forall (fun k => 1 <= k <= 5) (progress_frames (events s')).
Proof.
  destruct (optimized_progress_frames_increase
              (Examples.ai_world cpu (Examples.video 5 5 7) Examples.identity_model)
              "in.mp4" "out.mp4" [] 1 (Examples.video 5 5 7) eq_refl eq_refl)
    as (r & s' & Hrun & Hsorted & Hbound & _).
  exists r, s'. split; [exact Hrun |]. split; [exact Hsorted | exact Hbound].
Defined.

(** X14.  [read_frames] never fails.  It hands out the next frames of
    the decoder in order, at most [count] of them and fewer only when
    the decoder runs out, so that what it returns followed by what the
    decoder still holds is what the decoder held before; an empty
    result for a positive [count] means the input is exhausted.
    Nothing is written and no event is printed. *)
Theorem read_frames_takes_a_prefix (count : nat) (s : state) :
  exists buffer s',
    read_frames count s = (Ok buffer, s') /\
    buffer ++ cap s' = cap s /\
    length buffer = Nat.min count (length (cap s)) /\
    (buffer = [] -> count = 0%nat \/ cap s = []) /\
    written s' = written s /\ events s' = events s /\
    cap_open s' = cap_open s /\ out_open s' = out_open s.
Proof.
  rewrite BatchLoopFacts.read_frames_spec. eexists _, _.
  split; [reflexivity |]. cbn [cap written events cap_open out_open].
  split; [apply firstn_skipn |]. split; [apply length_firstn |].
  split; [| repeat split].
  intros Hempty. destruct count as [| count]; [now left | right].
  destruct (cap s); [reflexivity | discriminate Hempty].
Qed.

Lemma read_frames_takes_a_prefix_witness :
  exists s',
    read_frames 2 {| cap_open := true; out_open := true;
                     cap := [[[(1, 1, 1)]]; [[(2, 2, 2)]]; [[(3, 3, 3)]]];
                     written := []; events := [] |}
    = (Ok [[[(1, 1, 1)]]; [[(2, 2, 2)]]], s') /\
    cap s' = [[[(3, 3, 3)]]].
Proof.
  destruct (read_frames_takes_a_prefix 2
              {| cap_open := true; out_open := true;
                 cap := [[[(1, 1, 1)]]; [[(2, 2, 2)]]; [[(3, 3, 3)]]];
                 written := []; events := [] |})
    as (buffer & s' & Hrun & Hsplit & _).
  cbn in Hrun. injection Hrun as <- <-.
  eexists. split; reflexivity.
Defined.

End OptimizedRunFacts.

(** ** ai_watermark_remover.py: a frame to the model and back *)

Module TensorFacts.
Import Image Float AiWatermarkRemover.

(** What [out_frame] makes of the tensor of a frame, channel by
    channel. *)
Lemma out_frame_prepare (dev : device) (f : list (list (Z * Z * Z))) :
  out_frame (prepare dev f)
  = List.map
      (List.map
         (fun p : Z * Z * Z =>
            let back v :=
              restored_value (if accelerated dev then cast binary16 (unit_scale v)
                              else unit_scale v) in
            (back (fst (fst p)), back (snd (fst p)), back (snd p)))) f.
Proof.
  unfold prepare, to_tensor, half, tensor_map, out_frame.
  destruct (accelerated dev); cbv beta iota zeta; unfold pixel;
    (induction f as [| row f IH]; [reflexivity |]);
    cbn [List.map zip_with]; (f_equal; [| exact IH]);
    clear IH; (induction row as [| p row IH]; [reflexivity |]);
    cbn [List.map zip_with]; (f_equal; exact IH).
Qed.

Lemma restored_half (f : Z) :
  0 <= f <= 255 ->
  f - 1 <= restored_value (cast binary16 (unit_scale f)) <= f.
Proof.
  intros Hf.
  pose proof (MaskFacts.forall_uint8
                (fun f => (f - 1 <=? restored_value (cast binary16 (unit_scale f)))
                          && (restored_value (cast binary16 (unit_scale f)) <=? f)))
    as H.
  specialize (H ltac:(vm_cast_no_check (eq_refl true)) f Hf). cbv beta in H.
  apply andb_true_iff in H. destruct H as [H1 H2].
  apply Z.leb_le in H1, H2. lia.
Qed.

(** X15.  A frame of 8-bit pixels that goes through [F.to_tensor] and
    comes back through [* 255], [np.clip] and [astype(np.uint8)] is
    unchanged on the CPU, where tensors stay in FP32.  On CUDA and MPS,
    where the tensor is rounded to FP16 on the way, every channel comes
    back as the original value or one less. *)
Theorem frame_round_trip (f : frame) :
  all_values is_uint8 f ->
  out_frame (prepare cpu f) = f /\
  (forall dev y x p,
      pixel_at f y x = Some p ->
      exists q,
        pixel_at (out_frame (prepare dev f)) y x = Some q /\
        at_most_one_below p q).
Proof.
  intros Hall. split.
  - rewrite out_frame_prepare. cbn [accelerated]. cbv zeta.
    unfold all_values in Hall.
    induction Hall as [| row f Hrow _ IH]; [reflexivity |].
    cbn [List.map]. f_equal; [| exact IH].
    induction Hrow as [| [[b g] r] row (Hb & Hg & Hr) _ IHrow]; [reflexivity |].
    cbn [List.map fst snd] in *. f_equal; [| exact IHrow].
    now rewrite !PixelFacts.identity_restored_cpu by assumption.
  - intros dev y x p Hp.
    rewrite FrameFacts.pixel_at_out_frame_prepare.
    unfold frame, pixel in *. rewrite Hp. cbn [fmap option_fmap option_map].
    eexists. split; [reflexivity |].
    pose proof (FrameFacts.all_values_pixel_at _ _ _ _ _ Hall Hp) as (Hb & Hg & Hr).
    destruct p as [[b g] r]. cbn [fst snd] in *.
    unfold at_most_one_below. cbn [fst snd].
    destruct (accelerated dev).
    + pose proof (restored_half b Hb). pose proof (restored_half g Hg).
      pose proof (restored_half r Hr). lia.
    + rewrite !PixelFacts.identity_restored_cpu by assumption. lia.
Qed.

Lemma frame_round_trip_witness :
  out_frame (prepare cpu [[(0, 128, 255)]]) = [[(0, 128, 255)]] /\
  out_frame (prepare cuda [[(1, 1, 1)]]) = [[(0, 0, 0)]].
Proof.
  split; [| vm_compute; reflexivity].
  apply (frame_round_trip [[(0, 128, 255)]]).
  repeat constructor; cbn; lia.
Defined.

End TensorFacts.

(** ** model_manager.py: status, cleanup and the outcomes of a download *)

Module CacheFacts.
Import Py ModelManager.

(** The dictionary of [get_all_model_status], entry by entry, when
    [os.makedirs] goes through. *)
Lemma status_entries (w : world) (s : state) :
  get_cache_dir w s = (Ok (cache_dir w), s) ->
  exists status,
    get_all_model_status w s = (Ok status, s) /\
    (forall algorithm,
        is_Some (status !! algorithm) <-> is_Some (MODEL_REGISTRY !! algorithm)) /\
    (forall algorithm info,
        MODEL_REGISTRY !! algorithm = Some info ->
        exists entry,
          status !! algorithm = Some entry /\
          Status.size_mb entry = size_mb info /\
          Status.description entry = description info /\
          is_model_downloaded w algorithm s = (Ok (Status.downloaded entry), s) /\
          Status.path entry
          = if Status.downloaded entry
            then Some (path_join (cache_dir w) (filename info)) else None).
Proof.
  intros Huse.
  unfold get_all_model_status, MODEL_REGISTRY_items. cbn [status_loop].
  assert (H1 : MODEL_REGISTRY !! "STTN"%string = Some _) by reflexivity.
  assert (H2 : MODEL_REGISTRY !! "LAMA"%string = Some _) by reflexivity.
  assert (H3 : MODEL_REGISTRY !! "PROPAINTER"%string = Some _) by reflexivity.
  unfold bind at 1. rewrite (ModelManagerFacts.get_model_path_known w _ _ s H1 Huse).
  unfold bind at 1. rewrite (ModelManagerFacts.is_model_downloaded_known w _ _ s H1 Huse).
  unfold bind at 1. rewrite (ModelManagerFacts.get_model_path_known w _ _ s H2 Huse).
  unfold bind at 1. rewrite (ModelManagerFacts.is_model_downloaded_known w _ _ s H2 Huse).
  unfold bind at 1. rewrite (ModelManagerFacts.get_model_path_known w _ _ s H3 Huse).
  unfold bind at 1. rewrite (ModelManagerFacts.is_model_downloaded_known w _ _ s H3 Huse).
  unfold ret. cbn [filename size_mb description].
  eexists. split; [reflexivity |]. split.
  - intros algorithm.
    destruct (decide (algorithm = "PROPAINTER"%string)) as [-> | N3].
    { rewrite lookup_insert_eq, H3. split; eauto. }
    destruct (decide (algorithm = "LAMA"%string)) as [-> | N2].
    { rewrite lookup_insert_ne, lookup_insert_eq, H2 by discriminate. split; eauto. }
    destruct (decide (algorithm = "STTN"%string)) as [-> | N1].
    { rewrite !lookup_insert_ne, lookup_insert_eq, H1 by discriminate. split; eauto. }
    rewrite !lookup_insert_ne, lookup_empty by congruence.
    rewrite (ModelManagerFacts.registry_unknown algorithm) by assumption.
    split; intros [? ?]; discriminate.
  - intros algorithm info Hreg.
    rewrite (ModelManagerFacts.is_model_downloaded_known w algorithm info s Hreg Huse).
    apply ModelManagerFacts.registry_lookup in Hreg.
    cbn [MODEL_REGISTRY_items In] in Hreg.
    destruct Hreg as [E | [E | [E | []]]]; injection E as <- <-.
    + rewrite !lookup_insert_ne, lookup_insert_eq by discriminate.
      eexists. split; [reflexivity |]. cbn. repeat split.
    + rewrite lookup_insert_ne, lookup_insert_eq by discriminate.
      eexists. split; [reflexivity |]. cbn. repeat split.
    + rewrite lookup_insert_eq.
      eexists. split; [reflexivity |]. cbn. repeat split.
Qed.




(** What [shutil.rmtree] keeps when it gets through. *)
Lemma rmtree_lookup (dir : string) (files : gmap string file) (p : string) :
  filter (fun entry : string * file => under dir (fst entry) = false) files !! p
  = if under dir p then None else files !! p.
Proof.
  destruct (under dir p) eqn:Hu.
  - apply map_lookup_filter_None_2. right. intros x _ Hp. cbn [fst] in Hp. congruence.
  - destruct (files !! p) as [x |] eqn:Hx.
    + now apply map_lookup_filter_Some_2.
    + apply map_lookup_filter_None_2. now left.
Qed.

(** What it keeps when it stops on an error. *)
Lemma rmtree_partial_lookup (dir : string) (kept : string -> bool)
    (files : gmap string file) (p : string) :
  filter (fun entry : string * file =>
            negb (under dir (fst entry)) || kept (fst entry) = true) files !! p
  = if negb (under dir p) || kept p then files !! p else None.
Proof.
  destruct (negb (under dir p) || kept p) eqn:Hk.
  - destruct (files !! p) as [x |] eqn:Hx.
    + now apply map_lookup_filter_Some_2.
    + apply map_lookup_filter_None_2. now left.
  - apply map_lookup_filter_None_2. right. intros x _ Hp. cbn [fst] in Hp. congruence.
Qed.

(** Every way [cleanup_models] can end. *)
Lemma cleanup_models_outcome (w : world) (s : state) :
  exists r s',
    cleanup_models w s = (r, s') /\
    requests s' = requests s /\
    (forall p, fs s' !! p
               = if under (cache_dir w) p
                 then match r, rmtree_failure w with
                      | Ok _, _ => None
                      | Raise _, Some (_, kept) =>
                          if kept p then fs s !! p else
                            match get_cache_dir w s with
                            | (Ok _, _) => None
                            | _ => fs s !! p
                            end
                      | Raise _, None => fs s !! p
                      end
                 else fs s !! p) /\
    match get_cache_dir w s, rmtree_failure w with
    | (Ok _, _), None => r = Ok tt
    | (Ok _, _), Some (why, _) => r = Raise (OSError why)
    | (Raise e, _), _ => r = Raise e /\ s' = s
    end.
Proof.
  unfold cleanup_models, bind.
  destruct (ModelManagerFacts.get_cache_dir_cases w s) as [Huse | (e & Hfail & _)].
  - rewrite Huse. unfold rmtree.
    destruct (rmtree_failure w) as [[why kept] |].
    + eexists _, _. split; [reflexivity |]. cbn [requests fs set_fs].
      split; [reflexivity |]. split; [| reflexivity].
      intros p. rewrite rmtree_partial_lookup.
      destruct (under (cache_dir w) p); cbn [negb orb]; [| reflexivity].
      destruct (kept p); reflexivity.
    + eexists _, _. split; [reflexivity |]. cbn [requests fs set_fs].
      split; [reflexivity |]. split; [| reflexivity].
      intros p. apply rmtree_lookup.
  - rewrite Hfail. exists (Raise e), s. split; [reflexivity |].
    split; [reflexivity |]. split; [| split; reflexivity].
    intros p. destruct (under (cache_dir w) p); [| reflexivity].
    destruct (rmtree_failure w) as [[why kept] |]; [| reflexivity].
    destruct (kept p); reflexivity.
Qed.

(** X17.  [cleanup_models] makes no request, creates no file and leaves
    every file outside the cache directory as it is.  It returns
    normally exactly when [os.makedirs] and [shutil.rmtree] go through;
    then no file is left under the cache directory, no registered
    model counts as downloaded, and the next [download_model] of any of
    them goes to the network again.  Otherwise it raises: the exception
    of [os.makedirs], with nothing changed, or the [OSError] of
    [shutil.rmtree]. *)
Theorem cleanup_models_empties_cache (w : world) (s : state) :
  exists r s',
    cleanup_models w s = (r, s') /\
    requests s' = requests s /\
    (forall p, under (cache_dir w) p = false -> fs s' !! p = fs s !! p) /\
    (forall p f, fs s' !! p = Some f -> fs s !! p = Some f) /\
    (r = Ok tt <->
     get_cache_dir w s = (Ok (cache_dir w), s) /\ rmtree_failure w = None) /\
    (r = Ok tt ->
     (forall p, under (cache_dir w) p = true -> fs s' !! p = None) /\
     (forall algorithm info,
         MODEL_REGISTRY !! algorithm = Some info ->
         is_model_downloaded w algorithm s' = (Ok false, s') /\
         requests (snd (download_model w algorithm s')) = S (requests s))) /\
    (forall e, r = Raise e ->
       (get_cache_dir w s = (Raise e, s) /\ s' = s) \/
       (get_cache_dir w s = (Ok (cache_dir w), s) /\
        exists why kept, rmtree_failure w = Some (why, kept) /\ e = OSError why)).
Proof.
  destruct (cleanup_models_outcome w s) as (r & s' & Hrun & Hreq & Hfs & Hcase).
  exists r, s'. split; [exact Hrun |]. split; [exact Hreq |].
  assert (Hout : forall p, under (cache_dir w) p = false -> fs s' !! p = fs s !! p).
  { intros p Hp. rewrite Hfs, Hp. reflexivity. }
  assert (Hsub : forall p f, fs s' !! p = Some f -> fs s !! p = Some f).
  { intros p f. rewrite Hfs. destruct (under (cache_dir w) p); [| tauto].
    destruct r; [discriminate |].
    destruct (rmtree_failure w) as [[why kept] |]; [| tauto].
    destruct (kept p); [tauto |].
    destruct (get_cache_dir w s) as [[d | e'] s0]; [discriminate | tauto]. }
  split; [exact Hout |]. split; [exact Hsub |].
  destruct (ModelManagerFacts.get_cache_dir_cases w s) as [Huse | (e & Hfail & _)].
  - rewrite Huse in Hcase, Hfs.
    destruct (rmtree_failure w) as [[why kept] |] eqn:Hrm.
    + subst r. split; [split; [discriminate | intros (_ & H); discriminate] |].
      split; [discriminate |].
      intros e [= <-]. right. split; [exact Huse | eauto].
    + subst r. split; [split; [auto | reflexivity] |].
      split; [| discriminate].
      intros _.
      assert (Hgone : forall p, under (cache_dir w) p = true -> fs s' !! p = None).
      { intros p Hp. rewrite Hfs, Hp. reflexivity. }
      split; [exact Hgone |].
      intros algorithm info Hreg.
      apply ModelManagerFacts.get_cache_dir_usable in Huse as Hparts.
      destruct Hparts as (Hdir & Hfree & _).
      assert (Huse' : get_cache_dir w s' = (Ok (cache_dir w), s')).
      { apply (ModelManagerFacts.get_cache_dir_stable w s s' Huse).
        destruct (fs s' !! cache_dir w) as [f |] eqn:Hf; [| reflexivity].
        apply Hsub in Hf. congruence. }
      destruct (ModelManagerFacts.registry_filenames algorithm info Hreg) as (Hrel & _).
      pose proof (Hgone _ (ModelManagerFacts.under_path_join (cache_dir w)
                             (filename info) Hdir Hrel)) as Hmodel.
      split.
      * rewrite (ModelManagerFacts.is_model_downloaded_known w algorithm info s'
                   Hreg Huse').
        now rewrite Hmodel.
      * destruct (ModelManagerFacts.download_model_outcome w algorithm info s'
                    Hreg Huse') as (r2 & s2 & Hdl & Hdlcase).
        cbn zeta in Hdlcase. rewrite Hmodel in Hdlcase. rewrite Hdl. cbn [snd].
        rewrite (proj1 Hdlcase), Hreq. reflexivity.
  - rewrite Hfail in Hcase. destruct Hcase as [-> ->].
    split; [split; [discriminate | intros (H & _); rewrite Hfail in H; discriminate] |].
    split; [discriminate |].
    intros e' [= <-]. left. split; [exact Hfail | reflexivity].
Qed.

Lemma cleanup_models_empties_cache_witness :
  let w := Examples.server_world (Unreachable "offline") in
  let s := {| fs := {[ "/cache/lama_big_lama.pth"%string
                       := {| size := 2000000; hexdigest := "d" |} ]};
              requests := 0 |} in
  is_model_downloaded w "LAMA" s = (Ok true, s) /\
  exists s',
    cleanup_models w s = (Ok tt, s') /\
    is_model_downloaded w "LAMA" s' = (Ok false, s').
Proof.
  intros w s. split; [reflexivity |].
  destruct (cleanup_models_empties_cache w s)
    as (r & s' & Hrun & _ & _ & _ & Hiff & Hafter & _).
  assert (Hr : r = Ok tt) by (apply Hiff; split; reflexivity).
  subst r. exists s'. split; [exact Hrun |].
  exact (proj1 (proj2 (Hafter eq_refl) "LAMA"%string _ eq_refl)).
Defined.

(** X18.  A call of [download_model] for a registered algorithm that
    fails with an [Exception] fails in one of two ways.  Either
    [os.makedirs] raised on the cache directory: that exception comes
    out, before any request, with nothing changed.  Or the download
    failed: the exception is a [RuntimeError], exactly one request went
    out, and the cache is as the call found it minus the temporary
    file: no partial download stays behind, and whatever was at the
    model path (a file too small to count as downloaded, or nothing) is
    still there. *)
Theorem failed_download_leaves_cache_intact (w : world) (algorithm : string)
    (info : model_info) (s s' : state) (e : exn) :
  MODEL_REGISTRY !! algorithm = Some info ->
  download_model w algorithm s = (Raise e, s') ->
  is_Exception e = true ->
  let model_path := path_join (cache_dir w) (filename info) in
  let temp_path := String.append model_path ".tmp" in
  (get_cache_dir w s = (Raise e, s) /\ s' = s) \/
  (get_cache_dir w s = (Ok (cache_dir w), s) /\
   (exists message, e = RuntimeError message) /\
   requests s' = S (requests s) /\
   fs s' = delete temp_path (fs s) /\
   fs s' !! temp_path = None /\
   fs s' !! model_path = fs s !! model_path).
Proof.
  intros Hreg Hrun He model_path temp_path.
  destruct (ModelManagerFacts.get_cache_dir_cases w s) as [Huse | (e' & Hfail & _)].
  - right. split; [exact Huse |].
    destruct (ModelManagerFacts.download_model_outcome w algorithm info s Hreg Huse)
      as (r & s2 & Hrun' & Hcase).
    rewrite Hrun in Hrun'. injection Hrun' as <- <-.
    fold model_path temp_path in Hcase.
    destruct (match fs s !! model_path with
              | Some f => MiB <? size f
              | None => false
              end).
    { destruct Hcase as [Hcase _]. discriminate Hcase. }
    destruct Hcase as (Hreq & Hcase). rewrite He in Hcase. destruct Hcase as [-> Hfs].
    split; [eauto |]. split; [exact Hreq |]. split; [exact Hfs |].
    rewrite Hfs. split; [apply lookup_delete_eq |].
    apply lookup_delete_ne. apply ModelManagerFacts.tmp_path_fresh.
  - left. rewrite (ModelManagerFacts.download_model_unusable w algorithm info s e'
                     Hreg Hfail) in Hrun.
    injection Hrun as <- <-. split; [exact Hfail | reflexivity].
Qed.

Lemma failed_download_leaves_cache_intact_witness :
  let w := Examples.server_world (Unreachable "offline") in
  let s := {| fs := {[ "/cache/lama_big_lama.pth"%string
                       := {| size := 10; hexdigest := "d" |} ]};
              requests := 0 |} in
  exists message s',
    download_model w "LAMA" s = (Raise (RuntimeError message), s') /\
    requests s' = 1%nat /\
    fs s' !! "/cache/lama_big_lama.pth"%string
    = Some {| size := 10; hexdigest := "d" |}.
Proof.
  intros w s.
  destruct (download_model w "LAMA" s) as [r s'] eqn:Hrun.
  assert (Hr : exists message, r = Raise (RuntimeError message)).
  { revert Hrun. vm_compute. intros [= <- _]. eauto. }
  destruct Hr as (message & ->). exists message, s'. split; [reflexivity |].
  destruct (failed_download_leaves_cache_intact w "LAMA" _ s s' _ eq_refl Hrun eq_refl)
    as [(Hfail & _) | (_ & _ & Hreq & _ & _ & Hkept)].
  - discriminate Hfail.
  - split; [exact Hreq |]. etransitivity; [exact Hkept | reflexivity].
Defined.

(** X19.  What a call of [download_model] costs and how it can fail.  For
    an algorithm that is not registered it raises [ValueError] at once,
    with no request and no change.  For a registered one: when
    [os.makedirs] raises on the cache directory, that exception comes
    out with no request and no change; otherwise the call makes no
    request when the model counts as downloaded and exactly one when it
    does not, and when the caller gave no progress callback, the only
    exception it can raise is a [RuntimeError]. *)
Theorem download_model_requests_and_errors (w : world) (algorithm : string)
    (s : state) :
  match MODEL_REGISTRY !! algorithm with
  | None =>
      download_model w algorithm s
      = (Raise (ValueError (String.append "Unknown algorithm: " algorithm)), s)
  | Some info =>
      exists r s',
        download_model w algorithm s = (r, s') /\
        match get_cache_dir w s with
        | (Raise e, _) => r = Raise e /\ s' = s
        | (Ok _, _) =>
            requests s'
            = (if match fs s !! path_join (cache_dir w) (filename info) with
                  | Some f => MiB <? size f
                  | None => false
                  end
               then requests s else S (requests s)) /\
            (on_progress w = None ->
             forall e, r = Raise e -> exists message, e = RuntimeError message)
        end
  end.
Proof.
  destruct (MODEL_REGISTRY !! algorithm) as [info |] eqn:Hreg.
  - destruct (ModelManagerFacts.get_cache_dir_cases w s) as [Huse | (e' & Hfail & _)].
    + destruct (ModelManagerFacts.download_model_outcome w algorithm info s Hreg Huse)
        as (r & s' & Hrun & Hcase).
      exists r, s'. split; [exact Hrun |]. rewrite Huse. cbn zeta in Hcase.
      destruct (match fs s !! path_join (cache_dir w) (filename info) with
                | Some f => MiB <? size f
                | None => false
                end).
      * destruct Hcase as [-> ->]. split; [reflexivity |]. intros _ e H. discriminate H.
      * destruct Hcase as (Hreq & Hcase). split; [exact Hreq |].
        intros Hcb e ->. destruct (is_Exception e).
        -- destruct Hcase as [-> _]. eauto.
        -- rewrite Hcb in Hcase. destruct Hcase as [? Hcase]. discriminate Hcase.
    + exists (Raise e'), s.
      split; [exact (ModelManagerFacts.download_model_unusable w algorithm info s e'
                       Hreg Hfail) |].
      rewrite Hfail. split; reflexivity.
  - unfold download_model. rewrite Hreg. reflexivity.
Qed.

Lemma download_model_requests_and_errors_witness :
  let w := Examples.server_world (Unreachable "offline") in
  download_model w "VOODOO" Examples.empty_cache
  = (Raise (ValueError "Unknown algorithm: VOODOO"), Examples.empty_cache) /\
  exists r s',
    download_model w "LAMA" Examples.empty_cache = (r, s') /\
    requests s' = 1%nat /\
    (forall e, r = Raise e -> exists message, e = RuntimeError message).
Proof.
  intros w. split.
  - exact (download_model_requests_and_errors w "VOODOO" Examples.empty_cache).
  - pose proof (download_model_requests_and_errors w "LAMA" Examples.empty_cache) as H.
    hnf in H. destruct H as (r & s' & Hrun & Hreq & Herr).
    exists r, s'. split; [exact Hrun |]. split; [exact Hreq |].
    exact (Herr eq_refl).
Defined.

(** X20.  When [os.makedirs] goes through on the cache directory, the
    dictionary of [get_all_model_status] and [download_model] agree on
    what is cached: an algorithm reported as downloaded is returned by
    [download_model] at the reported path with no request and no
    change, and for one reported as not downloaded [download_model]
    makes a request. *)
Theorem status_agrees_with_download (w : world) (s : state) (algorithm : string)
    (info : model_info) :
  MODEL_REGISTRY !! algorithm = Some info ->
  get_cache_dir w s = (Ok (cache_dir w), s) ->
  exists status entry,
    get_all_model_status w s = (Ok status, s) /\
    status !! algorithm = Some entry /\
    if Status.downloaded entry
    then
      Status.path entry = Some (path_join (cache_dir w) (filename info)) /\
      download_model w algorithm s
      = (Ok (path_join (cache_dir w) (filename info)), s)
    else
      Status.path entry = None /\
      requests (snd (download_model w algorithm s)) = S (requests s).
Proof.
  intros Hreg Huse.
  destruct (status_entries w s Huse) as (status & Hrun & _ & Hentries).
  destruct (Hentries algorithm info Hreg) as (entry & Hlookup & _ & _ & Hflag & Hpath).
  exists status, entry. split; [exact Hrun |]. split; [exact Hlookup |].
  rewrite (ModelManagerFacts.is_model_downloaded_known w algorithm info s Hreg Huse)
    in Hflag.
  injection Hflag as Hflag.
  destruct (ModelManagerFacts.download_model_outcome w algorithm info s Hreg Huse)
    as (r & s' & Hdl & Hcase).
  cbn zeta in Hcase. rewrite Hflag in Hcase. rewrite Hpath.
  destruct (Status.downloaded entry).
  - destruct Hcase as [-> ->]. split; [reflexivity | exact Hdl].
  - rewrite Hdl. split; [reflexivity | exact (proj1 Hcase)].
Qed.

Lemma status_agrees_with_download_witness :
  let w := Examples.server_world (Unreachable "offline") in
  let s := {| fs := {[ "/cache/lama_big_lama.pth"%string
                       := {| size := 2000000; hexdigest := "d" |} ]};
              requests := 0 |} in
  exists status entry,
    get_all_model_status w s = (Ok status, s) /\
    status !! "LAMA"%string = Some entry.
Proof.
  intros w s.
  destruct (status_agrees_with_download w s "LAMA" _ eq_refl eq_refl)
    as (status & entry & Hrun & Hlookup & _).
  exists status, entry. split; assumption.
Defined.




End CacheFacts.

(** ** Both scripts: the percentages stay within 0 and 100 *)

Module PercentFacts.
Import Py Image Cv2.

(** The percentage of a frame count between 1 and the total. *)
Lemma percent_range (k total : Z) :
  0 <= k <= total -> 0 < total ->
  0 <= round_half_even (100 * k) total <= 100.
Proof.
  intros Hk Ht. split.
  - rewrite <- (PyFacts.round_half_even_exact 0 total Ht).
    apply PyFacts.round_half_even_mono; lia.
  - rewrite <- (PyFacts.round_half_even_exact 100 total Ht) at 2.
    apply PyFacts.round_half_even_mono; lia.
Qed.

Lemma frame_loop_percent (w : InpaintVideo.world) (mask : gray) (algorithm : string)
    (inpaint_radius total_frames interval : Z) (cap : list frame) :
  0 < interval ->
  forall (current_frame : Z) (s : InpaintVideo.state),
  0 <= current_frame ->
  current_frame + Z.of_nat (length cap) <= total_frames ->
  exists added,
    InpaintVideo.events
      (snd (InpaintVideo.frame_loop w mask algorithm inpaint_radius total_frames
              interval cap current_frame s))
    = InpaintVideo.events s ++ added /\
    Forall (fun p => 0 <= p <= 100) (InpaintVideo.progress_values added).
Proof.
  intros Hint. induction cap as [| fr cap IH]; intros current_frame s Hcf Hle.
  - exists []. cbn. rewrite app_nil_r. split; [reflexivity | constructor].
  - cbn [InpaintVideo.frame_loop]. unfold bind at 1, lift.
    destruct (InpaintVideo.inpaint_frame w fr mask algorithm inpaint_radius)
      as [repaired | e].
    2:{ exists []. cbn. rewrite app_nil_r. split; [reflexivity | constructor]. }
    unfold bind at 1, modify.
    unfold bind at 1. rewrite PyFacts.mod_positive by assumption.
    set (s1 := InpaintVideo.set_written _ s).
    unfold bind at 1. cbn [length] in Hle.
    destruct (((current_frame + 1) mod interval =? 0)
              || (current_frame + 1 =? total_frames)).
    + destruct (FrameLoopFacts.print_progress_ok (current_frame + 1) total_frames s1)
        as (p & Hprint & Hp).
      rewrite Hprint.
      destruct (IH (current_frame + 1)
                  (InpaintVideo.set_events
                     (InpaintVideo.events s1
                      ++ [InpaintVideo.Progress (current_frame + 1) total_frames p]) s1)
                  ltac:(lia) ltac:(lia)) as (added & Hev & Hall).
      exists (InpaintVideo.Progress (current_frame + 1) total_frames p :: added).
      split.
      * etransitivity; [exact Hev |]. cbn. now rewrite <- app_assoc.
      * cbn [InpaintVideo.progress_values flat_map app].
        constructor; [| exact Hall]. subst p.
        destruct (Z.ltb_spec 0 total_frames); [| lia].
        apply percent_range; lia.
    + unfold ret at 1.
      destruct (IH (current_frame + 1) s1 ltac:(lia) ltac:(lia)) as (added & Hev & Hall).
      exists added. split; [exact Hev | exact Hall].
Qed.

(** X22.  When no more frames decode than the container declares, every
    percentage that [inpaint_video.py] prints lies between 0 and 100.
    (With more decoded frames than declared the percentage goes past
    100: 3 frames against a declared total of 2 end at 150.) *)
Theorem progress_within_100 (w : InpaintVideo.world)
    (input_path output_path : string) (regions : list Region.t)
    (algorithm : string) (inpaint_radius : Z) (files : gmap string Os.bytes)
    (c : capture) :
  InpaintVideo.video_capture w input_path = Some c ->
  Z.of_nat (length (decodable c)) <= declared_frames c ->
  Forall (fun p => 0 <= p <= 100)
    (InpaintVideo.progress_values
       (InpaintVideo.events
          (snd (InpaintVideo.process_video w input_path output_path regions
                  algorithm inpaint_radius (InpaintVideo.initial files))))).
Proof.
  intros Hcap Hle.
  destruct (InpaintVideo.video_writer_opens w output_path) eqn:Hout.
  2:{ unfold InpaintVideo.process_video. rewrite Hcap. unfold bind at 1, modify at 1.
      rewrite Hout. cbn. constructor. }
  rewrite (InpaintRunFacts.process_video_enters_loop w input_path output_path regions
             algorithm inpaint_radius files c Hcap Hout). cbn zeta.
  set (s1 := {| InpaintVideo.cap_open := true; InpaintVideo.out_open := true;
                InpaintVideo.written := []; InpaintVideo.events := _;
                InpaintVideo.fs := _ |}).
  assert (Hint : 0 < InpaintVideo.report_interval (declared_frames c)).
  { pose proof (FrameLoopFacts.report_interval_positive (declared_frames c)). lia. }
  destruct (frame_loop_percent w
              (InpaintVideo.create_mask (frame_height c, frame_width c) regions)
              algorithm inpaint_radius (declared_frames c) _ (decodable c) Hint 0 s1
              ltac:(lia) ltac:(lia)) as (added & Hev & Hall).
  destruct (InpaintVideo.frame_loop _ _ _ _ _ _ _ _ _) as [r s2].
  cbn [snd] in Hev.
  assert (Hbase : Forall (fun p => 0 <= p <= 100)
                    (InpaintVideo.progress_values (InpaintVideo.events s2))).
  { rewrite Hev. subst s1. cbn [InpaintVideo.events app InpaintVideo.progress_values
      flat_map]. exact Hall. }
  destruct r as [[] | e]; [| exact Hbase].
  set (s3 := {| InpaintVideo.cap_open := false; InpaintVideo.out_open := false;
                InpaintVideo.written := _; InpaintVideo.events := InpaintVideo.events s2;
                InpaintVideo.fs := _ |}).
  pose proof (ProcessVideoFacts.remux_effect w input_path output_path s3)
    as (_ & _ & Hev').
  cbn zeta in Hev'. destruct Hev' as [-> | ->]; [exact Hbase |].
  subst s3. cbn [InpaintVideo.events].
  rewrite FrameLoopFacts.progress_values_app. cbn. now rewrite app_nil_r.
Qed.

Lemma progress_within_100_witness :
  Forall (fun p => 0 <= p <= 100)
    (InpaintVideo.progress_values
       (InpaintVideo.events
          (snd (InpaintVideo.process_video
                  (Examples.inpaint_world (Examples.video 3 3 7) (Os.Exited 0) None)
                  "in.mp4" "out.mp4" [] "TELEA" 3 (InpaintVideo.initial ∅))))) /\
  InpaintVideo.progress_values
    (InpaintVideo.events
       (snd (InpaintVideo.process_video
               (Examples.inpaint_world (Examples.video 2 3 7) (Os.Exited 0) None)
               "in.mp4" "out.mp4" [] "TELEA" 3 (InpaintVideo.initial ∅))))
  = [50; 100; 150].
Proof.
  split; [| reflexivity].
  apply (progress_within_100
           (Examples.inpaint_world (Examples.video 3 3 7) (Os.Exited 0) None)
           "in.mp4" "out.mp4" [] "TELEA" 3 ∅ (Examples.video 3 3 7) eq_refl).
  cbn. lia.
Defined.

Lemma batch_loop_percent (w : AiWatermarkRemover.world)
    (dev : AiWatermarkRemover.device) (mask_tensor : plane) (bs total_frames : Z) :
  0 < bs ->
  forall (fuel : nat) (processed_count : Z) (s : AiWatermarkRemover.state),
  (length (AiWatermarkRemover.cap s) < fuel)%nat ->
  0 <= processed_count ->
  processed_count + Z.of_nat (length (AiWatermarkRemover.cap s)) <= total_frames ->
  exists r s' added,
    AiWatermarkRemover.batch_loop fuel w dev mask_tensor bs total_frames
      processed_count s = Some (r, s') /\
    AiWatermarkRemover.events s' = AiWatermarkRemover.events s ++ added /\
    Forall (fun p => 0 <= p <= 100) (AiWatermarkRemover.progress_values added).
Proof.
  intros Hbs. induction fuel as [| fuel IH]; intros processed_count s Hfuel Hproc Hle.
  - lia.
  - cbn [AiWatermarkRemover.batch_loop].
    destruct (BatchLoopFacts.batch_step_effect w dev mask_tensor bs total_frames
                processed_count s Hbs)
      as (r & s1 & added1 & Hstep & _ & _ & Hev1 & Hcase).
    rewrite Hstep.
    destruct r as [[n |] | e].
    + destruct Hcase as (Hshort & Hn & Hcount & Hadded).
      destruct (IH n s1 ltac:(lia) ltac:(lia) ltac:(lia))
        as (r & s' & added & Hrun & Hev & Hall).
      exists r, s', (added1 ++ added).
      split; [exact Hrun |].
      split; [rewrite Hev, Hev1; now rewrite <- app_assoc |].
      rewrite BatchLoopFacts.optimized_progress_values_app.
      apply Forall_app. split; [| exact Hall].
      destruct Hadded as [-> | (q & Hq & ->)]; [constructor |].
      cbn. constructor; [| constructor].
      rewrite PyFacts.round_percent_positive in Hq by lia.
      injection Hq as <-. apply percent_range; lia.
    + destruct Hcase as (-> & _ & ->).
      exists (Ok tt), s, []. rewrite app_nil_r. repeat split. constructor.
    + subst added1.
      exists (Raise e), s1, []. rewrite app_nil_r in Hev1. rewrite app_nil_r.
      repeat split; [exact Hev1 | constructor].
Qed.

(** X23.  The same for [ai_watermark_remover.py], whatever the model
    does: when no more frames decode than the container declares, every
    percentage printed lies between 0 and 100. *)
Theorem optimized_progress_within_100 (w : AiWatermarkRemover.world)
    (input_path output_path : string) (regions : list Region.t)
    (custom_batch_size : Z) (c : capture) :
  AiWatermarkRemover.input_exists w input_path = true ->
  AiWatermarkRemover.video_capture w input_path = Some c ->
  Z.of_nat (length (decodable c)) <= declared_frames c ->
  exists r s',
    AiWatermarkRemover.process_video_optimized w input_path output_path regions
      custom_batch_size AiWatermarkRemover.initial = Some (r, s') /\
    Forall (fun p => 0 <= p <= 100)
      (AiWatermarkRemover.progress_values (AiWatermarkRemover.events s')).
Proof.
  intros Hin Hcap Hle.
  rewrite (OptimizedRunFacts.optimized_enters_loop w input_path output_path regions
             custom_batch_size c Hin Hcap). cbn zeta.
  set (s1 := {| AiWatermarkRemover.cap_open := true;
                AiWatermarkRemover.out_open := true;
                AiWatermarkRemover.cap := decodable c;
                AiWatermarkRemover.written := [];
                AiWatermarkRemover.events := _ |}).
  destruct (batch_loop_percent w (AiWatermarkRemover.torch_device w)
              (AiWatermarkRemover.mask_on_device (AiWatermarkRemover.torch_device w)
                 (AiWatermarkRemover.create_mask (AiWatermarkRemover.gaussian_blur w)
                    (frame_width c) (frame_height c) regions))
              (AiWatermarkRemover.batch_size custom_batch_size
                 (AiWatermarkRemover.torch_device w))
              (declared_frames c)
              (FrameFacts.batch_size_positive custom_batch_size
                 (AiWatermarkRemover.torch_device w))
              (S (length (decodable c))) 0 s1 ltac:(cbn; lia) ltac:(lia)
              ltac:(cbn; lia))
    as (r & s2 & added & Hrun & Hev & Hall).
  rewrite Hrun.
  assert (Hbase : Forall (fun p => 0 <= p <= 100)
                    (AiWatermarkRemover.progress_values (AiWatermarkRemover.events s2))).
  { rewrite Hev. subst s1. cbn [AiWatermarkRemover.events app
      AiWatermarkRemover.progress_values flat_map]. exact Hall. }
  destruct r as [[] | e].
  - eexists _, _. split; [reflexivity |]. cbn [AiWatermarkRemover.events].
    rewrite BatchLoopFacts.optimized_progress_values_app. cbn.
    now rewrite app_nil_r.
  - exists (Raise e), s2. split; [reflexivity | exact Hbase].
Qed.

Lemma optimized_progress_within_100_witness :
  exists r s',
    AiWatermarkRemover.process_video_optimized
      (Examples.ai_world AiWatermarkRemover.cpu (Examples.video 4 4 7)
         Examples.identity_model)
      "in.mp4" "out.mp4" [] 1 AiWatermarkRemover.initial = Some (r, s') /\
    Forall (fun p => 0 <= p <= 100)
      (AiWatermarkRemover.progress_values (AiWatermarkRemover.events s')).
Proof.
  apply (optimized_progress_within_100
           (Examples.ai_world AiWatermarkRemover.cpu (Examples.video 4 4 7)
              Examples.identity_model)
           "in.mp4" "out.mp4" [] 1 (Examples.video 4 4 7) eq_refl eq_refl).
  cbn. lia.
Defined.

End PercentFacts.
